(** * Oylab page script ([js/main.js]): a shallow embedding and its properties

    The script wires three behaviours when the page structure is ready:
    a reveal animator, a counter animator and a menu toggler.  JavaScript
    numbers are IEEE 754 binary64 values; they are modelled with the
    standard library's bit-level specification [spec_float], so that the
    counter's accumulator rounds exactly as it does in the browser. *)

From Stdlib Require Import ZArith Lia Bool.
From Stdlib Require Import SpecFloat Ascii.
From stdpp Require Import base list strings gmap.

(** ** JavaScript numbers *)

Module Number.

Definition prec : Z := 53.
Definition emax : Z := 1024.

Abbreviation number := spec_float.

(** An integer literal of the source text, such as [0], [15] or [1500]. *)
Definition of_Z (z : Z) : number := binary_normalize prec emax z 0 false.

(** [x + y], [x / y] and [x < y] on numbers. *)
Definition add (x y : number) : number := SFadd prec emax x y.
Definition div (x y : number) : number := SFdiv prec emax x y.
Definition lt (x y : number) : bool := SFltb x y.
Definition le (x y : number) : bool := SFleb x y.

(** [Math.ceil]: the smallest integral number that is not below [x];
    NaN, the infinities and the zeros are returned unchanged, and a
    negative number above -1 gives -0. *)
Definition ceil (x : number) : number :=
  match x with
  | S754_finite s m e =>
      if (0 <=? e)%Z then x
      else
        let q := (Z.pos m / 2 ^ (- e))%Z in
        let r := (Z.pos m mod 2 ^ (- e))%Z in
        if s then
          (if (q =? 0)%Z then S754_zero true else binary_normalize prec emax (- q) 0 false)
        else
          binary_normalize prec emax (if (r =? 0)%Z then q else q + 1) 0 false
  | _ => x
  end.

End Number.

Import Number.

(** ** The page tree *)

(** Elements are named by their position in document order. *)
Abbreviation elem := nat (only parsing).

(** The text shown by an element: the markup's own text, or the string
    conversion of the number last assigned to [innerText]. *)
Inductive text :=
| Markup (s : string)
| Shown (x : number).

Record element := Element {
  classList : list string;
  data_target : option string;
  innerText : text
}.

Abbreviation dom := (list element) (only parsing).

(** [DOMTokenList.add]: the token is appended unless already present. *)
Definition classList_add (tok : string) (cl : list string) : list string :=
  if bool_decide (tok ∈ cl) then cl else cl ++ [tok].

(** [DOMTokenList.toggle]: the token is removed when present, appended
    otherwise. *)
Definition classList_toggle (tok : string) (cl : list string) : list string :=
  if bool_decide (tok ∈ cl) then filter (λ t, t ≠ tok) cl else cl ++ [tok].

Definition set_classList (f : list string → list string) (el : element) : element :=
  Element (f (classList el)) (data_target el) (innerText el).

(** The assignment to [innerText], as far as the script observes it:
    the element's own text is replaced.  The setter also removes the
    children of the element from the page; nesting is not modelled, the
    page is the list of its elements, so the statements below are about
    the classes, the attribute and the text of an element and not about
    which elements the page holds. *)
Definition set_innerText (t : text) (el : element) : element :=
  Element (classList el) (data_target el) t.

(** [querySelectorAll('.cls')] in document order, and [querySelector],
    which gives the first match or null. *)
Definition querySelectorAll (cls : string) (d : dom) : list elem :=
  (imap (λ i el, (i, el)) d) ≫= (λ p, if bool_decide (cls ∈ classList p.2) then [p.1] else []).

Definition querySelector (cls : string) (d : dom) : option elem :=
  head (querySelectorAll cls d).

(** ** The script's state *)

(** The environment captured by one [updateCounter] closure. *)
Record closure := Closure {
  counter : elem;
  target : number;
  increment : number;
  current : number
}.

Record world := World {
  w_dom : dom;
  (** targets watched by [observer] (threshold 0.1) *)
  w_observer : gset elem;
  (** targets watched by [counterObserver] (threshold 0.8) *)
  w_counterObserver : gset elem;
  (** callbacks pending in [setTimeout]; all have the delay [stepTime],
      so they run in the order they were scheduled *)
  w_timers : list closure;
  (** the click listener on the toggle control, with the [navbarMenu]
      it captured (null when the menu container is absent) *)
  w_click : option (option elem);
  (** history: the counter of every [updateCounter()] call of line 41,
      that is, of every animation started *)
  w_started : list elem
}.

Definition with_dom (f : dom → dom) (w : world) : world :=
  World (f (w_dom w)) (w_observer w) (w_counterObserver w) (w_timers w) (w_click w) (w_started w).

Definition on_element (c : elem) (f : element → element) (w : world) : world :=
  with_dom (alter f c) w.

Definition setTimeout (k : closure) (w : world) : world :=
  World (w_dom w) (w_observer w) (w_counterObserver w) (w_timers w ++ [k]) (w_click w) (w_started w).

Definition unobserve (c : elem) (w : world) : world :=
  World (w_dom w) (w_observer w) (w_counterObserver w ∖ {[c]}) (w_timers w) (w_click w) (w_started w).

Definition note_started (c : elem) (w : world) : world :=
  World (w_dom w) (w_observer w) (w_counterObserver w) (w_timers w) (w_click w) (w_started w ++ [c]).

Definition getAttribute_data_target (c : elem) (w : world) : option string :=
  w_dom w !! c ≫= data_target.

Record entry := Entry { entry_target : elem; isIntersecting : bool }.

Inductive outcome :=
| Normal (w : world)
| TypeError (w : world).

Section Script.

(** The conversion of a string to a number, done by the language. *)
Variable StringToNumber : string → number.

(** Unary [+] applied to the result of [getAttribute]: null gives 0. *)
Definition to_number (a : option string) : number :=
  match a with
  | None => S754_zero false
  | Some s => StringToNumber s
  end.

(** *** Reveal animator (lines 4-16) *)

Definition observer_entry (w : world) (en : entry) : world :=
  if isIntersecting en
  then on_element (entry_target en) (set_classList (classList_add "visible")) w
  else w.

Definition observer_callback (entries : list entry) (w : world) : world :=
  foldl observer_entry w entries.

(** *** Counter animator (lines 19-51) *)

Definition duration : number := of_Z 1500.
Definition stepTime : number := of_Z 15.
Definition totalSteps : number := div duration stepTime.

(** One call of [updateCounter] (lines 31-39). *)
Definition updateCounter (k : closure) (w : world) : world :=
  let current' := add (current k) (increment k) in
  if lt current' (target k)
  then setTimeout (Closure (counter k) (target k) (increment k) current')
         (on_element (counter k) (set_innerText (Shown (ceil current'))) w)
  else on_element (counter k) (set_innerText (Shown (target k))) w.

Definition new_closure (c : elem) (w : world) : closure :=
  let target := to_number (getAttribute_data_target c w) in
  Closure c target (div target totalSteps) (of_Z 0).

Definition counterObserver_entry (w : world) (en : entry) : world :=
  if isIntersecting en
  then
    let c := entry_target en in
    unobserve c (updateCounter (new_closure c w) (note_started c w))
  else w.

Definition counterObserver_callback (entries : list entry) (w : world) : world :=
  foldl counterObserver_entry w entries.

(** The oldest pending timer callback runs. *)
Definition run_timer (w : world) : world :=
  match w_timers w with
  | [] => w
  | k :: rest =>
      updateCounter k
        (World (w_dom w) (w_observer w) (w_counterObserver w) rest (w_click w) (w_started w))
  end.

(** *** Menu toggler (lines 54-59) *)

Definition click (w : world) : outcome :=
  match w_click w with
  | None => Normal w
  | Some None => TypeError w
  | Some (Some menu) => Normal (on_element menu (set_classList (classList_toggle "active")) w)
  end.

(** *** Initialisation: the [DOMContentLoaded] listener *)

Definition init (d : dom) : outcome :=
  let w := World d (list_to_set (querySelectorAll "scroll-animate" d))
                 (list_to_set (querySelectorAll "js-counter" d)) [] None [] in
  match querySelector "navbar-toggler" d with
  | None => TypeError w
  | Some _ =>
      Normal (World (w_dom w) (w_observer w) (w_counterObserver w) (w_timers w)
                    (Some (querySelector "navbar-nav" d)) (w_started w))
  end.

(** *** Events of the host *)

Inductive event :=
| ObserverNotify (entries : list entry)
| CounterObserverNotify (entries : list entry)
| TimerFires
| Click.

(** A watcher is only notified about targets it observes. *)
Definition delivered (w : world) (ev : event) : Prop :=
  match ev with
  | ObserverNotify es => ∀ en, en ∈ es → entry_target en ∈ w_observer w
  | CounterObserverNotify es => ∀ en, en ∈ es → entry_target en ∈ w_counterObserver w
  | TimerFires => w_timers w ≠ []
  | Click => True
  end.

Definition handle (ev : event) (w : world) : outcome :=
  match ev with
  | ObserverNotify es => Normal (observer_callback es w)
  | CounterObserverNotify es => Normal (counterObserver_callback es w)
  | TimerFires => Normal (run_timer w)
  | Click => click w
  end.

(** [run w evs w']: the host delivers the events [evs] one after the
    other, none of the handlers faults, and the state is then [w']. *)
Inductive run : world → list event → world → Prop :=
| run_nil w : run w [] w
| run_cons w ev w1 evs w2 :
    delivered w ev → handle ev w = Normal w1 → run w1 evs w2 → run w (ev :: evs) w2.

(** The first [n] timer callbacks. *)
Fixpoint run_timers (n : nat) (w : world) : world :=
  match n with
  | O => w
  | S n' => run_timers n' (run_timer w)
  end.

End Script.

(** ** Values of numbers *)

Section NumberValues.

Local Open Scope Z_scope.

(** The magnitude of a number in units of the smallest positive number,
    2^-1074; the sign is applied by [nval]. *)
Definition mag (m : positive) (e : Z) : Z := Z.pos m * 2 ^ (e + 1074).

Definition nval (x : number) : Z :=
  match x with
  | S754_finite s m e => cond_Zopp s (mag m e)
  | _ => 0
  end.

(** The spacing of the numbers around the magnitude [X]. *)
Definition ulp (X : Z) : Z := 2 ^ Z.max (Zdigits2 X - 53) 0.

(** The magnitudes from which the result overflows to an infinity. *)
Definition overflow : Z := 2 ^ 2098.

(** [repr s V r]: [r] is the number of sign [s] and magnitude [V]. *)
Definition repr (s : bool) (V : Z) (r : number) : Prop :=
  (V = 0 ∧ r = S754_zero s) ∨
  (0 < V < overflow ∧ ∃ m e, r = S754_finite s m e ∧ bounded prec emax m e = true ∧ mag m e = V) ∨
  (overflow <= V ∧ r = S754_infinity s).

(** The second half of [binary_round_aux]: the mantissa is renormalised
    after rounding and the exponent is checked for overflow. *)
Definition finish (sx : bool) (m1 e1 : Z) : number :=
  let '(mrs, e2) := shr_fexp prec emax m1 e1 loc_Exact in
  match shr_m mrs with
  | Z0 => S754_zero sx
  | Zpos m => if (e2 <=? emax - prec) then S754_finite sx m e2 else S754_infinity sx
  | Zneg _ => S754_nan
  end.

(** Zeros and finite numbers in canonical form: the values a JavaScript
    number takes when it is neither NaN nor an infinity. *)
Definition is_finite (x : number) : bool :=
  match x with
  | S754_zero _ => true
  | S754_finite _ m e => bounded prec emax m e
  | _ => false
  end.

(** Finite numbers whose value is an integer. *)
Definition is_integer (x : number) : bool :=
  match x with
  | S754_zero _ => true
  | S754_finite _ m e => bounded prec emax m e && ((0 <=? e) || (Z.pos m mod 2 ^ (- e) =? 0))
  | _ => false
  end.

(** The accumulator [current] after [n] more calls of [updateCounter],
    starting from the value [c]. *)
Fixpoint advance (inc c : number) (n : nat) : number :=
  match n with
  | O => c
  | S n' => advance inc (add c inc) n'
  end.

(** The accumulator after [n] calls, from its initial value 0. *)
Definition accumulate (inc : number) (n : nat) : number := advance inc (of_Z 0) n.

(** Positive finite numbers in canonical form. *)
Definition is_pos_finite (x : number) : bool :=
  match x with
  | S754_finite false m e => bounded prec emax m e
  | _ => false
  end.

End NumberValues.

(** ** Observations on the script's state *)

(** The text an element shows. *)
Definition displayed (c : elem) (w : world) : option text :=
  innerText <$> w_dom w !! c.

(** The element [c] shows the number [x]. *)
Definition shows (c : elem) (x : number) (w : world) : Prop :=
  displayed c w = Some (Shown x).

(** No pending timer callback belongs to the counter [c]. *)
Definition idle (c : elem) (w : world) : Prop :=
  Forall (λ k, counter k ≠ c) (w_timers w).

(** The number an animation towards [T] shows after its [i]-th call of
    [updateCounter], when the comparison first fails at call [N]. *)
Definition stage_value (T inc : number) (N i : nat) : number :=
  if (i <? N)%nat then ceil (accumulate inc i) else T.

(** The element [e] carries the class [cls]. *)
Definition has_class (cls : string) (e : elem) (w : world) : bool :=
  match w_dom w !! e with
  | Some el => bool_decide (cls ∈ classList el)
  | None => false
  end.

(** The number of clicks among the events. *)
Fixpoint clicks (evs : list event) : nat :=
  match evs with
  | [] => 0
  | Click :: evs' => S (clicks evs')
  | _ :: evs' => clicks evs'
  end.

(** Every notification of the counter watcher carries at most one entry
    for each target. *)
Definition distinct_targets (ev : event) : Prop :=
  match ev with
  | CounterObserverNotify es => NoDup (entry_target <$> es)
  | _ => True
  end.

(** How often the animation of [c] was started. *)
Definition started (c : elem) (w : world) : nat :=
  length (filter (λ x, x = c) (w_started w)).

(** No animation was started for a target that is still observed, and
    none was started twice. *)
Definition started_once (w : world) : Prop :=
  ∀ c, (started c w ≤ 1)%nat ∧ (c ∈ w_counterObserver w → started c w = 0%nat).

(** A reading of decimal literals, used in the examples: an optional
    minus sign followed by decimal digits; every other string reads as
    NaN here. *)
Fixpoint decimal_digits (s : string) (acc : Z) : option Z :=
  match s with
  | EmptyString => Some acc
  | String a s' =>
      let n := Z.of_nat (Ascii.nat_of_ascii a) in
      if ((48 <=? n) && (n <=? 57))%Z then decimal_digits s' (10 * acc + (n - 48))%Z else None
  end.

Definition decimal_literal (s : string) : number :=
  match s with
  | String "-"%char s' =>
      match decimal_digits s' 0 with
      | Some z => if (z =? 0)%Z then S754_zero true else of_Z (- z)
      | None => S754_nan
      end
  | _ =>
      match decimal_digits s 0 with
      | Some z => of_Z z
      | None => S754_nan
      end
  end.

#[global] Instance number_eq_dec : EqDecision spec_float.
Proof. solve_decision. Defined.

#[global] Instance entry_eq_dec : EqDecision entry.
Proof. solve_decision. Defined.

(** A fault deferred to the first click: initialisation completes, and
    the click handler then faults. *)
Definition deferred_fault (d : dom) : Prop :=
  ∃ w, init d = Normal w ∧ click w = TypeError w.

(** The number of animations of [c] an event starts: the intersecting
    entries for [c] that a notification of the counter watcher holds. *)
Definition starts_in (c : elem) (ev : event) : nat :=
  match ev with
  | CounterObserverNotify es =>
      length (filter (λ en, isIntersecting en = true ∧ entry_target en = c) es)
  | _ => 0%nat
  end.

(** On the page [d] no animation is ever started twice, whatever the
    watchers deliver. *)
Definition always_at_most_once (StringToNumber : string → number) (d : dom) : Prop :=
  ∀ w0 evs w' c, init d = Normal w0 ∨ init d = TypeError w0 →
    run StringToNumber w0 evs w' → (started c w' ≤ 1)%nat.

(** The number of pending timer callbacks of the counter [c]. *)
Definition pending (c : elem) (w : world) : nat :=
  length (filter (λ k, counter k = c) (w_timers w)).

(** A notification of the reveal watcher or a click: the events whose
    handlers do not run [updateCounter]. *)
Definition leaves_text (ev : event) : bool :=
  match ev with
  | ObserverNotify _ | Click => true
  | _ => false
  end.

(** The events that do not change class lists. *)
Definition leaves_classes (ev : event) : bool :=
  match ev with
  | CounterObserverNotify _ | TimerFires => true
  | _ => false
  end.

(** No counter has more pending callbacks than animations started. *)
Definition pending_bounded (w : world) : Prop := ∀ c, (pending c w ≤ started c w)%nat.

(** ** A sample page *)

(** A page with the toggle control, the menu container, one element of
    the reveal group and five counters: targets 100, 3, 0 and -5, and
    one without the target attribute. *)
Definition sample_page : list element :=
  [ Element ["navbar-toggler"] None (Markup "menu");
    Element ["navbar-nav"] None (Markup "nav");
    Element ["scroll-animate"] None (Markup "hello");
    Element ["js-counter"] (Some "100") (Markup "0");
    Element ["js-counter"] (Some "3") (Markup "0");
    Element ["js-counter"] (Some "0") (Markup "0");
    Element ["js-counter"] (Some "-5") (Markup "0");
    Element ["js-counter"] None (Markup "0") ].

(** The state of the script after initialisation on the sample page. *)
Definition sample_world : world :=
  World sample_page {[2]} (list_to_set [3; 4; 5; 6; 7]) [] (Some (Some 1)) [].

(** * Properties *)

(** ** Rounding of binary64 numbers *)

Section NumberTheory.

Local Open Scope Z_scope.

Lemma emin_eq : emin prec emax = -1074.
Proof. reflexivity. Qed.

Lemma fexp_eq e : fexp prec emax e = Z.max (e - 53) (-1074).
Proof. reflexivity. Qed.

Lemma digits2_pos_bounds (m : positive) :
  2 ^ (Z.pos (digits2_pos m) - 1) <= Z.pos m < 2 ^ Z.pos (digits2_pos m).
Proof.
  induction m as [m IH | m IH |]; cbn [digits2_pos].
  - rewrite Pos2Z.inj_succ.
    replace (Z.succ (Z.pos (digits2_pos m)) - 1) with (Z.succ (Z.pos (digits2_pos m) - 1)) by lia.
    rewrite !Z.pow_succ_r by lia. lia.
  - rewrite Pos2Z.inj_succ.
    replace (Z.succ (Z.pos (digits2_pos m)) - 1) with (Z.succ (Z.pos (digits2_pos m) - 1)) by lia.
    rewrite !Z.pow_succ_r by lia. lia.
  - cbn. lia.
Qed.

Lemma Zdigits2_nonneg z : 0 <= Zdigits2 z.
Proof. destruct z; cbn; lia. Qed.

Lemma Zdigits2_bounds z :
  0 < z -> 2 ^ (Zdigits2 z - 1) <= z < 2 ^ Zdigits2 z.
Proof.
  destruct z as [|p|p]; intros Hz; [discriminate Hz | | discriminate Hz].
  apply digits2_pos_bounds.
Qed.

Lemma Zdigits2_unique z d :
  2 ^ (d - 1) <= z < 2 ^ d -> 0 < z -> Zdigits2 z = d.
Proof.
  intros [Hl Hu] Hz.
  pose proof (Zdigits2_bounds z Hz) as [Hl' Hu'].
  pose proof (Zdigits2_nonneg z).
  assert (0 < d).
  { destruct (Z_lt_le_dec 0 d); [done|]. 
    assert (2 ^ d <= 2 ^ 0) by (destruct (Z_lt_le_dec d 0); [rewrite Z.pow_neg_r by lia; cbn; lia| apply Z.pow_le_mono_r; lia]).
    cbn in *; lia. }
  destruct (Z_lt_le_dec (Zdigits2 z) d).
  - assert (2 ^ Zdigits2 z <= 2 ^ (d - 1)) by (apply Z.pow_le_mono_r; lia). lia.
  - destruct (Z_lt_le_dec d (Zdigits2 z)); [|lia].
    assert (2 ^ d <= 2 ^ (Zdigits2 z - 1)) by (apply Z.pow_le_mono_r; lia). lia.
Qed.

Lemma Zdigits2_shift z k :
  0 < z -> 0 <= k -> Zdigits2 (z * 2 ^ k) = Zdigits2 z + k.
Proof.
  intros Hz Hk.
  pose proof (Zdigits2_bounds z Hz) as [Hl Hu].
  pose proof (Zdigits2_nonneg z).
  assert (0 < Zdigits2 z) by (destruct z; cbn in *; lia).
  assert (0 < 2 ^ k) by (apply Z.pow_pos_nonneg; lia).
  apply Zdigits2_unique; [|nia].
  replace (Zdigits2 z + k - 1) with ((Zdigits2 z - 1) + k) by lia.
  rewrite !Z.pow_add_r by lia. nia.
Qed.

(** *** Right shifts *)

Lemma iter_pos_nat {A} (f : A -> A) p x :
  SpecFloat.iter_pos f p x = Nat.iter (Pos.to_nat p) f x.
Proof.
  revert x. induction p as [p IH | p IH |]; intros x; cbn [SpecFloat.iter_pos].
  - rewrite !IH. rewrite Pos2Nat.inj_xI.
    replace (S (2 * Pos.to_nat p))%nat with (Pos.to_nat p + (Pos.to_nat p + 1))%nat by lia.
    rewrite !Nat.iter_add. reflexivity.
  - rewrite !IH. rewrite Pos2Nat.inj_xO.
    replace (2 * Pos.to_nat p)%nat with (Pos.to_nat p + Pos.to_nat p)%nat by lia.
    rewrite !Nat.iter_add. reflexivity.
  - reflexivity.
Qed.

Lemma shr_1_m mrs : 0 <= shr_m mrs -> shr_m (shr_1 mrs) = shr_m mrs / 2.
Proof.
  destruct mrs as [m r s]. cbn [shr_m shr_1]. intros Hm.
  destruct m as [|[p|p|]|p]; cbn [shr_m]; try lia.
  - reflexivity.
  - rewrite (Pos2Z.inj_xI p). Z.div_mod_to_equations. lia.
  - rewrite (Pos2Z.inj_xO p). Z.div_mod_to_equations. lia.
  - reflexivity.
Qed.

Lemma shr_iter_m n mrs :
  0 <= shr_m mrs -> shr_m (Nat.iter n shr_1 mrs) = shr_m mrs / 2 ^ Z.of_nat n.
Proof.
  intros Hm. induction n as [|n IH].
  - cbn. now rewrite Z.div_1_r.
  - rewrite Nat.iter_succ, shr_1_m.
    + rewrite IH. rewrite Nat2Z.inj_succ, Z.pow_succ_r by lia.
      rewrite Z.div_div by (try apply Z.pow_pos_nonneg; lia).
      f_equal. lia.
    + rewrite IH. apply Z.div_pos; [lia | apply Z.pow_pos_nonneg; lia].
Qed.

Lemma shr_1_exact m :
  0 <= m -> m mod 2 = 0 -> shr_1 (Build_shr_record m false false) = Build_shr_record (m / 2) false false.
Proof.
  intros Hm Hmod.
  destruct m as [|[p|p|]|p]; try lia; cbn [shr_1 orb].
  - reflexivity.
  - exfalso. rewrite (Pos2Z.inj_xI p) in Hmod. Z.div_mod_to_equations. lia.
  - f_equal. rewrite (Pos2Z.inj_xO p). Z.div_mod_to_equations. lia.
  - discriminate.
Qed.

Lemma shr_iter_exact n m :
  0 <= m -> m mod 2 ^ Z.of_nat n = 0 ->
  Nat.iter n shr_1 (Build_shr_record m false false)
  = Build_shr_record (m / 2 ^ Z.of_nat n) false false.
Proof.
  revert m. induction n as [|n IH]; intros m Hm Hmod.
  - cbn. now rewrite Z.div_1_r.
  - rewrite Nat.iter_succ_r.
    rewrite Nat2Z.inj_succ, Z.pow_succ_r in * by lia.
    assert (Hp : 0 < 2 ^ Z.of_nat n) by (apply Z.pow_pos_nonneg; lia).
    apply Z.mod_divide in Hmod; [|lia]. destruct Hmod as [c Hc].
    assert (Hm2 : m / 2 = c * 2 ^ Z.of_nat n).
    { subst m. replace (c * (2 * 2 ^ Z.of_nat n)) with (c * 2 ^ Z.of_nat n * 2) by ring.
      apply Z.div_mul. lia. }
    rewrite shr_1_exact; [| lia |].
    + rewrite Hm2, IH.
      * f_equal. rewrite Z.div_mul by lia.
        subst m. symmetry. apply Z.div_mul. lia.
      * nia.
      * apply Z.mod_mul. lia.
    + subst m. replace (c * (2 * 2 ^ Z.of_nat n)) with (c * 2 ^ Z.of_nat n * 2) by ring.
      apply Z.mod_mul. lia.
Qed.

Lemma pow2_pos k : 0 <= k -> 0 < 2 ^ k.
Proof. intros. apply Z.pow_pos_nonneg; lia. Qed.

Lemma pow2_add a b : 0 <= a -> 0 <= b -> 2 ^ (a + b) = 2 ^ a * 2 ^ b.
Proof. intros. apply Z.pow_add_r; lia. Qed.

Lemma pow2_le a b : 0 <= a <= b -> 2 ^ a <= 2 ^ b.
Proof. intros. apply Z.pow_le_mono_r; lia. Qed.

Lemma pow2_lt a b : 0 <= a < b -> 2 ^ a < 2 ^ b.
Proof. intros. apply Z.pow_lt_mono_r; lia. Qed.

Lemma bounded_iff m e :
  bounded prec emax m e = true <->
  Z.max (Z.pos (digits2_pos m) + e - 53) (-1074) = e /\ e <= 971.
Proof.
  unfold bounded, canonical_mantissa. rewrite fexp_eq.
  rewrite andb_true_iff, Z.eqb_eq, Z.leb_le.
  change (emax - prec) with 971. reflexivity.
Qed.

Lemma binary_round_aux_finish sx mx ex lx :
  binary_round_aux prec emax sx mx ex lx =
  finish sx (round_nearest_even (shr_m (fst (shr_fexp prec emax mx ex lx)))
                                (loc_of_shr_record (fst (shr_fexp prec emax mx ex lx))))
         (snd (shr_fexp prec emax mx ex lx)).
Proof.
  unfold binary_round_aux, finish.
  destruct (shr_fexp prec emax mx ex lx) as [mrs e']. reflexivity.
Qed.

Lemma shr_fexp_spec m e l :
  0 <= m -> e <= fexp prec emax (Zdigits2 m + e) ->
  let n := fexp prec emax (Zdigits2 m + e) - e in
  exists mrs, shr_fexp prec emax m e l = (mrs, e + n) /\
    shr_m mrs = m / 2 ^ n /\
    (l = loc_Exact -> m mod 2 ^ n = 0 -> loc_of_shr_record mrs = loc_Exact).
Proof.
  intros Hm Hn n. unfold shr_fexp. fold n.
  assert (Hsm : forall l, shr_m (shr_record_of_loc m l) = m) by (intros [|[]]; reflexivity).
  destruct n as [|p|p] eqn:En; try lia.
  - exists (shr_record_of_loc m l). cbn [shr]. split; [f_equal; lia|].
    split; [rewrite Hsm, Z.div_1_r; reflexivity|].
    intros -> _. reflexivity.
  - cbn [shr]. rewrite iter_pos_nat.
    eexists. split; [reflexivity|]. split.
    + rewrite shr_iter_m by (rewrite Hsm; lia). rewrite Hsm.
      rewrite positive_nat_Z. reflexivity.
    + intros -> Hmod. cbn [shr_record_of_loc].
      rewrite shr_iter_exact; [reflexivity | lia | rewrite positive_nat_Z; exact Hmod].
Qed.

Lemma round_nearest_even_bounds m l : m <= round_nearest_even m l <= m + 1.
Proof. destruct l as [|[]]; cbn [round_nearest_even]; try lia. destruct (Z.even m); lia. Qed.

Lemma overflow_eq : overflow = 2 ^ 53 * 2 ^ 2045.
Proof. unfold overflow. rewrite <- Z.pow_add_r by lia. reflexivity. Qed.

Lemma overflow_eq' : overflow = 2 ^ 52 * 2 ^ 2046.
Proof. unfold overflow. rewrite <- Z.pow_add_r by lia. reflexivity. Qed.

Lemma mag_pos m e : -1074 <= e -> 0 < mag m e.
Proof. intros. unfold mag. pose proof (pow2_pos (e + 1074)). nia. Qed.

(** Magnitude of a mantissa below 2^53 with a small enough exponent. *)
Lemma below_overflow m e :
  0 <= m < 2 ^ 53 -> -1074 <= e <= 971 -> m * 2 ^ (e + 1074) < overflow.
Proof.
  intros Hm He. rewrite overflow_eq.
  assert (2 ^ (e + 1074) <= 2 ^ 2045) by (apply pow2_le; lia).
  pose proof (pow2_pos (e + 1074)).
  apply Z.le_lt_trans with (m * 2 ^ 2045).
  - apply Z.mul_le_mono_nonneg_l; lia.
  - apply Z.mul_lt_mono_pos_r; [apply pow2_pos|]; lia.
Qed.

Lemma above_overflow m e :
  2 ^ 52 <= m -> 971 < e -> overflow <= m * 2 ^ (e + 1074).
Proof.
  intros Hm He. rewrite overflow_eq'.
  assert (2 ^ 2046 <= 2 ^ (e + 1074)) by (apply pow2_le; lia).
  pose proof (pow2_pos 2046).
  apply Z.le_trans with (2 ^ 52 * 2 ^ (e + 1074)).
  - apply Z.mul_le_mono_nonneg_l; lia.
  - apply Z.mul_le_mono_nonneg_r; lia.
Qed.

Lemma finish_repr sx m1 e1 :
  0 <= m1 <= 2 ^ 53 -> -1074 <= e1 -> (e1 = -1074 \/ 2 ^ 52 <= m1) ->
  repr sx (m1 * 2 ^ (e1 + 1074)) (finish sx m1 e1).
Proof.
  intros Hm He Hc.
  destruct (Z.eq_dec m1 0) as [-> | Hnz].
  { left. split; [lia|]. unfold finish, shr_fexp. rewrite fexp_eq.
    cbn [Zdigits2 shr_record_of_loc].
    destruct (Z.max (0 + e1 - 53) (-1074) - e1) as [|p|p] eqn:En; try lia; reflexivity. }
  assert (Hpos : 0 < m1) by lia.
  pose proof (Zdigits2_bounds m1 Hpos) as [Hdl Hdu].
  pose proof (Zdigits2_nonneg m1) as Hd0.
  destruct (Z.eq_dec m1 (2 ^ 53)) as [-> | Hne].
  - (* the rounding carried into a 54th bit *)
    assert (Hn : fexp prec emax (Zdigits2 (2 ^ 53) + e1) - e1 = 1).
    { rewrite fexp_eq. change (Zdigits2 (2 ^ 53)) with 54. lia. }
    unfold finish, shr_fexp. rewrite Hn. cbn [shr_record_of_loc shr SpecFloat.iter_pos].
    change (shr_m (shr_1 {| shr_m := 2 ^ 53; shr_r := false; shr_s := false |}))
      with (Z.pos (Z.to_pos (2 ^ 52))).
    change (emax - prec) with 971.
    assert (Hv : Z.pos (Z.to_pos (2 ^ 52)) * 2 ^ (e1 + 1 + 1074) = 2 ^ 53 * 2 ^ (e1 + 1074)).
    { replace (e1 + 1 + 1074) with (1 + (e1 + 1074)) by lia.
      rewrite pow2_add by lia. change (Z.pos (Z.to_pos (2 ^ 52))) with (2 ^ 52).
      change (2 ^ 53) with (2 ^ 52 * 2 ^ 1). ring. }
    destruct (Z.leb_spec (e1 + 1) 971) as [Hle | Hgt].
    + right; left. split.
      * rewrite <- Hv. split.
        -- pose proof (pow2_pos (e1 + 1 + 1074)). nia.
        -- apply below_overflow; [|lia]. change (Z.pos (Z.to_pos (2 ^ 52))) with (2 ^ 52).
           split; [|apply pow2_lt]; lia.
      * eexists _, _. split; [reflexivity|]. split.
        -- apply bounded_iff.
           change (Z.pos (digits2_pos (Z.to_pos (2 ^ 52)))) with 53. lia.
        -- exact Hv.
    + right; right. split; [|reflexivity].
      rewrite <- Hv. apply above_overflow; [|lia].
      change (Z.pos (Z.to_pos (2 ^ 52))) with (2 ^ 52). lia.
  - assert (Hlt : m1 < 2 ^ 53) by lia.
    assert (Hd53 : Zdigits2 m1 <= 53).
    { destruct (Z_lt_le_dec 53 (Zdigits2 m1)); [|lia].
      assert (2 ^ 53 <= 2 ^ (Zdigits2 m1 - 1)) by (apply pow2_le; lia). lia. }
    assert (Hn : fexp prec emax (Zdigits2 m1 + e1) - e1 = 0).
    { rewrite fexp_eq. destruct Hc as [-> | Hc]; [lia|].
      assert (53 <= Zdigits2 m1).
      { destruct (Z_lt_le_dec (Zdigits2 m1) 53); [|lia].
        assert (2 ^ Zdigits2 m1 <= 2 ^ 52) by (apply pow2_le; lia). lia. }
      lia. }
    unfold finish, shr_fexp. rewrite Hn. cbn [shr_record_of_loc shr shr_m].
    destruct m1 as [|p|p]; try lia.
    change (emax - prec) with 971.
    destruct (Z.leb_spec e1 971) as [Hle | Hgt].
    + right; left. split.
      * split; [apply mag_pos; lia | apply below_overflow; lia].
      * eexists _, _. split; [reflexivity|]. split; [|reflexivity].
        apply bounded_iff. rewrite fexp_eq in Hn. cbn [Zdigits2] in Hn. lia.
    + right; right. split; [|reflexivity].
      apply above_overflow; [|lia]. destruct Hc; lia.
Qed.

Lemma ulp_pos X : 0 < ulp X.
Proof. unfold ulp. apply pow2_pos. lia. Qed.

Lemma ulp_scaled mx ex :
  0 <= mx -> -1074 <= ex -> ex <= fexp prec emax (Zdigits2 mx + ex) ->
  ulp (mx * 2 ^ (ex + 1074)) = 2 ^ (fexp prec emax (Zdigits2 mx + ex) + 1074).
Proof.
  intros Hm He Hn. unfold ulp. f_equal. rewrite fexp_eq in *.
  destruct (Z.eq_dec mx 0) as [-> | Hnz].
  - rewrite Z.mul_0_l. change (Zdigits2 0) with 0 in *. lia.
  - rewrite Zdigits2_shift by lia. lia.
Qed.

Lemma round_spec sx mx ex lx :
  0 <= mx -> -1074 <= ex -> ex <= fexp prec emax (Zdigits2 mx + ex) ->
  let X := mx * 2 ^ (ex + 1074) in
  exists V, (X / ulp X) * ulp X <= V <= (X / ulp X) * ulp X + ulp X /\
    (lx = loc_Exact -> X mod ulp X = 0 -> V = X) /\
    repr sx V (binary_round_aux prec emax sx mx ex lx).
Proof.
  intros Hm He Hn X.
  pose proof (ulp_scaled mx ex Hm He Hn) as Hulp. fold X in Hulp.
  set (e' := fexp prec emax (Zdigits2 mx + ex)) in *.
  set (n := e' - ex).
  assert (Hn0 : 0 <= n) by (unfold n; lia).
  assert (He' : -1074 <= e') by lia.
  assert (Hu : ulp X = 2 ^ n * 2 ^ (ex + 1074)).
  { rewrite Hulp, <- pow2_add by lia. f_equal. unfold n. lia. }
  pose proof (pow2_pos n Hn0) as Hpn.
  pose proof (pow2_pos (ex + 1074) ltac:(lia)) as Hpe.
  assert (Hq : X / ulp X = mx / 2 ^ n).
  { rewrite Hu. unfold X. apply Z.div_mul_cancel_r; lia. }
  destruct (shr_fexp_spec mx ex lx Hm Hn) as (mrs & Hshr & Hsm & Hloc).
  fold e' in Hshr, Hsm, Hloc. fold n in Hshr, Hsm, Hloc.
  rewrite binary_round_aux_finish, Hshr. cbn [fst snd].
  replace (ex + n) with e' by (unfold n; lia).
  set (m1 := round_nearest_even (shr_m mrs) (loc_of_shr_record mrs)).
  pose proof (round_nearest_even_bounds (shr_m mrs) (loc_of_shr_record mrs)) as Hm1.
  fold m1 in Hm1. rewrite Hsm in Hm1.
  assert (Hm'0 : 0 <= mx / 2 ^ n) by (apply Z.div_pos; lia).
  assert (Hm'u : mx / 2 ^ n < 2 ^ 53).
  { apply Z.div_lt_upper_bound; [lia|].
    destruct (Z.eq_dec mx 0) as [-> | Hnz]; [pose proof (pow2_pos 53); nia|].
    pose proof (Zdigits2_bounds mx ltac:(lia)) as [_ Hdu].
    assert (Zdigits2 mx <= n + 53) by (unfold n, e'; rewrite fexp_eq; lia).
    pose proof (Zdigits2_nonneg mx).
    assert (2 ^ Zdigits2 mx <= 2 ^ (n + 53)) by (apply pow2_le; lia).
    rewrite pow2_add in * by lia. lia. }
  assert (Hm'l : e' = -1074 \/ 2 ^ 52 <= mx / 2 ^ n).
  { destruct (Z.eq_dec e' (-1074)) as [|Hne]; [left; assumption | right].
    assert (Hnz : mx <> 0).
    { intros ->. unfold e' in *. rewrite fexp_eq in *. cbn [Zdigits2] in *. lia. }
    pose proof (Zdigits2_bounds mx ltac:(lia)) as [Hdl _].
    assert (Hd : Zdigits2 mx - 1 = n + 52) by (unfold n, e' in *; rewrite fexp_eq in *; lia).
    apply Z.div_le_lower_bound; [lia|].
    rewrite Hd, pow2_add in Hdl by lia. lia. }
  exists (m1 * 2 ^ (e' + 1074)). split; [|split].
  - rewrite Hq, Hulp. nia.
  - intros -> Hmod.
    assert (Hmm : mx mod 2 ^ n = 0).
    { rewrite Hu in Hmod. unfold X in Hmod.
      rewrite Z.mul_mod_distr_r in Hmod by lia. nia. }
    specialize (Hloc eq_refl Hmm). unfold m1. rewrite Hloc. cbn [round_nearest_even].
    rewrite Hsm, <- Hulp, <- Hq.
    pose proof (Z.div_mod X (ulp X) ltac:(pose proof (ulp_pos X); lia)). lia.
  - apply finish_repr; [lia | lia |]. destruct Hm'l; [left | right]; lia.
Qed.

Lemma bounded_digits m e :
  bounded prec emax m e = true ->
  -1074 <= e <= 971 /\ Z.pos m < 2 ^ 53 /\ (e = -1074 \/ 2 ^ 52 <= Z.pos m).
Proof.
  intros [Hc He]%bounded_iff.
  pose proof (digits2_pos_bounds m) as [Hl Hu].
  split; [lia|]. split.
  - assert (2 ^ Z.pos (digits2_pos m) <= 2 ^ 53) by (apply pow2_le; lia). lia.
  - destruct (Z.eq_dec e (-1074)); [left; assumption | right].
    replace (Z.pos (digits2_pos m) - 1) with 52 in Hl by lia. exact Hl.
Qed.

Lemma mag_lt_exp m1 e1 m2 e2 :
  bounded prec emax m1 e1 = true -> bounded prec emax m2 e2 = true ->
  e1 < e2 -> mag m1 e1 < mag m2 e2.
Proof.
  intros (He1 & Hm1 & _)%bounded_digits (He2 & _ & Hm2)%bounded_digits Hlt.
  destruct Hm2 as [-> | Hm2]; [lia|].
  unfold mag.
  pose proof (pow2_pos (e1 + 1074) ltac:(lia)) as Hp.
  assert (2 * 2 ^ (e1 + 1074) <= 2 ^ (e2 + 1074)).
  { replace (2 * 2 ^ (e1 + 1074)) with (2 ^ (1 + (e1 + 1074))) by (rewrite pow2_add by lia; reflexivity).
    apply pow2_le. lia. }
  apply Z.lt_le_trans with (2 ^ 53 * 2 ^ (e1 + 1074)).
  - apply Z.mul_lt_mono_pos_r; lia.
  - apply Z.le_trans with (2 ^ 52 * 2 ^ (e2 + 1074)).
    + change (2 ^ 53) with (2 ^ 52 * 2). pose proof (pow2_pos 52). nia.
    + apply Z.mul_le_mono_nonneg_r; [|lia]. pose proof (pow2_pos (e2 + 1074)). lia.
Qed.

Lemma mag_compare m1 e1 m2 e2 :
  bounded prec emax m1 e1 = true -> bounded prec emax m2 e2 = true ->
  (mag m1 e1 ?= mag m2 e2) =
  match e1 ?= e2 with
  | Lt => Lt
  | Gt => Gt
  | Eq => Pos.compare_cont Eq m1 m2
  end.
Proof.
  intros H1 H2. destruct (Z.compare_spec e1 e2) as [-> | Hlt | Hgt].
  - unfold mag. pose proof (bounded_digits _ _ H2) as (He & _).
    rewrite <- Zmult_compare_compat_r by (pose proof (pow2_pos (e2 + 1074)); lia). reflexivity.
  - apply Z.compare_lt_iff. now apply mag_lt_exp.
  - apply Z.compare_gt_iff. now apply mag_lt_exp.
Qed.

(** On finite numbers the comparison of the language is the comparison
    of the values. *)
Lemma compare_nval x y :
  is_finite x = true -> is_finite y = true ->
  SFcompare x y = Some (nval x ?= nval y).
Proof.
  destruct x as [sx | sx | | sx mx ex], y as [sy | sy | | sy my ey];
    try discriminate; cbn [is_finite]; intros Hx Hy; cbn [SFcompare nval].
  - reflexivity.
  - pose proof (bounded_digits _ _ Hy) as (He & _).
    pose proof (mag_pos my ey ltac:(lia)).
    f_equal. symmetry. destruct sy; cbn [cond_Zopp];
      [apply Z.compare_gt_iff | apply Z.compare_lt_iff]; lia.
  - pose proof (bounded_digits _ _ Hx) as (He & _).
    pose proof (mag_pos mx ex ltac:(lia)).
    f_equal. symmetry. destruct sx; cbn [cond_Zopp];
      [apply Z.compare_lt_iff | apply Z.compare_gt_iff]; lia.
  - pose proof (bounded_digits _ _ Hx) as (Hex & _).
    pose proof (bounded_digits _ _ Hy) as (Hey & _).
    pose proof (mag_pos mx ex ltac:(lia)).
    pose proof (mag_pos my ey ltac:(lia)).
    f_equal. destruct sx, sy; cbn [cond_Zopp].
    + rewrite Z.compare_opp, (Z.compare_antisym (mag mx ex) (mag my ey)).
      rewrite (mag_compare mx ex my ey Hx Hy).
      destruct (ex ?= ey); reflexivity.
    + symmetry. apply Z.compare_lt_iff. lia.
    + symmetry. apply Z.compare_gt_iff. lia.
    + rewrite (mag_compare mx ex my ey Hx Hy). reflexivity.
Qed.

Lemma lt_nval x y :
  is_finite x = true -> is_finite y = true -> lt x y = (nval x <? nval y).
Proof.
  intros Hx Hy. unfold lt, SFltb. rewrite compare_nval by assumption.
  unfold Z.ltb. destruct (nval x ?= nval y); reflexivity.
Qed.

Lemma le_nval x y :
  is_finite x = true -> is_finite y = true -> le x y = (nval x <=? nval y).
Proof.
  intros Hx Hy. unfold le, SFleb. rewrite compare_nval by assumption.
  unfold Z.leb. destruct (nval x ?= nval y); reflexivity.
Qed.

(** *** Rounding an integer mantissa: [binary_round] *)

Lemma iter_xO m d : Z.pos (Pos.iter xO m d) = Z.pos m * 2 ^ Z.pos d.
Proof.
  induction d as [|d IH] using Pos.peano_ind.
  - cbn [Pos.iter]. rewrite (Pos2Z.inj_xO m). change (2 ^ 1) with 2. lia.
  - rewrite Pos.iter_succ, (Pos2Z.inj_xO (Pos.iter xO m d)), IH, Pos2Z.inj_succ.
    rewrite Z.pow_succ_r by lia. ring.
Qed.

Lemma binary_round_spec sx m e :
  -1074 <= e ->
  let X := mag m e in
  exists V, (X / ulp X) * ulp X <= V <= (X / ulp X) * ulp X + ulp X /\
    (X mod ulp X = 0 -> V = X) /\
    repr sx V (binary_round prec emax sx m e).
Proof.
  intros He X. unfold binary_round, shl_align.
  set (e' := fexp prec emax (Z.pos (digits2_pos m) + e)).
  assert (He' : -1074 <= e') by (unfold e'; rewrite fexp_eq; lia).
  destruct (e' - e) as [|d|d] eqn:Hd.
  - destruct (round_spec sx (Z.pos m) e loc_Exact) as (V & Hs & Hex & Hr);
      [lia | lia | cbn [Zdigits2]; fold e'; lia |].
    exists V. fold (mag m e) in Hs, Hex. fold X in Hs, Hex. auto.
  - destruct (round_spec sx (Z.pos m) e loc_Exact) as (V & Hs & Hex & Hr);
      [lia | lia | cbn [Zdigits2]; fold e'; lia |].
    exists V. fold (mag m e) in Hs, Hex. fold X in Hs, Hex. auto.
  - assert (HX : Z.pos (Pos.iter xO m d) * 2 ^ (e' + 1074) = X).
    { rewrite iter_xO. unfold X, mag. replace (e + 1074) with (Z.pos d + (e' + 1074)) by lia.
      rewrite (pow2_add (Z.pos d) (e' + 1074)) by lia. ring. }
    destruct (round_spec sx (Z.pos (Pos.iter xO m d)) e' loc_Exact) as (V & Hs & Hex & Hr);
      [lia | lia | |].
    + rewrite iter_xO, Zdigits2_shift by lia. cbn [Zdigits2].
      replace (Z.pos (digits2_pos m) + Z.pos d + e') with (Z.pos (digits2_pos m) + e) by lia.
      fold e'. lia.
    + exists V. rewrite HX in Hs, Hex. auto.
Qed.

(** *** Addition of positive numbers *)

Lemma shl_align_mag m e e' :
  -1074 <= e' <= e -> mag (fst (shl_align m e e')) e' = mag m e.
Proof.
  intros He. unfold shl_align.
  destruct (e' - e) as [|d|d] eqn:Hd; cbn [fst]; try lia.
  - replace e' with e by lia. reflexivity.
  - unfold mag. rewrite iter_xO.
    replace (e + 1074) with (Z.pos d + (e' + 1074)) by lia.
    rewrite (pow2_add (Z.pos d) (e' + 1074)) by lia. ring.
Qed.

Lemma mag_add a b e : mag (a + b) e = mag a e + mag b e.
Proof. unfold mag. rewrite Pos2Z.inj_add. ring. Qed.

Lemma add_pos_spec mx ex my ey :
  bounded prec emax mx ex = true -> bounded prec emax my ey = true ->
  let N := mag mx ex + mag my ey in
  exists V, (N / ulp N) * ulp N <= V <= (N / ulp N) * ulp N + ulp N /\
    repr false V (add (S754_finite false mx ex) (S754_finite false my ey)).
Proof.
  intros (Hex & _)%bounded_digits (Hey & _)%bounded_digits N.
  unfold add. cbn [SFadd cond_Zopp].
  set (ez := Z.min ex ey).
  set (a := fst (shl_align mx ex ez)). set (b := fst (shl_align my ey ez)).
  change (Z.pos a + Z.pos b) with (Z.pos (a + b)). cbn [binary_normalize].
  destruct (binary_round_spec false (a + b) ez ltac:(unfold ez; lia)) as (V & Hs & _ & Hr).
  assert (HN : mag (a + b) ez = N).
  { rewrite mag_add. unfold a, b, N. rewrite !shl_align_mag by (unfold ez; lia). reflexivity. }
  rewrite HN in Hs. exists V. auto.
Qed.

Lemma add_zero_l s y m e : y = S754_finite false m e -> add (S754_zero s) y = y.
Proof. intros ->. reflexivity. Qed.

(** *** Division by [totalSteps] *)

Lemma totalSteps_eq : totalSteps = S754_finite false 7036874417766400 (-46).
Proof. vm_compute. reflexivity. Qed.

Lemma div_core mT eT :
  bounded prec emax mT eT = true ->
  let e' := fexp prec emax (Z.pos (digits2_pos mT) + eT - 7) in
  let m' := Z.pos mT * 2 ^ (eT + 46 - e') in
  SFdiv_core_binary prec emax (Z.pos mT) eT 7036874417766400 (-46) =
  (m' / 7036874417766400, e', new_location 7036874417766400 (m' mod 7036874417766400)).
Proof.
  intros Hb e' m'.
  pose proof (bounded_digits _ _ Hb) as (He & Hm & _).
  pose proof (proj1 (bounded_iff _ _) Hb) as [Hc _].
  unfold SFdiv_core_binary.
  change (Zdigits2 7036874417766400) with 53. cbn [Zdigits2].
  replace (Z.pos (digits2_pos mT) + eT - (53 + -46)) with (Z.pos (digits2_pos mT) + eT - 7) by lia.
  fold e'.
  assert (He' : e' <= eT) by (unfold e'; rewrite fexp_eq; lia).
  replace (Z.min e' (eT - -46)) with e' by lia.
  replace (eT - -46 - e') with (eT + 46 - e') by lia.
  destruct (eT + 46 - e') as [|p|p] eqn:Hs; try lia.
  rewrite Z.shiftl_mul_pow2 by lia. fold m'.
  unfold Z.div, Z.modulo.
  destruct (Z.div_eucl m' 7036874417766400) as [q r]. reflexivity.
Qed.

Lemma Zdigits2_ge q k : 0 <= k -> 2 ^ k <= q -> k < Zdigits2 q.
Proof.
  intros Hk Hq. pose proof (pow2_pos k Hk).
  pose proof (Zdigits2_bounds q ltac:(lia)) as [_ Hu].
  pose proof (Zdigits2_nonneg q).
  destruct (Z_lt_le_dec k (Zdigits2 q)); [assumption|].
  assert (2 ^ Zdigits2 q <= 2 ^ k) by (apply pow2_le; lia). lia.
Qed.

Lemma Zdigits2_le q k : 0 <= k -> 0 < q < 2 ^ k -> Zdigits2 q <= k.
Proof.
  intros Hk Hq.
  pose proof (Zdigits2_bounds q ltac:(lia)) as [Hl _].
  destruct (Z_lt_le_dec k (Zdigits2 q)); [|assumption].
  assert (2 ^ k <= 2 ^ (Zdigits2 q - 1)) by (apply pow2_le; lia). lia.
Qed.

(** When the truncation of [X] to its leading 53 bits is zero, the
    spacing at [X] is one unit. *)
Lemma ulp_small X : 0 <= X -> X / ulp X = 0 -> ulp X = 1.
Proof.
  intros HX Hq. unfold ulp in *.
  destruct (Z_lt_le_dec 53 (Zdigits2 X)) as [Hd | Hd].
  - exfalso.
    assert (0 < X) by (destruct X; cbn in Hd; lia).
    pose proof (Zdigits2_bounds X ltac:(lia)) as [Hl _].
    replace (Z.max (Zdigits2 X - 53) 0) with (Zdigits2 X - 53) in Hq by lia.
    assert (2 ^ (Zdigits2 X - 53) <= 2 ^ (Zdigits2 X - 1)) by (apply pow2_le; lia).
    pose proof (pow2_pos (Zdigits2 X - 53) ltac:(lia)).
    assert (1 <= X / 2 ^ (Zdigits2 X - 53)) by (apply Z.div_le_lower_bound; lia).
    lia.
  - replace (Z.max (Zdigits2 X - 53) 0) with 0 by lia. reflexivity.
Qed.

Lemma div_totalSteps_spec s mT eT :
  bounded prec emax mT eT = true ->
  exists V, repr s V (div (S754_finite s mT eT) totalSteps) /\
    (50 * V <= mag mT eT \/ V <= 1) /\
    (2 ^ 52 <= Z.pos mT -> -1067 <= eT ->
       mag mT eT <= 128 * V /\
       128 * (100 * V) <= 128 * mag mT eT + 200 * 2 ^ (eT + 1074) /\
       128 * mag mT eT < 128 * (100 * V) + 300 * 2 ^ (eT + 1074)).
Proof.
  intros Hb.
  pose proof (bounded_digits _ _ Hb) as (He & Hm & Hnorm).
  pose proof (proj1 (bounded_iff _ _) Hb) as [Hc _].
  pose proof (digits2_pos_bounds mT) as [HdTl HdTu].
  unfold div. rewrite totalSteps_eq. cbn [SFdiv].
  rewrite (div_core mT eT Hb). rewrite xorb_false_r.
  set (e' := fexp prec emax (Z.pos (digits2_pos mT) + eT - 7)).
  set (c := 7036874417766400).
  set (m' := Z.pos mT * 2 ^ (eT + 46 - e')).
  set (q := m' / c).
  assert (He' : -1074 <= e' <= eT) by (unfold e'; rewrite fexp_eq; lia).
  pose proof (pow2_pos (eT + 46 - e') ltac:(lia)) as Hps.
  assert (Hm'0 : 0 < m') by (unfold m'; nia).
  assert (Hc0 : 0 < c) by reflexivity.
  assert (Hq0 : 0 <= q) by (apply Z.div_pos; lia).
  assert (Hpre : e' <= fexp prec emax (Zdigits2 q + e')).
  { rewrite fexp_eq. destruct (Z.eq_dec e' (-1074)) as [|Hne]; [lia|].
    assert (He'eq : e' = Z.pos (digits2_pos mT) + eT - 60) by (unfold e' in *; rewrite fexp_eq in *; lia).
    assert (2 ^ 52 <= q).
    { apply Z.div_le_lower_bound; [lia|].
      apply Z.le_trans with (2 ^ 105); [unfold c; vm_compute; discriminate|].
      unfold m'. replace (eT + 46 - e') with (106 - Z.pos (digits2_pos mT)) by lia.
      replace 105 with ((Z.pos (digits2_pos mT) - 1) + (106 - Z.pos (digits2_pos mT))) by lia.
      assert (Z.pos (digits2_pos mT) <= 53) by lia.
      rewrite pow2_add by lia.
      apply Z.mul_le_mono_nonneg_r; [|lia].
      pose proof (pow2_pos (106 - Z.pos (digits2_pos mT))). lia. }
    pose proof (Zdigits2_ge q 52 ltac:(lia) ltac:(lia)). lia. }
  destruct (round_spec s q e' (new_location c (m' mod c)) Hq0 ltac:(lia) Hpre)
    as (V & Hs & _ & Hr).
  set (Xq := q * 2 ^ (e' + 1074)) in *.
  set (P := 2 ^ (e' + 1074)) in *.
  assert (HP : 0 < P) by (apply pow2_pos; lia).
  pose proof (ulp_pos Xq) as Hu.
  assert (HXq0 : 0 <= Xq) by (unfold Xq; nia).
  exists V. split; [exact Hr|].
  (* the truncated quotient against the exact one *)
  assert (Hmq : c * q <= m' < c * q + c).
  { unfold q. pose proof (Z.mul_div_le m' c Hc0). pose proof (Z.mul_succ_div_gt m' c Hc0). lia. }
  assert (Hm'eq : m' = Z.pos mT * 2 ^ (eT - e') * 2 ^ 46).
  { unfold m'. replace (eT + 46 - e') with ((eT - e') + 46) by lia.
    rewrite pow2_add by lia. ring. }
  assert (Hceq : c = 100 * 2 ^ 46) by reflexivity.
  assert (Hq100 : 100 * q <= Z.pos mT * 2 ^ (eT - e') < 100 * q + 100).
  { rewrite Hm'eq, Hceq in Hmq. pose proof (pow2_pos 46). nia. }
  assert (HTn : mag mT eT = Z.pos mT * 2 ^ (eT - e') * P).
  { unfold mag, P. replace (eT + 1074) with ((eT - e') + (e' + 1074)) by lia.
    rewrite pow2_add by lia. ring. }
  assert (HTnq : 100 * Xq <= mag mT eT < 100 * Xq + 100 * P).
  { rewrite HTn. unfold Xq. nia. }
  assert (HA0 : 0 <= Xq / ulp Xq) by (apply Z.div_pos; lia).
  assert (HAu : Xq / ulp Xq * ulp Xq <= Xq).
  { pose proof (Z.mul_div_le Xq (ulp Xq) Hu). lia. }
  assert (HAu' : Xq < Xq / ulp Xq * ulp Xq + ulp Xq).
  { pose proof (Z.mul_succ_div_gt Xq (ulp Xq) Hu). lia. }
  split.
  - destruct (Z.eq_dec (Xq / ulp Xq) 0) as [HA | HA].
    + right. rewrite HA, (ulp_small Xq HXq0 HA) in Hs. lia.
    + left. assert (ulp Xq <= Xq / ulp Xq * ulp Xq) by nia. lia.
  - intros HmT HeT.
    assert (Hd53 : Z.pos (digits2_pos mT) = 53) by lia.
    assert (He'eq : e' = eT - 7) by (unfold e'; rewrite fexp_eq; lia).
    assert (HTn59 : 2 ^ 59 * P <= mag mT eT).
    { rewrite HTn. replace (eT - e') with 7 by lia.
      change (2 ^ 59) with (2 ^ 52 * 2 ^ 7). nia. }
    assert (Hq54 : q < 2 ^ 54).
    { apply Z.div_lt_upper_bound; [lia|].
      unfold m'. replace (eT + 46 - e') with 53 by lia.
      apply Z.lt_le_trans with (2 ^ 53 * 2 ^ 53); [nia|]. unfold c. vm_compute. discriminate. }
    assert (Hq52 : 2 ^ 52 <= q).
    { apply Z.div_le_lower_bound; [lia|].
      unfold m'. replace (eT + 46 - e') with 53 by lia.
      apply Z.le_trans with (2 ^ 52 * 2 ^ 53); [unfold c; vm_compute; discriminate | nia]. }
    assert (Hu2 : ulp Xq <= 2 * P).
    { unfold ulp, Xq, P. rewrite Zdigits2_shift by lia.
      pose proof (Zdigits2_le q 54 ltac:(lia) ltac:(lia)).
      apply Z.le_trans with (2 ^ (1 + (e' + 1074))); [apply pow2_le; lia|].
      rewrite (pow2_add 1 (e' + 1074)) by lia. change (2 ^ 1) with 2. lia. }
    assert (HPT : 2 ^ (eT + 1074) = 128 * P).
    { unfold P. replace (eT + 1074) with (7 + (e' + 1074)) by lia.
      rewrite (pow2_add 7 (e' + 1074)) by lia. reflexivity. }
    rewrite HPT. lia.
Qed.

Lemma is_pos_finite_inv x :
  is_pos_finite x = true ->
  exists m e, x = S754_finite false m e /\ bounded prec emax m e = true /\ nval x = mag m e.
Proof.
  destruct x as [| | |[] m e]; try discriminate. intros H. eexists _, _. eauto.
Qed.

Lemma is_pos_finite_finite x : is_pos_finite x = true -> is_finite x = true.
Proof. destruct x as [| | |[] m e]; try discriminate. auto. Qed.

Lemma is_pos_finite_nval x : is_pos_finite x = true -> 0 < nval x.
Proof.
  intros (m & e & -> & Hb & ->)%is_pos_finite_inv.
  apply mag_pos. apply bounded_digits in Hb. lia.
Qed.

Lemma repr_pos V r :
  0 < V -> repr false V r ->
  r = S754_infinity false \/ (is_pos_finite r = true /\ nval r = V).
Proof.
  intros HV [[-> _] | [[_ (m & e & -> & Hb & Hm)] | [_ ->]]]; [lia | right | left; reflexivity].
  split; [exact Hb | exact Hm].
Qed.

Lemma advance_S_r inc c n : advance inc c (S n) = add (advance inc c n) inc.
Proof. revert c. induction n as [|n IH]; intros c; [reflexivity|]. cbn [advance] in *. apply IH. Qed.

Section Accumulate.

Variables (T inc : number).
Hypothesis HT : is_pos_finite T = true.
Hypothesis Hinc : is_pos_finite inc = true.
Hypothesis Hnormal : 2 ^ 52 <= nval T.
Hypothesis Hle : nval inc <= nval T.
Hypothesis Hge : nval T <= 128 * nval inc.

Lemma T_bound : exists eT, -1074 <= eT /\ 2 ^ 52 * 2 ^ (eT + 1074) <= nval T < 2 ^ 53 * 2 ^ (eT + 1074).
Proof.
  destruct (is_pos_finite_inv T HT) as (mT & eT & HTeq & Hb & Hn).
  pose proof (bounded_digits _ _ Hb) as (He & Hm & Hnorm).
  exists eT. split; [lia|]. rewrite Hn. unfold mag.
  pose proof (pow2_pos (eT + 1074) ltac:(lia)).
  destruct Hnorm as [-> | Hnorm].
  - rewrite Hn in Hnormal. unfold mag in Hnormal. change (2 ^ (-1074 + 1074)) with 1 in *. lia.
  - split; [apply Z.mul_le_mono_nonneg_r; lia | apply Z.mul_lt_mono_pos_r; lia].
Qed.

(** One more call strictly increases a non-negative accumulator that is
    below the target. *)
Lemma add_inc_progress c :
  (exists s, c = S754_zero s) \/ is_pos_finite c = true ->
  nval c < nval T ->
  add c inc = S754_infinity false \/
  (is_pos_finite (add c inc) = true /\ nval c < nval (add c inc)).
Proof.
  intros Hc Hlt.
  destruct (is_pos_finite_inv inc Hinc) as (mi & ei & Hieq & Hbi & Hni).
  pose proof (is_pos_finite_nval inc Hinc) as Hipos.
  destruct Hc as [[s ->] | Hc].
  - right. rewrite Hieq. cbn [add SFadd]. rewrite <- Hieq. split; [exact Hinc|]. exact Hipos.
  - destruct (is_pos_finite_inv c Hc) as (mc & ec & Hceq & Hbc & Hnc).
    pose proof (is_pos_finite_nval c Hc) as Hcpos.
    destruct (add_pos_spec mc ec mi ei Hbc Hbi) as (V & Hs & Hr).
    rewrite <- Hceq, <- Hieq, <- Hnc, <- Hni in *.
    set (N := nval c + nval inc) in *.
    pose proof (ulp_pos N) as Hu.
    destruct T_bound as (eT & HeT & HTl & HTu).
    set (P := 2 ^ (eT + 1074)) in *.
    assert (HP : 0 < P) by (apply pow2_pos; lia).
    assert (HuP : ulp N <= 2 * P).
    { unfold ulp.
      assert (HN : 0 < N < 2 ^ (54 + (eT + 1074))).
      { split; [unfold N; lia|]. rewrite pow2_add by lia. fold P.
        change (2 ^ 54) with (2 * 2 ^ 53). unfold N. lia. }
      pose proof (Zdigits2_le N (54 + (eT + 1074)) ltac:(lia) HN).
      apply Z.le_trans with (2 ^ (1 + (eT + 1074))); [apply pow2_le; lia|].
      rewrite (pow2_add 1 (eT + 1074)) by lia. change (2 ^ 1) with 2. fold P. lia. }
    assert (HI : 2 * P <= nval inc).
    { change (2 ^ 52) with (128 * 2 ^ 45) in HTl. pose proof (pow2_pos 45). nia. }
    assert (HV : nval c < V).
    { pose proof (Z.mul_succ_div_gt N (ulp N) Hu). unfold N in *. lia. }
    destruct (repr_pos V _ ltac:(lia) Hr) as [Hinf | [Hfin Hval]]; [left; exact Hinf | right].
    split; [exact Hfin | lia].
Qed.

Lemma lt_infinity_T : lt (S754_infinity false) T = false.
Proof. destruct (is_pos_finite_inv T HT) as (mT & eT & -> & _). reflexivity. Qed.

(** From a non-negative accumulator below the target, the comparison
    [current < target] fails after finitely many calls; until then the
    accumulator stays positive, finite, below the target and strictly
    increasing. *)
Lemma advance_terminates (fuel : nat) : forall c,
  (exists s, c = S754_zero s) \/ is_pos_finite c = true ->
  nval c < nval T ->
  nval T - nval c <= Z.of_nat fuel ->
  exists n, (1 <= n)%nat /\ lt (advance inc c n) T = false /\
    forall i, (1 <= i < n)%nat ->
      is_pos_finite (advance inc c i) = true /\
      lt (advance inc c i) T = true /\
      nval (advance inc c (i - 1)) < nval (advance inc c i).
Proof.
  induction fuel as [|fuel IH]; intros c Hc Hlt Hfuel; [lia|].
  destruct (add_inc_progress c Hc Hlt) as [Hinf | [Hfin Hinc']].
  - exists 1%nat. split; [lia|]. split; [|intros i Hi; lia].
    cbn [advance]. rewrite Hinf. apply lt_infinity_T.
  - destruct (lt (add c inc) T) eqn:Hcmp.
    + assert (Hlt' : nval (add c inc) < nval T).
      { rewrite lt_nval in Hcmp by (apply is_pos_finite_finite; assumption). lia. }
      destruct (IH (add c inc) (or_intror Hfin) Hlt' ltac:(lia)) as (n & Hn & Hstop & Hrun).
      exists (S n). split; [lia|]. split; [exact Hstop|].
      intros i Hi. destruct i as [|[|i]]; [lia | |].
      * cbn [advance Nat.sub]. auto.
      * specialize (Hrun (S i) ltac:(lia)).
        replace (S i - 1)%nat with i in Hrun by lia.
        cbn [advance Nat.sub] in *. exact Hrun.
    + exists 1%nat. split; [lia|]. split; [exact Hcmp | intros i Hi; lia].
Qed.

End Accumulate.

(** *** [Math.ceil] on positive numbers *)

Lemma ceil_spec c :
  is_pos_finite c = true ->
  is_pos_finite (ceil c) = true /\
  exists z, nval (ceil c) = z * 2 ^ 1074 /\ nval c <= z * 2 ^ 1074 < nval c + 2 ^ 1074.
Proof.
  intros (m & e & -> & Hb & _)%is_pos_finite_inv.
  pose proof (bounded_digits _ _ Hb) as (He & Hm & _).
  cbn [ceil nval cond_Zopp]. unfold mag.
  destruct (Z.leb_spec 0 e) as [Hpos | Hneg].
  - split; [exact Hb|]. exists (Z.pos m * 2 ^ e). cbn [nval cond_Zopp]. unfold mag.
    rewrite (pow2_add e 1074) by lia. pose proof (pow2_pos 1074). split; [ring | nia].
  - set (k := - e).
    assert (Hk : 1 <= k <= 1074) by (unfold k; lia).
    pose proof (pow2_pos k ltac:(lia)) as Hpk.
    pose proof (Z.div_mod (Z.pos m) (2 ^ k) ltac:(lia)) as Hdm.
    pose proof (Z.mod_pos_bound (Z.pos m) (2 ^ k) Hpk) as Hr.
    assert (Hq0 : 0 <= Z.pos m / 2 ^ k) by (apply Z.div_pos; lia).
    set (z := if Z.pos m mod 2 ^ k =? 0 then Z.pos m / 2 ^ k else Z.pos m / 2 ^ k + 1).
    assert (Hzk : Z.pos m <= z * 2 ^ k < Z.pos m + 2 ^ k).
    { unfold z. destruct (Z.eqb_spec (Z.pos m mod 2 ^ k) 0); lia. }
    assert (Hz0 : 0 < z) by nia.
    assert (Hz52 : z <= 2 ^ 52).
    { assert (2 <= 2 ^ k) by (change 2 with (2 ^ 1) at 1; apply pow2_le; lia).
      change (2 ^ 53) with (2 ^ 52 * 2) in Hm. pose proof (pow2_pos 52). nia. }
    destruct z as [|p|p] eqn:Hz; try lia. cbn [binary_normalize].
    destruct (binary_round_spec false p 0 ltac:(lia)) as (V & _ & Hex & Hr').
    assert (Hmag : mag p 0 = Z.pos p * 2 ^ 1074) by reflexivity.
    assert (HV : V = Z.pos p * 2 ^ 1074).
    { rewrite <- Hmag. apply Hex. rewrite Hmag. unfold ulp.
      rewrite Zdigits2_shift by lia.
      pose proof (Zdigits2_le (Z.pos p) 53 ltac:(lia) ltac:(pose proof (pow2_lt 52 53); lia)) as Hd.
      pose proof (Zdigits2_ge (Z.pos p) 0 ltac:(lia) ltac:(change (2 ^ 0) with 1; lia)) as Hd0.
      set (d := Zdigits2 (Z.pos p)) in *.
      replace (Z.max (d + 1074 - 53) 0) with (d + 1021) by lia.
      replace 1074 with ((53 - d) + (d + 1021)) by lia.
      rewrite (pow2_add (53 - d) (d + 1021)) by lia.
      rewrite Z.mul_assoc. apply Z.mod_mul.
      pose proof (pow2_pos (d + 1021)). lia. }
    assert (HVpos : 0 < V) by (rewrite HV; pose proof (pow2_pos 1074); nia).
    assert (HVov : V < overflow).
    { rewrite HV. apply (below_overflow (Z.pos p) 0); [|lia].
      pose proof (pow2_lt 52 53). lia. }
    destruct (repr_pos V _ HVpos Hr') as [Hinf | [Hfin Hval]].
    + exfalso. destruct Hr' as [[? _] | [[_ (? & ? & Heq & _)] | [? _]]]; try lia.
      rewrite Hinf in Heq. discriminate.
    + split; [exact Hfin|]. exists (Z.pos p). rewrite Hval. split; [exact HV|].
      replace (2 ^ 1074) with (2 ^ k * 2 ^ (e + 1074))
        by (rewrite <- (pow2_add k (e + 1074)) by lia; f_equal; unfold k; lia).
      pose proof (pow2_pos (e + 1074) ltac:(lia)) as HB.
      assert (H1 : Z.pos m * 2 ^ (e + 1074) <= (Z.pos p * 2 ^ k) * 2 ^ (e + 1074))
        by (apply Z.mul_le_mono_nonneg_r; lia).
      assert (H2 : (Z.pos p * 2 ^ k) * 2 ^ (e + 1074) < (Z.pos m + 2 ^ k) * 2 ^ (e + 1074))
        by (apply Z.mul_lt_mono_pos_r; lia).
      lia.
Qed.

Lemma ceil_mono c c' :
  is_pos_finite c = true -> is_pos_finite c' = true ->
  nval c <= nval c' -> le (ceil c) (ceil c') = true.
Proof.
  intros Hc Hc' Hle.
  destruct (ceil_spec c Hc) as (Hf & z & Hz & Hzl & Hzu).
  destruct (ceil_spec c' Hc') as (Hf' & z' & Hz' & Hzl' & Hzu').
  rewrite le_nval by (apply is_pos_finite_finite; assumption).
  apply Z.leb_le. rewrite Hz, Hz'. pose proof (pow2_pos 1074). nia.
Qed.

Lemma is_integer_multiple T :
  is_integer T = true -> exists t, nval T = t * 2 ^ 1074.
Proof.
  destruct T as [s | | | s m e]; try discriminate; cbn [is_integer nval].
  - intros _. exists 0. reflexivity.
  - intros [Hb Hi]%andb_true_iff.
    pose proof (bounded_digits _ _ Hb) as (He & _).
    apply orb_true_iff in Hi. unfold mag.
    destruct Hi as [Hi%Z.leb_le | Hi%Z.eqb_eq].
    + exists (cond_Zopp s (Z.pos m * 2 ^ e)).
      rewrite (pow2_add e 1074) by lia. destruct s; cbn [cond_Zopp]; ring.
    + assert (e < 0 \/ 0 <= e) as [Hneg | Hpos] by lia.
      * apply Z.mod_divide in Hi; [|pose proof (pow2_pos (- e)); lia].
        destruct Hi as [t Ht]. exists (cond_Zopp s t). rewrite Ht.
        replace 1074 with (- e + (e + 1074)) at 2 by lia.
        rewrite (pow2_add (- e) (e + 1074)) by lia.
        destruct s; cbn [cond_Zopp]; ring.
      * exists (cond_Zopp s (Z.pos m * 2 ^ e)).
        rewrite (pow2_add e 1074) by lia. destruct s; cbn [cond_Zopp]; ring.
Qed.

Lemma ceil_le_integer c T :
  is_pos_finite c = true -> is_integer T = true -> is_finite T = true ->
  nval c < nval T -> le (ceil c) T = true.
Proof.
  intros Hc HT HTf Hlt.
  destruct (ceil_spec c Hc) as (Hf & z & Hz & Hzl & Hzu).
  destruct (is_integer_multiple T HT) as (t & Ht).
  rewrite le_nval by (first [assumption | apply is_pos_finite_finite; assumption]).
  apply Z.leb_le. rewrite Hz, Ht in *. pose proof (pow2_pos 1074). nia.
Qed.

(** *** Targets that are at least 1 *)

Lemma nval_one : nval (of_Z 1) = 2 ^ 1074.
Proof. vm_compute. reflexivity. Qed.

Lemma target_ge_one T :
  is_finite T = true -> le (of_Z 1) T = true ->
  is_pos_finite T = true /\ 2 ^ 1074 <= nval T.
Proof.
  intros HT Hle. rewrite le_nval in Hle by (assumption || reflexivity).
  apply Z.leb_le in Hle. rewrite nval_one in Hle.
  pose proof (pow2_pos 1074) as Hp. split; [|exact Hle].
  destruct T as [s | | | [] m e]; cbn [nval is_finite is_pos_finite cond_Zopp] in *; try lia.
  - pose proof (bounded_digits _ _ HT) as (He & _). pose proof (mag_pos m e). lia.
  - exact HT.
Qed.

Lemma increment_spec T :
  is_pos_finite T = true -> 2 ^ 1074 <= nval T ->
  is_pos_finite (div T totalSteps) = true /\
  nval (div T totalSteps) <= nval T /\ nval T <= 128 * nval (div T totalSteps) /\
  100 * nval (div T totalSteps) <= nval T + 2 * ulp (nval T) /\
  nval T < 100 * nval (div T totalSteps) + 3 * ulp (nval T).
Proof.
  intros HT Hge.
  destruct (is_pos_finite_inv T HT) as (mT & eT & -> & Hb & Hn).
  rewrite Hn in *.
  pose proof (bounded_digits _ _ Hb) as (He & Hm & Hnorm).
  assert (HeT : -52 <= eT).
  { destruct (Z_lt_le_dec eT (-52)) as [Hlt|]; [exfalso | assumption].
    assert (2 ^ (eT + 1074) <= 2 ^ 1021) by (apply pow2_le; lia).
    pose proof (pow2_pos (eT + 1074) ltac:(lia)).
    assert (mag mT eT < 2 ^ 53 * 2 ^ 1021) by (unfold mag; nia).
    change (2 ^ 53 * 2 ^ 1021) with (2 ^ 1074) in *. lia. }
  destruct (div_totalSteps_spec false mT eT Hb) as (V & Hr & Hup & Hlow).
  destruct (Hlow ltac:(lia) ltac:(lia)) as (Hlow' & Herr1 & Herr2).
  assert (Hulp : ulp (mag mT eT) = 2 ^ (eT + 1074)).
  { unfold mag. rewrite ulp_scaled; [|lia|lia|].
    - f_equal. rewrite fexp_eq. cbn [Zdigits2].
      pose proof (proj1 (bounded_iff _ _) Hb) as [Hc _]. lia.
    - rewrite fexp_eq. cbn [Zdigits2].
      pose proof (proj1 (bounded_iff _ _) Hb) as [Hc _]. lia. }
  pose proof (pow2_pos (eT + 1074) ltac:(lia)) as HpT.
  pose proof (pow2_pos 1074) as Hp.
  assert (HVpos : 0 < V) by lia.
  assert (HVle : V <= mag mT eT) by lia.
  destruct (repr_pos V _ HVpos Hr) as [Hinf | [Hfin Hval]].
  - exfalso. destruct Hr as [[? _] | [[_ (? & ? & Heq & _)] | [Hov _]]]; try lia.
    + rewrite Hinf in Heq. discriminate.
    + pose proof (below_overflow (Z.pos mT) eT ltac:(lia) ltac:(lia)). unfold mag in *. lia.
  - rewrite Hval, Hulp. split; [exact Hfin|]. lia.
Qed.

(** For a target of at least 1 the comparison [current < target] fails
    after finitely many calls of [updateCounter]; before that the
    accumulator is positive, finite and strictly increasing. *)
Lemma accumulate_stops T :
  is_finite T = true -> le (of_Z 1) T = true ->
  exists N, (1 <= N)%nat /\
    lt (accumulate (div T totalSteps) N) T = false /\
    forall i, (1 <= i < N)%nat ->
      is_pos_finite (accumulate (div T totalSteps) i) = true /\
      lt (accumulate (div T totalSteps) i) T = true /\
      nval (accumulate (div T totalSteps) (i - 1)) < nval (accumulate (div T totalSteps) i).
Proof.
  intros HT Hle.
  destruct (target_ge_one T HT Hle) as [Hpos Hge].
  destruct (increment_spec T Hpos Hge) as (Hi & Hile & Hige & _).
  pose proof (pow2_pos 1074) as Hp.
  assert (Hn : 2 ^ 52 <= nval T).
  { assert (2 ^ 52 <= 2 ^ 1074) by (apply pow2_le; lia). lia. }
  apply (advance_terminates T _ Hpos Hi Hn Hile Hige (Z.to_nat (nval T)) (of_Z 0)).
  - left. exists false. reflexivity.
  - change (nval (of_Z 0)) with 0. lia.
  - change (nval (of_Z 0)) with 0. lia.
Qed.

(** *** Zero and negative targets *)

Lemma accumulate_zero s :
  accumulate (div (S754_zero s) totalSteps) 1 = S754_zero false /\
  div (S754_zero s) totalSteps = S754_zero s /\
  lt (accumulate (div (S754_zero s) totalSteps) 1) (S754_zero s) = false.
Proof. destruct s; vm_compute; auto. Qed.

Lemma accumulate_negative T :
  is_finite T = true -> lt T (of_Z 0) = true ->
  accumulate (div T totalSteps) 1 = add (of_Z 0) (div T totalSteps) /\
  SFcompare (accumulate (div T totalSteps) 1) (div T totalSteps) = Some Eq /\
  SFcompare (accumulate (div T totalSteps) 1) T = Some Gt /\
  lt (accumulate (div T totalSteps) 1) T = false.
Proof.
  intros HT Hneg.
  assert (Hgt : SFcompare (accumulate (div T totalSteps) 1) (div T totalSteps) = Some Eq /\
                SFcompare (accumulate (div T totalSteps) 1) T = Some Gt).
  { destruct T as [s | | | s mT eT]; try discriminate.
    destruct s; [|cbv in Hneg; discriminate]. cbn [is_finite] in HT.
    pose proof (bounded_digits _ _ HT) as (He & Hm & _).
    pose proof (mag_pos mT eT ltac:(lia)) as HTpos.
    destruct (div_totalSteps_spec true mT eT HT) as (V & Hr & Hup & _).
    assert (Hcases : V < mag mT eT \/ (V = 1 /\ mag mT eT = 1)).
    { destruct Hr as [[-> _] | [[HV _] | [Hov _]]]; [lia | lia |].
      pose proof (below_overflow (Z.pos mT) eT ltac:(lia) ltac:(lia)). unfold mag in *. lia. }
    destruct Hcases as [Hlt | [_ H1]].
    - unfold accumulate. cbn [advance].
      destruct Hr as [[_ Hz] | [[HV (m & e & Heq & Hb & Hmag)] | [Hov _]]].
      + rewrite Hz. split; reflexivity.
      + rewrite Heq. change (add (of_Z 0) (S754_finite true m e)) with (S754_finite true m e).
        rewrite !compare_nval by assumption. cbn [nval cond_Zopp].
        split; f_equal; [apply Z.compare_refl | apply Z.compare_gt_iff; lia].
      + pose proof (below_overflow (Z.pos mT) eT ltac:(lia) ltac:(lia)). unfold mag in *. lia.
    - (* the smallest negative number: its hundredth rounds to -0 *)
      assert (mT = 1%positive /\ eT = -1074) as [-> ->].
      { unfold mag in H1. pose proof (pow2_pos (eT + 1074) ltac:(lia)).
        assert (Z.pos mT = 1 /\ 2 ^ (eT + 1074) = 1) as [Hm1 He1] by nia.
        split; [lia|]. destruct (Z.eq_dec eT (-1074)); [assumption|].
        assert (2 ^ 1 <= 2 ^ (eT + 1074)) by (apply pow2_le; lia).
        change (2 ^ 1) with 2 in *. lia. }
      vm_compute. auto. }
  destruct Hgt as [Heq Hgt]. repeat split; auto.
  unfold lt, SFltb. rewrite Hgt. reflexivity.
Qed.

(** *** The number of calls of an animation *)

Lemma repr_lt_false T V r :
  is_pos_finite T = true -> repr false V r -> nval T <= V -> lt r T = false.
Proof.
  intros HT Hr Hle. pose proof (is_pos_finite_nval T HT) as HTpos.
  destruct (repr_pos V r ltac:(lia) Hr) as [-> | [Hfin Hval]].
  - destruct (is_pos_finite_inv T HT) as (mT & eT & -> & _). reflexivity.
  - rewrite lt_nval by (first [assumption | apply is_pos_finite_finite; assumption]).
    apply Z.ltb_ge. lia.
Qed.

Section StepCount.

Variables (T inc : number).
Hypothesis HT : is_pos_finite T = true.
Hypothesis Hinc : is_pos_finite inc = true.
Hypothesis Hnormal : 2 ^ 52 <= nval T.
Hypothesis Hinc_le : 100 * nval inc <= nval T + 2 * ulp (nval T).
Hypothesis Hinc_ge : nval T < 100 * nval inc + 3 * ulp (nval T).

Lemma ulp_T_bounds : 2 ^ 52 * ulp (nval T) <= nval T < 2 ^ 53 * ulp (nval T).
Proof.
  pose proof (Zdigits2_ge (nval T) 52 ltac:(lia) Hnormal) as Hd.
  pose proof (pow2_pos 52) as Hp.
  pose proof (Zdigits2_bounds (nval T) ltac:(lia)) as [Hl Hu].
  unfold ulp. replace (Z.max (Zdigits2 (nval T) - 53) 0) with (Zdigits2 (nval T) - 53) by lia.
  rewrite <- !pow2_add by lia.
  replace (52 + (Zdigits2 (nval T) - 53)) with (Zdigits2 (nval T) - 1) by lia.
  replace (53 + (Zdigits2 (nval T) - 53)) with (Zdigits2 (nval T)) by lia.
  lia.
Qed.

Lemma ulp_below_twice N : 0 < N < 2 * nval T -> ulp N <= 2 * ulp (nval T).
Proof.
  intros HN.
  pose proof (Zdigits2_ge (nval T) 52 ltac:(lia) Hnormal) as Hd.
  pose proof (pow2_pos 52) as Hp.
  pose proof (Zdigits2_bounds (nval T) ltac:(lia)) as [_ Hu].
  assert (HdN : Zdigits2 N <= 1 + Zdigits2 (nval T)).
  { apply Zdigits2_le; [lia|]. rewrite (pow2_add 1 (Zdigits2 (nval T))) by lia.
    change (2 ^ 1) with 2. lia. }
  unfold ulp. replace (Z.max (Zdigits2 (nval T) - 53) 0) with (Zdigits2 (nval T) - 53) by lia.
  apply Z.le_trans with (2 ^ (1 + (Zdigits2 (nval T) - 53))); [apply pow2_le; lia|].
  rewrite (pow2_add 1 (Zdigits2 (nval T) - 53)) by lia. change (2 ^ 1) with 2. lia.
Qed.

(** One addition of the increment is off by less than two spacings of
    the target. *)
Lemma add_inc_error c :
  is_pos_finite c = true -> nval c < nval T ->
  exists V, repr false V (add c inc) /\
    nval c + nval inc - 2 * ulp (nval T) < V <= nval c + nval inc + 2 * ulp (nval T).
Proof.
  intros Hc Hlt.
  destruct (is_pos_finite_inv inc Hinc) as (mi & ei & Hieq & Hbi & Hni).
  destruct (is_pos_finite_inv c Hc) as (mc & ec & Hceq & Hbc & Hnc).
  pose proof (is_pos_finite_nval inc Hinc) as Hipos.
  pose proof (is_pos_finite_nval c Hc) as Hcpos.
  destruct ulp_T_bounds as [HU1 HU2].
  pose proof (ulp_pos (nval T)) as HU.
  destruct (add_pos_spec mc ec mi ei Hbc Hbi) as (V & Hs & Hr).
  rewrite <- Hceq, <- Hieq, <- Hnc, <- Hni in *.
  set (N := nval c + nval inc) in *.
  pose proof (ulp_pos N) as Hu.
  pose proof (ulp_below_twice N ltac:(unfold N; lia)) as HuN.
  pose proof (Z.mul_div_le N (ulp N) Hu).
  pose proof (Z.mul_succ_div_gt N (ulp N) Hu).
  exists V. split; [exact Hr|]. unfold N in *. lia.
Qed.

Lemma T_below_overflow : nval T < overflow.
Proof.
  destruct (is_pos_finite_inv T HT) as (mT & eT & _ & Hb & ->).
  pose proof (bounded_digits _ _ Hb) as (He & Hm & _).
  apply (below_overflow (Z.pos mT) eT); lia.
Qed.

(** Through the first 99 calls the accumulator stays below the target,
    within two spacings per call of the exact multiple of the increment. *)
Lemma accumulate_error (i : nat) :
  (1 <= i <= 99)%nat ->
  is_pos_finite (accumulate inc i) = true /\
  nval (accumulate inc i) < nval T /\
  Z.of_nat i * nval inc - 2 * (Z.of_nat i - 1) * ulp (nval T) <= nval (accumulate inc i)
    <= Z.of_nat i * nval inc + 2 * (Z.of_nat i - 1) * ulp (nval T).
Proof.
  destruct ulp_T_bounds as [HU1 HU2].
  pose proof (ulp_pos (nval T)) as HU.
  pose proof (is_pos_finite_nval inc Hinc) as Hipos.
  pose proof T_below_overflow as Hov.
  change (2 ^ 52) with 4503599627370496 in *.
  induction i as [|i IH]; [lia|]. intros Hi.
  destruct i as [|i].
  - assert (Hacc : accumulate inc 1 = inc).
    { destruct (is_pos_finite_inv inc Hinc) as (mi & ei & -> & _). reflexivity. }
    rewrite Hacc. split; [exact Hinc|]. cbn [Z.of_nat Pos.of_succ_nat]. lia.
  - destruct (IH ltac:(lia)) as (Hfin & Hlt & Hlo & Hhi).
    unfold accumulate in *. rewrite advance_S_r.
    set (C := nval (advance inc (of_Z 0) (S i))) in *.
    destruct (add_inc_error _ Hfin Hlt) as (V & Hr & HVlo & HVhi). fold C in HVlo, HVhi.
    set (K := Z.of_nat (S i)) in *.
    assert (HK : 1 <= K <= 98) by (unfold K; lia).
    replace (Z.of_nat (S (S i))) with (K + 1) by (unfold K; lia).
    assert (HKI : K * (100 * nval inc) <= K * (nval T + 2 * ulp (nval T)))
      by (apply Z.mul_le_mono_nonneg_l; lia).
    assert (HKT : K * (nval T + 2 * ulp (nval T)) <= 98 * (nval T + 2 * ulp (nval T)))
      by (apply Z.mul_le_mono_nonneg_r; lia).
    assert (HKU : K * ulp (nval T) <= 98 * ulp (nval T))
      by (apply Z.mul_le_mono_nonneg_r; lia).
    assert (HVT : V < nval T) by lia.
    assert (HVpos : 0 < V) by lia.
    destruct (repr_pos V _ HVpos Hr) as [Hinf | [Hfin' Hval]].
    + exfalso. destruct Hr as [[? _] | [[_ (? & ? & Heq & _)] | [? _]]]; try lia.
      rewrite Hinf in Heq. discriminate.
    + rewrite Hval. split; [exact Hfin'|]. split; [exact HVT|]. lia.
Qed.

Lemma accumulate_S n : accumulate inc (S n) = add (accumulate inc n) inc.
Proof. apply advance_S_r. Qed.

(** When the accumulator is within 196 spacings of 99 increments and
    still below the target, one of the next two calls ends the
    animation. *)
Lemma stops_within_two (n : nat) :
  is_pos_finite (accumulate inc n) = true ->
  nval (accumulate inc n) < nval T ->
  99 * nval inc - 196 * ulp (nval T) <= nval (accumulate inc n) ->
  lt (accumulate inc (S n)) T = false \/ lt (accumulate inc (S (S n))) T = false.
Proof.
  intros Hfin Hlt Hlo.
  destruct ulp_T_bounds as [HU1 HU2].
  pose proof (ulp_pos (nval T)) as HU.
  pose proof (is_pos_finite_nval inc Hinc) as Hipos.
  change (2 ^ 52) with 4503599627370496 in *.
  rewrite (accumulate_S (S n)), (accumulate_S n).
  generalize dependent (accumulate inc n). intros c Hfin Hlt Hlo.
  destruct (add_inc_error c Hfin Hlt) as (V & Hr & HVlo & _).
  destruct (Z_lt_le_dec V (nval T)) as [HVT | HVT].
  - right.
    destruct (repr_pos V _ ltac:(lia) Hr) as [Hinf | [Hfin' Hval]].
    + exfalso. destruct Hr as [[? _] | [[_ (? & ? & Heq & _)] | [? _]]]; try lia.
      * rewrite Hinf in Heq. discriminate.
      * pose proof T_below_overflow. lia.
    + destruct (add_inc_error (add c inc) Hfin' ltac:(lia)) as (V' & Hr' & HVlo' & _).
      apply (repr_lt_false T V' _ HT Hr'). lia.
  - left. apply (repr_lt_false T V _ HT Hr). exact HVT.
Qed.

(** An animation makes 100 or 101 calls of [updateCounter]. *)
Lemma accumulate_100_or_101 :
  (forall i, (1 <= i <= 99)%nat -> lt (accumulate inc i) T = true) /\
  (lt (accumulate inc 100) T = false \/ lt (accumulate inc 101) T = false).
Proof.
  split.
  - intros i Hi. destruct (accumulate_error i Hi) as (Hfin & Hlt & _).
    rewrite lt_nval by (first [assumption | apply is_pos_finite_finite; assumption]).
    apply Z.ltb_lt. exact Hlt.
  - destruct (accumulate_error 99 ltac:(lia)) as (Hfin & Hlt & Hlo & _).
    apply (stops_within_two 99 Hfin Hlt).
    generalize dependent (accumulate inc 99). intros c _ _ Hlo.
    change (Z.of_nat 99) with 99 in Hlo. lia.
Qed.

End StepCount.

(** For a target of at least 1 the comparison [current < target] holds
    through the first 99 calls and fails at call 100 or at call 101. *)
Lemma steps_100_or_101 T :
  is_finite T = true -> le (of_Z 1) T = true ->
  (forall i, (1 <= i <= 99)%nat -> lt (accumulate (div T totalSteps) i) T = true) /\
  (lt (accumulate (div T totalSteps) 100) T = false \/
   lt (accumulate (div T totalSteps) 101) T = false).
Proof.
  intros HT Hge.
  destruct (target_ge_one T HT Hge) as [Hpos Hone].
  destruct (increment_spec T Hpos Hone) as (Hi & _ & _ & Herr1 & Herr2).
  pose proof (pow2_pos 1074) as Hp.
  assert (Hn : 2 ^ 52 <= nval T).
  { assert (2 ^ 52 <= 2 ^ 1074) by (apply pow2_le; lia). lia. }
  apply (accumulate_100_or_101 T (div T totalSteps) Hpos Hi Hn); assumption.
Qed.

End NumberTheory.

(** ** The timer chain of one animation *)

Lemma displayed_set_innerText c t w :
  is_Some (displayed c w) →
  displayed c (on_element c (set_innerText t) w) = Some t.
Proof.
  unfold displayed, on_element, with_dom. cbn [w_dom].
  rewrite list_lookup_alter_eq. intros [x Hx].
  destruct (w_dom w !! c) as [el|]; [reflexivity | discriminate].
Qed.

Lemma displayed_on_element_ne c c' f w :
  c ≠ c' → displayed c (on_element c' f w) = displayed c w.
Proof.
  intros Hne. unfold displayed, on_element, with_dom. cbn [w_dom].
  rewrite list_lookup_alter_ne by done. reflexivity.
Qed.

(** A call of [updateCounter] for another counter leaves the element
    alone and appends at most one callback, again for that counter. *)
Lemma updateCounter_other c k w :
  counter k ≠ c →
  displayed c (updateCounter k w) = displayed c w ∧
  ∃ extra, w_timers (updateCounter k w) = w_timers w ++ extra ∧
           Forall (λ k', counter k' ≠ c) extra.
Proof.
  intros Hne. unfold updateCounter.
  destruct (lt (add (current k) (increment k)) (target k)).
  - split; [apply displayed_on_element_ne; done|].
    eexists [_]. split; [reflexivity|]. repeat constructor. exact Hne.
  - split; [apply displayed_on_element_ne; done|].
    exists []. split; [cbn; by rewrite app_nil_r | constructor].
Qed.

(** [updateCounter] touches only the page tree and the timers. *)
Lemma updateCounter_frame k w :
  w_observer (updateCounter k w) = w_observer w ∧
  w_counterObserver (updateCounter k w) = w_counterObserver w ∧
  w_click (updateCounter k w) = w_click w ∧
  w_started (updateCounter k w) = w_started w.
Proof.
  unfold updateCounter.
  destruct (lt (add (current k) (increment k)) (target k)); done.
Qed.

Lemma run_timers_S n w : run_timers (S n) w = run_timers n (run_timer w).
Proof. reflexivity. Qed.

Lemma run_timers_add n m w : run_timers (n + m) w = run_timers m (run_timers n w).
Proof. revert w. induction n as [|n IH]; intros w; [reflexivity|]. cbn. apply IH. Qed.

(** Once no callback of [c] is pending, the timers never touch [c]
    again. *)
Lemma idle_run_timer c w :
  idle c w → idle c (run_timer w) ∧ displayed c (run_timer w) = displayed c w.
Proof.
  unfold idle, run_timer. intros Hidle.
  destruct (w_timers w) as [|k rest] eqn:Ht; [by rewrite Ht|].
  inversion Hidle as [|? ? Hk Hrest]; subst.
  destruct (updateCounter_other c k
    (World (w_dom w) (w_observer w) (w_counterObserver w) rest (w_click w) (w_started w)) Hk)
    as (Hd & extra & Htm & Hex).
  split; [|exact Hd]. rewrite Htm. cbn [w_timers]. apply Forall_app. done.
Qed.

Lemma idle_run_timers c n w :
  idle c w → idle c (run_timers n w) ∧ displayed c (run_timers n w) = displayed c w.
Proof.
  revert w. induction n as [|n IH]; intros w Hidle; [done|].
  destruct (idle_run_timer c w Hidle) as [Hi Hd].
  destruct (IH _ Hi) as [Hi' Hd']. rewrite run_timers_S. split; [done | congruence].
Qed.

Section Chain.

Variables (c : elem) (T inc : number) (N : nat).
Hypothesis HN : 1 ≤ N.
Hypothesis Hstop : lt (accumulate inc N) T = false.
Hypothesis Hrun : ∀ i, 1 ≤ i < N → lt (accumulate inc i) T = true.

Lemma stage_value_running i : i < N → stage_value T inc N i = ceil (accumulate inc i).
Proof. intros Hi. unfold stage_value. by rewrite (proj2 (Nat.ltb_lt i N) Hi). Qed.

Lemma stage_value_final : stage_value T inc N N = T.
Proof. unfold stage_value. by rewrite Nat.ltb_irrefl. Qed.

(** A call of the animation's [updateCounter]: it reschedules itself
    while the comparison holds, and writes the target when it fails. *)
Lemma updateCounter_own w i :
  is_Some (displayed c w) → S i ≤ N →
  shows c (stage_value T inc N (S i)) (updateCounter (Closure c T inc (accumulate inc i)) w) ∧
  w_timers (updateCounter (Closure c T inc (accumulate inc i)) w) =
    w_timers w ++ (if bool_decide (S i < N) then [Closure c T inc (accumulate inc (S i))] else []).
Proof.
  intros Hsome Hi. unfold updateCounter.
  cbn [current increment target counter].
  change (add (accumulate inc i) inc) with (add (advance inc (of_Z 0) i) inc).
  rewrite <- advance_S_r. fold (accumulate inc (S i)).
  case_bool_decide as Hlt.
  - rewrite Hrun by lia. rewrite stage_value_running by done.
    split; [|reflexivity]. unfold shows, setTimeout, displayed. cbn [w_dom].
    apply displayed_set_innerText. exact Hsome.
  - assert (S i = N) as -> by lia. rewrite Hstop, stage_value_final.
    split; [|cbn; by rewrite app_nil_r].
    apply displayed_set_innerText. exact Hsome.
Qed.

Lemma fire_own w post i :
  w_timers w = Closure c T inc (accumulate inc i) :: post →
  is_Some (displayed c w) → S i ≤ N →
  shows c (stage_value T inc N (S i)) (run_timer w) ∧
  w_timers (run_timer w) =
    post ++ (if bool_decide (S i < N) then [Closure c T inc (accumulate inc (S i))] else []).
Proof.
  intros Ht Hsome Hi. unfold run_timer. rewrite Ht.
  apply (updateCounter_own
    (World (w_dom w) (w_observer w) (w_counterObserver w) post (w_click w) (w_started w)) i);
    assumption.
Qed.

(** *** The chain completes whatever other callbacks are pending *)

Lemma chain_runs (fuel : nat) : ∀ i pre post w,
  N - i ≤ fuel → 1 ≤ i < N →
  w_timers w = pre ++ Closure c T inc (accumulate inc i) :: post →
  Forall (λ k, counter k ≠ c) pre → Forall (λ k, counter k ≠ c) post →
  shows c (stage_value T inc N i) w →
  ∃ n, idle c (run_timers n w) ∧ shows c T (run_timers n w) ∧
       ∀ m, m < n → ∃ i1 i2, 1 ≤ i1 ∧ i1 < N ∧ i1 ≤ i2 ≤ N ∧
         shows c (stage_value T inc N i1) (run_timers m w) ∧
         shows c (stage_value T inc N i2) (run_timers (S m) w) ∧
         (i2 = i1 ∨ i2 = S i1) ∧
         Closure c T inc (accumulate inc i1) ∈ w_timers (run_timers m w).
Proof.
  induction fuel as [|fuel IHfuel]; intros i pre; [lia|].
  induction pre as [|k' pre' IHpre]; intros post w Hfuel Hi Ht Hpre Hpost Hshow.
  - (* the animation's own callback is the oldest *)
    cbn [app] in Ht.
    destruct (fire_own w post i Ht ltac:(unfold shows in Hshow; by rewrite Hshow) ltac:(lia))
      as [Hshow' Ht'].
    case_bool_decide as Hlt.
    + destruct (IHfuel (S i) post [] (run_timer w) ltac:(lia) ltac:(lia) Ht' Hpost
                  ltac:(constructor) Hshow') as (n & Hidle & Hfin & Htrace).
      exists (S n). split; [exact Hidle|]. split; [exact Hfin|].
      intros [|m] Hm.
      * exists i, (S i). cbn [run_timers]. rewrite Ht.
        split_and!; [lia | lia | lia | lia | assumption | assumption | by right | by left].
      * destruct (Htrace m ltac:(lia)) as (i1 & i2 & ? & ? & ? & ? & ? & ? & ?).
        exists i1, i2. split_and!; try lia; assumption.
    + assert (S i = N) as HSi by lia. rewrite HSi, stage_value_final in Hshow'.
      rewrite app_nil_r in Ht'.
      exists 1. split; [unfold idle; cbn; by rewrite Ht'|]. split; [exact Hshow'|].
      intros m Hm. assert (m = 0) as -> by lia.
      exists i, N. cbn [run_timers]. rewrite Ht.
      split_and!; [lia | lia | lia | lia | assumption | by rewrite stage_value_final | right; lia | by left].
  - (* another counter's callback is older *)
    inversion Hpre as [|? ? Hk' Hpre']; subst.
    set (w0 := World (w_dom w) (w_observer w) (w_counterObserver w)
             (pre' ++ Closure c T inc (accumulate inc i) :: post) (w_click w) (w_started w)).
    assert (Hstep : run_timer w = updateCounter k' w0).
    { unfold run_timer. by rewrite Ht. }
    destruct (updateCounter_other c k' w0 Hk') as (Hd & extra & Htm & Hex).
    rewrite <- Hstep in Hd, Htm. cbn [w_timers w0] in Htm.
    assert (Hd' : displayed c (run_timer w) = displayed c w) by (rewrite Hd; reflexivity).
    assert (Hshow' : shows c (stage_value T inc N i) (run_timer w)).
    { unfold shows in *. congruence. }
    rewrite <- app_assoc in Htm. cbn [app] in Htm.
    destruct (IHpre (post ++ extra) (run_timer w) Hfuel Hi Htm Hpre'
                ltac:(by apply Forall_app) Hshow') as (n & Hidle & Hfin & Htrace).
    exists (S n). split; [exact Hidle|]. split; [exact Hfin|].
    intros [|m] Hm.
    + exists i, i. cbn [run_timers] in *. rewrite Ht.
      split_and!; [lia | lia | lia | lia | assumption | assumption | by left |].
      apply elem_of_app. right. by left.
    + destruct (Htrace m ltac:(lia)) as (i1 & i2 & ? & ? & ? & ? & ? & ? & ?).
      exists i1, i2. split_and!; try lia; assumption.
Qed.

End Chain.

Section Start.

Variable StringToNumber : string → number.
Variables (c : elem) (T inc : number) (N : nat).
Hypothesis HN : 1 ≤ N.
Hypothesis Hstop : lt (accumulate inc N) T = false.
Hypothesis Hrun : ∀ i, 1 ≤ i < N → lt (accumulate inc i) T = true.

(** Entries for other targets leave [c] and its callbacks alone. *)
Lemma counterObserver_entry_other w en :
  entry_target en ≠ c →
  displayed c (counterObserver_entry StringToNumber w en) = displayed c w ∧
  ∃ extra, w_timers (counterObserver_entry StringToNumber w en) = w_timers w ++ extra ∧
           Forall (λ k, counter k ≠ c) extra.
Proof.
  intros Hne. unfold counterObserver_entry.
  destruct (isIntersecting en).
  - destruct (updateCounter_other c (new_closure StringToNumber (entry_target en) w)
               (note_started (entry_target en) w) Hne) as (Hd & extra & Ht & Hex).
    split; [exact Hd|]. exists extra. split; [exact Ht | exact Hex].
  - split; [reflexivity|]. exists []. split; [by rewrite app_nil_r | constructor].
Qed.

Lemma counterObserver_callback_other es : ∀ w,
  Forall (λ en, entry_target en ≠ c) es →
  displayed c (counterObserver_callback StringToNumber es w) = displayed c w ∧
  ∃ extra, w_timers (counterObserver_callback StringToNumber es w) = w_timers w ++ extra ∧
           Forall (λ k, counter k ≠ c) extra.
Proof.
  unfold counterObserver_callback.
  induction es as [|en es IH]; intros w Hes; cbn [foldl].
  - split; [reflexivity|]. exists []. split; [by rewrite app_nil_r | constructor].
  - inversion Hes as [|? ? Hen Hes']; subst.
    destruct (counterObserver_entry_other w en Hen) as (Hd & extra & Ht & Hex).
    destruct (IH (counterObserver_entry StringToNumber w en) Hes') as (Hd' & extra' & Ht' & Hex').
    split; [congruence|]. exists (extra ++ extra').
    split; [rewrite Ht', Ht, app_assoc; reflexivity | by apply Forall_app].
Qed.

End Start.

Section Animation.

Variable StringToNumber : string → number.
Variables (c : elem) (el : element) (w : world) (es : list entry) (N : nat).
Hypothesis Hel : w_dom w !! c = Some el.
Hypothesis HN : 1 ≤ N.
Hypothesis Hstop :
  lt (accumulate (div (to_number StringToNumber (data_target el)) totalSteps) N)
     (to_number StringToNumber (data_target el)) = false.
Hypothesis Hrun : ∀ i, 1 ≤ i < N →
  lt (accumulate (div (to_number StringToNumber (data_target el)) totalSteps) i)
     (to_number StringToNumber (data_target el)) = true.

Lemma new_closure_eq :
  new_closure StringToNumber c w =
  Closure c (to_number StringToNumber (data_target el))
          (div (to_number StringToNumber (data_target el)) totalSteps)
          (accumulate (div (to_number StringToNumber (data_target el)) totalSteps) 0).
Proof. unfold new_closure, getAttribute_data_target. rewrite Hel. reflexivity. Qed.

(** The first call, made by the watcher's callback itself. *)
Lemma first_call :
  let T := to_number StringToNumber (data_target el) in
  let inc := div T totalSteps in
  let w0 := counterObserver_entry StringToNumber w (Entry c true) in
  shows c (stage_value T inc N 1) w0 ∧
  w_timers w0 = w_timers w ++ (if bool_decide (1 < N) then [Closure c T inc (accumulate inc 1)] else []) ∧
  w_counterObserver w0 = w_counterObserver w ∖ {[c]} ∧
  w_started w0 = w_started w ++ [c].
Proof.
  intros T inc w0. unfold w0, counterObserver_entry. cbn [isIntersecting entry_target].
  rewrite new_closure_eq. fold T. fold inc.
  destruct (updateCounter_own c T inc N HN Hstop Hrun (note_started c w) 0) as [Hs Ht].
  - unfold displayed, note_started. cbn [w_dom]. rewrite Hel. by eexists.
  - lia.
  - split; [exact Hs|]. split; [exact Ht|].
    unfold unobserve. cbn [w_counterObserver w_started].
    destruct (updateCounter_frame (Closure c T inc (accumulate inc 0)) (note_started c w))
      as (_ & -> & _ & ->). done.
Qed.

Lemma animation_starts :
  idle c w → Forall (λ en, entry_target en ≠ c) es →
  let T := to_number StringToNumber (data_target el) in
  let inc := div T totalSteps in
  let w1 := counterObserver_callback StringToNumber (Entry c true :: es) w in
  shows c (stage_value T inc N 1) w1 ∧
  ∃ pre post, w_timers w1 = pre ++ (if bool_decide (1 < N) then [Closure c T inc (accumulate inc 1)] else []) ++ post ∧
    Forall (λ k, counter k ≠ c) pre ∧ Forall (λ k, counter k ≠ c) post.
Proof.
  intros Hidle Hes T inc w1.
  destruct first_call as (Hs & Ht & _). fold T inc in Hs, Ht.
  destruct (counterObserver_callback_other StringToNumber c es
              (counterObserver_entry StringToNumber w (Entry c true)) Hes)
    as (Hd & extra & Ht' & Hex).
  change (counterObserver_callback StringToNumber es
            (counterObserver_entry StringToNumber w (Entry c true))) with w1 in Hd, Ht'.
  split; [unfold shows in *; congruence|].
  exists (w_timers w), extra. rewrite Ht', Ht, <- app_assoc. done.
Qed.

(** The animation of [c] runs to completion, whatever callbacks of
    other counters are pending. *)
Lemma animation_completes :
  idle c w → Forall (λ en, entry_target en ≠ c) es →
  let T := to_number StringToNumber (data_target el) in
  let inc := div T totalSteps in
  let w1 := counterObserver_callback StringToNumber (Entry c true :: es) w in
  ∃ n, idle c (run_timers n w1) ∧ shows c T (run_timers n w1) ∧
    shows c (stage_value T inc N 1) w1 ∧
    ∀ m, m < n → ∃ i1 i2, 1 ≤ i1 ∧ i1 < N ∧ i1 ≤ i2 ≤ N ∧
      shows c (stage_value T inc N i1) (run_timers m w1) ∧
      shows c (stage_value T inc N i2) (run_timers (S m) w1) ∧
      (i2 = i1 ∨ i2 = S i1) ∧
      Closure c T inc (accumulate inc i1) ∈ w_timers (run_timers m w1).
Proof.
  intros Hidle Hes T inc w1.
  destruct (animation_starts Hidle Hes) as (Hs & pre & post & Ht & Hpre & Hpost).
  fold T inc w1 in Hs, Ht.
  case_bool_decide as Hlt.
  - destruct (chain_runs c T inc N HN Hstop Hrun (N - 1) 1 pre post w1 ltac:(lia) ltac:(lia)
                Ht Hpre Hpost Hs) as (n & Hidle' & Hfin & Htrace).
    exists n. done.
  - assert (N = 1) as HN1 by lia.
    exists 0. cbn [run_timers]. split; [|split; [|split]].
    + unfold idle. rewrite Ht. cbn [app]. by apply Forall_app.
    + unfold stage_value in Hs. rewrite HN1 in Hs. exact Hs.
    + exact Hs.
    + intros m Hm. lia.
Qed.

(** With no other callback pending, the [j]-th timer callback is the
    animation's call number [j + 1]. *)
Lemma animation_isolated :
  w_timers w = [] →
  let T := to_number StringToNumber (data_target el) in
  let inc := div T totalSteps in
  let w1 := counterObserver_callback StringToNumber [Entry c true] w in
  ∀ j, j < N →
    shows c (stage_value T inc N (S j)) (run_timers j w1) ∧
    w_timers (run_timers j w1) =
      (if bool_decide (S j < N) then [Closure c T inc (accumulate inc (S j))] else []).
Proof.
  intros Hw T inc w1.
  assert (Hgen : ∀ j ws, S j ≤ N →
    shows c (stage_value T inc N (S j)) ws →
    w_timers ws = (if bool_decide (S j < N) then [Closure c T inc (accumulate inc (S j))] else []) →
    ∀ m, j + m < N →
      shows c (stage_value T inc N (S (j + m))) (run_timers m ws) ∧
      w_timers (run_timers m ws) =
        (if bool_decide (S (j + m) < N) then [Closure c T inc (accumulate inc (S (j + m)))] else [])).
  { intros j ws Hj Hs Ht m. revert j ws Hj Hs Ht.
    induction m as [|m IH]; intros j ws Hj Hs Ht Hm.
    - rewrite Nat.add_0_r. done.
    - rewrite run_timers_S. rewrite bool_decide_eq_true_2 in Ht by lia.
      destruct (fire_own c T inc N HN Hstop Hrun ws [] (S j) Ht
                  ltac:(unfold shows in Hs; by rewrite Hs) ltac:(lia)) as [Hs' Ht'].
      cbn [app] in Ht'.
      replace (j + S m) with (S j + m) by lia.
      apply IH; [lia | assumption | assumption | lia]. }
  intros j Hj.
  destruct first_call as (Hs & Ht & _). fold T inc in Hs, Ht. rewrite Hw in Ht. cbn [app] in Ht.
  apply (Hgen 0 w1 ltac:(lia) Hs Ht j ltac:(lia)).
Qed.

End Animation.

(** ** Class lists *)

Lemma classList_add_elem tok tok' cl :
  tok' ∈ classList_add tok cl ↔ tok' = tok ∨ tok' ∈ cl.
Proof.
  unfold classList_add. case_bool_decide as Hin.
  - split; [by right | intros [-> | ?]; done].
  - rewrite elem_of_app, list_elem_of_singleton. tauto.
Qed.

Lemma classList_add_NoDup tok cl : NoDup cl → NoDup (classList_add tok cl).
Proof.
  intros Hnd. unfold classList_add. case_bool_decide as Hin; [done|].
  apply NoDup_app. split; [done|]. split; [|apply NoDup_singleton].
  intros x Hx ->%list_elem_of_singleton. done.
Qed.

Lemma classList_add_present tok cl : tok ∈ cl → classList_add tok cl = cl.
Proof. intros Hin. unfold classList_add. by rewrite bool_decide_eq_true_2. Qed.

Lemma classList_toggle_elem tok tok' cl :
  tok' ∈ classList_toggle tok cl ↔ (tok' = tok ∧ tok ∉ cl) ∨ (tok' ≠ tok ∧ tok' ∈ cl).
Proof.
  unfold classList_toggle. case_bool_decide as Hin.
  - rewrite list_elem_of_filter. split.
    + intros [Hne Hel]. by right.
    + intros [[-> Hn] | [Hne Hel]]; done.
  - rewrite elem_of_app, list_elem_of_singleton. split.
    + intros [Hel | ->]; [right | left]; [|done]. split; [|done]. by intros ->.
    + intros [[-> _] | [_ Hel]]; [by right | by left].
Qed.

Lemma classList_toggle_NoDup tok cl : NoDup cl → NoDup (classList_toggle tok cl).
Proof.
  intros Hnd. unfold classList_toggle. case_bool_decide as Hin.
  - by apply NoDup_filter.
  - apply NoDup_app. split; [done|]. split; [|apply NoDup_singleton].
    intros x Hx ->%list_elem_of_singleton. done.
Qed.

(** ** The class list of an element under the handlers *)

(** The class list of element [e], when it exists. *)
Lemma classes_on_element_innerText e c t w :
  (classList <$> w_dom (on_element c (set_innerText t) w) !! e) = (classList <$> w_dom w !! e).
Proof.
  unfold on_element, with_dom. cbn [w_dom].
  destruct (decide (c = e)) as [-> | Hne].
  - rewrite list_lookup_alter_eq. by destruct (w_dom w !! e).
  - by rewrite list_lookup_alter_ne.
Qed.

Lemma classes_updateCounter e k w :
  (classList <$> w_dom (updateCounter k w) !! e) = (classList <$> w_dom w !! e).
Proof.
  unfold updateCounter.
  destruct (lt (add (current k) (increment k)) (target k)).
  - unfold setTimeout. cbn [w_dom]. apply classes_on_element_innerText.
  - apply classes_on_element_innerText.
Qed.

Lemma classes_run_timer e w :
  (classList <$> w_dom (run_timer w) !! e) = (classList <$> w_dom w !! e).
Proof.
  unfold run_timer. destruct (w_timers w) as [|k rest]; [done|].
  by rewrite classes_updateCounter.
Qed.

Section Handlers.

Variable StringToNumber : string → number.

Lemma classes_counterObserver_entry e w en :
  (classList <$> w_dom (counterObserver_entry StringToNumber w en) !! e) = (classList <$> w_dom w !! e).
Proof.
  unfold counterObserver_entry. destruct (isIntersecting en); [|done].
  unfold unobserve. cbn [w_dom]. by rewrite classes_updateCounter.
Qed.

Lemma classes_counterObserver_callback e es : ∀ w,
  (classList <$> w_dom (counterObserver_callback StringToNumber es w) !! e) = (classList <$> w_dom w !! e).
Proof.
  unfold counterObserver_callback. induction es as [|en es IH]; intros w; [done|].
  cbn [foldl]. by rewrite IH, classes_counterObserver_entry.
Qed.

End Handlers.

Lemma classes_observer_entry e w en :
  (classList <$> w_dom (observer_entry w en) !! e) =
  (if bool_decide (isIntersecting en = true ∧ entry_target en = e)
   then classList_add "visible" <$> (classList <$> w_dom w !! e)
   else classList <$> w_dom w !! e).
Proof.
  unfold observer_entry. destruct (isIntersecting en).
  - unfold on_element, with_dom. cbn [w_dom].
    destruct (decide (entry_target en = e)) as [-> | Hne].
    + rewrite bool_decide_eq_true_2 by done.
      rewrite list_lookup_alter_eq. by destruct (w_dom w !! e).
    + rewrite bool_decide_eq_false_2 by (intros [_ ?]; done).
      by rewrite list_lookup_alter_ne.
  - by rewrite bool_decide_eq_false_2 by (intros [? _]; done).
Qed.

(** The reveal watcher's callback keeps every class of every element and
    keeps class lists free of duplicates. *)
Lemma observer_callback_classes e es : ∀ w cl,
  (classList <$> w_dom w !! e) = Some cl →
  ∃ cl', (classList <$> w_dom (observer_callback es w) !! e) = Some cl' ∧
    (∀ tok, tok ∈ cl' ↔ tok ∈ cl ∨ (tok = "visible" ∧ Entry e true ∈ es)) ∧
    (NoDup cl → NoDup cl').
Proof.
  unfold observer_callback. induction es as [|en es IH]; intros w cl Hcl; cbn [foldl].
  - exists cl. split; [done|]. split; [|done]. intros tok. split; [by left|].
    intros [? | [_ Hin]]; [done|]. by apply elem_of_nil in Hin.
  - pose proof (classes_observer_entry e w en) as Hen. rewrite Hcl in Hen.
    case_bool_decide as Hcase.
    + destruct Hcase as [Hi <-]. cbn [fmap option_fmap option_map] in Hen.
      destruct (IH _ _ Hen) as (cl' & Hcl' & Hiff & Hnd).
      exists cl'. split; [done|]. split.
      * intros tok. rewrite Hiff, classList_add_elem, elem_of_cons.
        destruct en as [tgt b]. cbn in *. subst b. naive_solver.
      * intros H. apply Hnd. by apply classList_add_NoDup.
    + destruct (IH _ _ Hen) as (cl' & Hcl' & Hiff & Hnd).
      exists cl'. split; [done|]. split; [|done].
      intros tok. rewrite Hiff, elem_of_cons.
      destruct en as [tgt b]. cbn in *. naive_solver.
Qed.

(** ** What each handler leaves unchanged *)

Lemma observer_callback_frame es : ∀ w,
  w_observer (observer_callback es w) = w_observer w ∧
  w_counterObserver (observer_callback es w) = w_counterObserver w ∧
  w_timers (observer_callback es w) = w_timers w ∧
  w_click (observer_callback es w) = w_click w ∧
  w_started (observer_callback es w) = w_started w.
Proof.
  unfold observer_callback. induction es as [|en es IH]; intros w; [done|].
  cbn [foldl]. destruct (IH (observer_entry w en)) as (-> & -> & -> & -> & ->).
  unfold observer_entry. by destruct (isIntersecting en).
Qed.

Lemma run_timer_frame w :
  w_observer (run_timer w) = w_observer w ∧
  w_counterObserver (run_timer w) = w_counterObserver w ∧
  w_click (run_timer w) = w_click w ∧
  w_started (run_timer w) = w_started w.
Proof.
  unfold run_timer. destruct (w_timers w) as [|k rest]; [done|].
  apply (updateCounter_frame k
    (World (w_dom w) (w_observer w) (w_counterObserver w) rest (w_click w) (w_started w))).
Qed.

Lemma started_snoc c t w l :
  w_started w = l ++ [t] →
  started c w = length (filter (λ x, x = c) l) + (if bool_decide (t = c) then 1 else 0).
Proof.
  intros Hl. unfold started. rewrite Hl, filter_app, length_app. f_equal.
  rewrite filter_cons, filter_nil. by case_bool_decide; case_decide.
Qed.

Section Watcher.

Variable StringToNumber : string → number.

Lemma counterObserver_entry_frame w en :
  w_observer (counterObserver_entry StringToNumber w en) = w_observer w ∧
  w_click (counterObserver_entry StringToNumber w en) = w_click w ∧
  w_counterObserver (counterObserver_entry StringToNumber w en) =
    (if isIntersecting en then w_counterObserver w ∖ {[entry_target en]} else w_counterObserver w) ∧
  w_started (counterObserver_entry StringToNumber w en) =
    (if isIntersecting en then w_started w ++ [entry_target en] else w_started w).
Proof.
  unfold counterObserver_entry. destruct (isIntersecting en); [|done].
  unfold unobserve. cbn [w_observer w_click w_counterObserver w_started].
  destruct (updateCounter_frame (new_closure StringToNumber (entry_target en) w)
              (note_started (entry_target en) w)) as (-> & -> & -> & ->).
  done.
Qed.

Lemma counterObserver_callback_frame es : ∀ w,
  w_observer (counterObserver_callback StringToNumber es w) = w_observer w ∧
  w_click (counterObserver_callback StringToNumber es w) = w_click w ∧
  w_counterObserver (counterObserver_callback StringToNumber es w) ⊆ w_counterObserver w.
Proof.
  unfold counterObserver_callback. induction es as [|en es IH]; intros w; [done|].
  cbn [foldl]. destruct (IH (counterObserver_entry StringToNumber w en)) as (-> & -> & Hsub).
  destruct (counterObserver_entry_frame w en) as (-> & -> & Hco & _).
  split; [done|]. split; [done|]. rewrite Hco in Hsub.
  destruct (isIntersecting en); set_solver.
Qed.

(** An intersecting entry unregisters its target, and nothing in the
    callback registers a target again. *)
Lemma counterObserver_callback_unobserves c es : ∀ w,
  Entry c true ∈ es → c ∉ w_counterObserver (counterObserver_callback StringToNumber es w).
Proof.
  unfold counterObserver_callback. induction es as [|en es IH]; intros w Hin.
  - by apply elem_of_nil in Hin.
  - cbn [foldl]. apply elem_of_cons in Hin as [<- | Hin]; [|by apply IH].
    pose proof (counterObserver_callback_frame es
                  (counterObserver_entry StringToNumber w (Entry c true))) as (_ & _ & Hsub).
    unfold counterObserver_callback in Hsub.
    destruct (counterObserver_entry_frame w (Entry c true)) as (_ & _ & Hco & _).
    cbn [isIntersecting entry_target] in Hco. set_solver.
Qed.

(** Entries for other targets do not start the animation of [c]. *)
Lemma counterObserver_callback_started_other c es : ∀ w,
  Forall (λ en, entry_target en ≠ c) es →
  started c (counterObserver_callback StringToNumber es w) = started c w.
Proof.
  unfold counterObserver_callback. induction es as [|en es IH]; intros w Hes; [done|].
  inversion Hes as [|? ? Hen Hes']; subst. cbn [foldl]. rewrite IH by done.
  destruct (counterObserver_entry_frame w en) as (_ & _ & _ & Hst).
  destruct (isIntersecting en).
  - rewrite (started_snoc c (entry_target en) _ (w_started w) Hst).
    rewrite bool_decide_eq_false_2 by done. unfold started. lia.
  - unfold started. by rewrite Hst.
Qed.

(** *** Events *)

Lemma handle_click_frame ev w w1 :
  handle StringToNumber ev w = Normal w1 → w_click w1 = w_click w.
Proof.
  destruct ev as [es | es | |]; cbn [handle]; intros Hh.
  - simplify_eq. by destruct (observer_callback_frame es w) as (_ & _ & _ & ? & _).
  - simplify_eq. by destruct (counterObserver_callback_frame es w) as (_ & ? & _).
  - simplify_eq. by destruct (run_timer_frame w) as (_ & _ & ? & _).
  - unfold click in Hh. destruct (w_click w) as [[menu|]|] eqn:Hc; try discriminate;
      by simplify_eq.
Qed.

(** The classes of an element after one event. *)
Lemma handle_classes e ev w w1 cl :
  handle StringToNumber ev w = Normal w1 →
  (classList <$> w_dom w !! e) = Some cl →
  ∃ cl', (classList <$> w_dom w1 !! e) = Some cl' ∧ (NoDup cl → NoDup cl') ∧
    match ev with
    | ObserverNotify es => ∀ tok, tok ∈ cl' ↔ tok ∈ cl ∨ (tok = "visible" ∧ Entry e true ∈ es)
    | Click =>
        if bool_decide (w_click w = Some (Some e))
        then cl' = classList_toggle "active" cl
        else cl' = cl
    | _ => cl' = cl
    end.
Proof.
  destruct ev as [es | es | |]; cbn [handle]; intros Hh Hcl.
  - simplify_eq. destruct (observer_callback_classes e es w cl Hcl) as (cl' & ? & ? & ?).
    by exists cl'.
  - simplify_eq. exists cl. by rewrite classes_counterObserver_callback.
  - simplify_eq. exists cl. by rewrite classes_run_timer.
  - unfold click in Hh. destruct (w_click w) as [[menu|]|] eqn:Hclick; try discriminate.
    + simplify_eq. unfold on_element, with_dom. cbn [w_dom].
      destruct (decide (menu = e)) as [-> | Hne].
      * rewrite bool_decide_eq_true_2 by done. rewrite list_lookup_alter_eq.
        destruct (w_dom w !! e) as [el|]; [|discriminate]. cbn in Hcl. simplify_eq.
        eexists. split; [reflexivity|]. split; [apply classList_toggle_NoDup | done].
      * rewrite bool_decide_eq_false_2 by congruence. rewrite list_lookup_alter_ne by done.
        by exists cl.
    + simplify_eq. rewrite bool_decide_eq_false_2 by congruence. by exists cl.
Qed.

End Watcher.

(** ** Selectors *)

Lemma querySelectorAll_spec cls (d : list element) i :
  i ∈ querySelectorAll cls d ↔ ∃ el, d !! i = Some el ∧ cls ∈ classList el.
Proof.
  unfold querySelectorAll. rewrite list_elem_of_bind. split.
  - intros ([j el] & Hin & Hp). apply elem_of_lookup_imap in Hp as (j' & el' & Heq & Hl).
    simplify_eq. cbn in Hin. case_bool_decide as Hc; [|by apply elem_of_nil in Hin].
    apply list_elem_of_singleton in Hin as ->. by exists el'.
  - intros (el & Hl & Hc). exists (i, el). split.
    + cbn. rewrite bool_decide_eq_true_2 by done. by apply list_elem_of_singleton.
    + apply elem_of_lookup_imap. by exists i, el.
Qed.

Lemma querySelector_Some cls (d : list element) i :
  querySelector cls d = Some i → ∃ el, d !! i = Some el ∧ cls ∈ classList el.
Proof.
  unfold querySelector. intros Hh. apply querySelectorAll_spec.
  destruct (querySelectorAll cls d) as [|j l]; [discriminate|].
  cbn in Hh. simplify_eq. by left.
Qed.

Lemma querySelector_None cls (d : list element) :
  querySelector cls d = None ↔ ∀ i el, d !! i = Some el → cls ∉ classList el.
Proof.
  unfold querySelector. split.
  - intros Hh i el Hl Hc.
    assert (Hin : i ∈ querySelectorAll cls d) by (apply querySelectorAll_spec; eauto).
    destruct (querySelectorAll cls d); [by apply elem_of_nil in Hin | discriminate].
  - intros Hall. destruct (querySelectorAll cls d) as [|j l] eqn:Hq; [done|].
    assert (Hin : j ∈ querySelectorAll cls d) by (rewrite Hq; by left).
    apply querySelectorAll_spec in Hin as (el & Hl & Hc). by destruct (Hall j el Hl).
Qed.

Section Traces.

Variable StringToNumber : string → number.

Lemma has_class_classes cls e w cl :
  (classList <$> w_dom w !! e) = Some cl → has_class cls e w = bool_decide (cls ∈ cl).
Proof.
  unfold has_class. destruct (w_dom w !! e) as [el|]; [|discriminate].
  cbn. by intros [= <-].
Qed.

(** *** The menu marker changes with clicks and with nothing else *)

Lemma menu_state_run menu w evs w' :
  run StringToNumber w evs w' →
  w_click w = Some (Some menu) → is_Some (w_dom w !! menu) →
  w_click w' = Some (Some menu) ∧ is_Some (w_dom w' !! menu) ∧
  has_class "active" menu w' = xorb (has_class "active" menu w) (Nat.odd (clicks evs)).
Proof.
  induction 1 as [w | w ev w1 evs w2 Hdel Hh Hrun IH]; intros Hclick Hsome.
  - split; [done|]. split; [done|]. cbn. by rewrite xorb_false_r.
  - destruct Hsome as [el Hel].
    assert (Hcl : (classList <$> w_dom w !! menu) = Some (classList el)) by (by rewrite Hel).
    destruct (handle_classes StringToNumber menu ev w w1 _ Hh Hcl) as (cl' & Hcl' & _ & Hev).
    pose proof (handle_click_frame StringToNumber ev w w1 Hh) as Hclick1.
    destruct IH as (Hc2 & Hs2 & Hact).
    { congruence. }
    { destruct (w_dom w1 !! menu); [by eexists | discriminate]. }
    split; [done|]. split; [done|]. rewrite Hact.
    rewrite (has_class_classes _ _ _ _ Hcl), (has_class_classes _ _ _ _ Hcl').
    destruct ev as [es | es | |]; cbn [clicks].
    + f_equal. apply bool_decide_ext. rewrite Hev. split; [|tauto].
      intros [? | [Heq _]]; [done | discriminate Heq].
    + by subst cl'.
    + by subst cl'.
    + rewrite bool_decide_eq_true_2 in Hev by done. subst cl'.
      rewrite Nat.odd_succ, <- Nat.negb_odd.
      assert (Ht : bool_decide ("active" ∈ classList_toggle "active" (classList el))
                   = negb (bool_decide ("active" ∈ classList el))).
      { destruct (decide ("active" ∈ classList el)) as [Hin | Hnin].
        - rewrite (bool_decide_eq_true_2 _ Hin). cbn. apply bool_decide_eq_false_2.
          rewrite classList_toggle_elem. intros [[_ ?] | [? _]]; done.
        - rewrite (bool_decide_eq_false_2 _ Hnin). cbn. apply bool_decide_eq_true_2.
          rewrite classList_toggle_elem. by left. }
      rewrite Ht.
      destruct (bool_decide ("active" ∈ classList el)), (Nat.odd (clicks evs)); reflexivity.
Qed.

(** *** The visible marker is never removed *)

Lemma visible_run e w evs w' :
  run StringToNumber w evs w' →
  ∀ cl, (classList <$> w_dom w !! e) = Some cl →
  ∃ cl', (classList <$> w_dom w' !! e) = Some cl' ∧ (NoDup cl → NoDup cl') ∧
    ("visible" ∈ cl ∨ (∃ es, ObserverNotify es ∈ evs ∧ Entry e true ∈ es) → "visible" ∈ cl').
Proof.
  induction 1 as [w | w ev w1 evs w2 Hdel Hh Hrun IH]; intros cl Hcl.
  - exists cl. split; [done|]. split; [done|].
    intros [? | (es & Hin & _)]; [done | by apply elem_of_nil in Hin].
  - destruct (handle_classes StringToNumber e ev w w1 cl Hh Hcl) as (cl1 & Hcl1 & Hnd1 & Hev).
    destruct (IH cl1 Hcl1) as (cl' & Hcl' & Hnd' & Hvis).
    exists cl'. split; [done|]. split; [auto|].
    intros Hpre. apply Hvis.
    assert (Hkeep : "visible" ∈ cl → "visible" ∈ cl1).
    { intros Hin. destruct ev as [es | es | |]; try (by subst cl1).
      - apply Hev. by left.
      - case_bool_decide; subst cl1; [|done].
        apply classList_toggle_elem. by right. }
    destruct Hpre as [Hin | (es & Hin & Hen)]; [left; auto|].
    apply elem_of_cons in Hin as [<- | Hin]; [|right; eauto].
    left. apply Hev. by right.
Qed.

(** *** Animations are started once *)

Lemma unobserved_run c w evs w' :
  run StringToNumber w evs w' →
  c ∉ w_counterObserver w →
  c ∉ w_counterObserver w' ∧ started c w' = started c w.
Proof.
  induction 1 as [w | w ev w1 evs w2 Hdel Hh Hrun IH]; intros Hc; [done|].
  assert (Hstep : c ∉ w_counterObserver w1 ∧ started c w1 = started c w).
  { destruct ev as [es | es | |]; cbn [handle delivered] in *.
    - simplify_eq. destruct (observer_callback_frame es w) as (_ & Hco & _ & _ & Hst).
      unfold started. by rewrite Hco, Hst.
    - simplify_eq. split.
      + destruct (counterObserver_callback_frame StringToNumber es w) as (_ & _ & Hsub).
        set_solver.
      + apply counterObserver_callback_started_other. apply Forall_forall.
        intros en Hen Heq. apply Hc. rewrite <- Heq. by apply Hdel.
    - simplify_eq. destruct (run_timer_frame w) as (_ & Hco & _ & Hst).
      unfold started. by rewrite Hco, Hst.
    - unfold click in Hh. destruct (w_click w) as [[menu|]|]; by simplify_eq. }
  destruct Hstep as [Hc1 Hs1]. destruct (IH Hc1) as [Hc2 Hs2]. split; [done | congruence].
Qed.

Lemma counterObserver_callback_once es : ∀ w,
  NoDup (entry_target <$> es) →
  (∀ en, en ∈ es → entry_target en ∈ w_counterObserver w) →
  started_once w → started_once (counterObserver_callback StringToNumber es w).
Proof.
  unfold counterObserver_callback. induction es as [|en es IH]; intros w Hnd Hobs Hinv; [done|].
  cbn [foldl]. rewrite fmap_cons in Hnd. apply NoDup_cons in Hnd as [Hnin Hnd].
  destruct (counterObserver_entry_frame StringToNumber w en) as (_ & _ & Hco & Hst).
  apply IH; [done | |].
  - intros en' Hen'. rewrite Hco.
    assert (entry_target en' ≠ entry_target en).
    { intros Heq. apply Hnin. rewrite <- Heq. by apply list_elem_of_fmap_2. }
    assert (entry_target en' ∈ w_counterObserver w) by (apply Hobs; by right).
    destruct (isIntersecting en); set_solver.
  - intros c. destruct (Hinv c) as [Hle Hz].
    destruct (isIntersecting en) eqn:Hi.
    + rewrite (started_snoc c (entry_target en) _ (w_started w) Hst), Hco.
      fold (started c w).
      case_bool_decide as Hc.
      * subst c. assert (started (entry_target en) w = 0) by (apply Hz, Hobs; by left).
        split; [lia | set_solver].
      * split; [lia|]. intros Hin. rewrite Hz by set_solver. lia.
    + unfold started in *. rewrite Hst, Hco. done.
Qed.

Lemma started_once_run w evs w' :
  run StringToNumber w evs w' →
  Forall distinct_targets evs →
  started_once w → started_once w'.
Proof.
  induction 1 as [w | w ev w1 evs w2 Hdel Hh Hrun IH]; intros Hd Hinv; [done|].
  inversion Hd as [|? ? Hd1 Hd2]; subst. apply IH; [done|].
  destruct ev as [es | es | |]; cbn [handle delivered distinct_targets] in *.
  - simplify_eq. destruct (observer_callback_frame es w) as (_ & Hco & _ & _ & Hst).
    intros c. unfold started. rewrite Hco, Hst. apply Hinv.
  - simplify_eq. by apply counterObserver_callback_once.
  - simplify_eq. destruct (run_timer_frame w) as (_ & Hco & _ & Hst).
    intros c. unfold started. rewrite Hco, Hst. apply Hinv.
  - unfold click in Hh. destruct (w_click w) as [[menu|]|]; by simplify_eq.
Qed.

End Traces.

Lemma is_integer_finite T : is_integer T = true → is_finite T = true.
Proof.
  destruct T as [| | |s m e]; try done. cbn. by intros [? _]%andb_true_iff.
Qed.

Lemma le_refl_finite T : is_finite T = true → le T T = true.
Proof. intros HT. rewrite le_nval by done. apply Z.leb_refl. Qed.

Lemma run_timers_frame n : ∀ w,
  w_counterObserver (run_timers n w) = w_counterObserver w ∧
  w_started (run_timers n w) = w_started w.
Proof.
  induction n as [|n IH]; intros w; [done|]. rewrite run_timers_S.
  destruct (IH (run_timer w)) as [-> ->].
  by destruct (run_timer_frame w) as (_ & -> & _ & ->).
Qed.

(** Before the comparison fails, the accumulator only grows. *)
Lemma accumulate_mono (T inc : number) (N : nat) :
  (∀ i, 1 ≤ i < N → (nval (accumulate inc (i - 1)) < nval (accumulate inc i))%Z) →
  ∀ i2 i1, 1 ≤ i1 → i1 ≤ i2 → i2 < N →
    (nval (accumulate inc i1) <= nval (accumulate inc i2))%Z.
Proof.
  intros Hstep. induction i2 as [|i2 IH]; intros i1 H1 H12 H2; [lia|].
  destruct (decide (i1 = S i2)) as [-> | Hne]; [lia|].
  specialize (IH i1 H1 ltac:(lia) ltac:(lia)).
  specialize (Hstep (S i2) ltac:(lia)). replace (S i2 - 1) with i2 in Hstep by lia. lia.
Qed.

(** A positive number whose value is a whole multiple of 1 is an
    integer. *)
Lemma pos_multiple_is_integer x z :
  is_pos_finite x = true → (nval x = z * 2 ^ 1074)%Z → is_integer x = true.
Proof.
  intros (m & e & -> & Hb & _)%is_pos_finite_inv. cbn [nval cond_Zopp is_integer]. unfold mag.
  intros Hz. rewrite Hb. cbn [andb].
  pose proof (bounded_digits _ _ Hb) as (He & _).
  destruct (Z.leb_spec 0 e) as [Hpos | Hneg]; [done|]. cbn [orb].
  apply Z.eqb_eq.
  assert (H2 : (2 ^ 1074 = 2 ^ (- e) * 2 ^ (e + 1074))%Z).
  { rewrite <- pow2_add by lia. f_equal. lia. }
  rewrite H2 in Hz.
  assert (Hm : (Z.pos m = z * 2 ^ (- e))%Z).
  { pose proof (pow2_pos (e + 1074) ltac:(lia)).
    apply (Z.mul_cancel_r _ _ (2 ^ (e + 1074))%Z); [lia|]. rewrite Hz. ring. }
  rewrite Hm. apply Z.mod_mul. pose proof (pow2_pos (- e) ltac:(lia)). lia.
Qed.

Lemma ceil_is_integer x : is_pos_finite x = true → is_integer (ceil x) = true.
Proof.
  intros Hp. destruct (ceil_spec x Hp) as (Hcp & z & Hz & _).
  by apply (pos_multiple_is_integer _ z).
Qed.

(** An element with a pending callback is not idle. *)
Lemma pending_not_idle c T inc cur w :
  Closure c T inc cur ∈ w_timers w → ¬ idle c w.
Proof.
  intros Hin Hidle. unfold idle in Hidle. rewrite Forall_forall in Hidle.
  by apply (Hidle _ Hin).
Qed.

Section CounterClaims.

Variable StringToNumber : string → number.

(** The comparison fails at the first call: the target is written at
    once and no timer is set. *)
Lemma immediate_display c el w T :
  w_dom w !! c = Some el →
  to_number StringToNumber (data_target el) = T →
  lt (accumulate (div T totalSteps) 1) T = false →
  shows c T (counterObserver_callback StringToNumber [Entry c true] w) ∧
  w_timers (counterObserver_callback StringToNumber [Entry c true] w) = w_timers w.
Proof.
  intros Hel HT Hstop. subst T.
  destruct (first_call StringToNumber c el w 1 Hel ltac:(lia) Hstop ltac:(intros; lia))
    as (Hs & Ht & _).
  cbn [bool_decide decide_rel] in Ht. rewrite bool_decide_eq_false_2 in Ht by lia.
  rewrite app_nil_r in Ht. split; [|exact Ht].
  unfold stage_value in Hs. cbn in Hs. exact Hs.
Qed.

(** C1. For every counter element whose target T is at least 1 (every
    integer target is finite), the animation started by its first
    qualifying intersection terminates: after finitely many timer
    callbacks the element shows T itself and none of its callbacks is
    pending, and this stays so whatever timers run afterwards.  Callbacks
    of other counters may be pending throughout. *)
Theorem counter_convergence c el w es T :
  w_dom w !! c = Some el →
  idle c w →
  Forall (λ en, entry_target en ≠ c) es →
  to_number StringToNumber (data_target el) = T →
  is_finite T = true →
  le (of_Z 1) T = true →
  ∃ n, ∀ m, n ≤ m →
    shows c T (run_timers m (counterObserver_callback StringToNumber (Entry c true :: es) w)) ∧
    idle c (run_timers m (counterObserver_callback StringToNumber (Entry c true :: es) w)).
Proof.
  intros Hel Hidle Hes HT Hfin Hge. subst T.
  destruct (accumulate_stops _ Hfin Hge) as (N & HN & Hstop & Hrun).
  destruct (animation_completes StringToNumber c el w es N Hel HN Hstop
              ltac:(intros i Hi; apply Hrun; done) Hidle Hes) as (n & Hi & Hs & _).
  exists n. intros m Hm. replace m with (n + (m - n)) by lia.
  rewrite run_timers_add.
  destruct (idle_run_timers c (m - n) _ Hi) as [Hi' Hd'].
  split; [|exact Hi']. unfold shows in *. congruence.
Qed.

(** C6. For every counter element with an integer target T >= 1, the
    values shown during the animation never decrease, never exceed T
    and end at T.  The animation ends after some number n of timer
    callbacks: from then on the element shows T and none of its
    callbacks is pending; before that its callback is pending, the
    value shown is the ceiling of the accumulator carried by that
    callback, an integer, and the next timer callback leaves it, or
    replaces it by the ceiling of the next accumulator or by T. *)
Theorem counter_monotone c el w es T :
  w_dom w !! c = Some el →
  idle c w →
  Forall (λ en, entry_target en ≠ c) es →
  to_number StringToNumber (data_target el) = T →
  is_integer T = true →
  le (of_Z 1) T = true →
  ∃ n,
    (∀ m, n ≤ m →
       shows c T (run_timers m (counterObserver_callback StringToNumber (Entry c true :: es) w)) ∧
       idle c (run_timers m (counterObserver_callback StringToNumber (Entry c true :: es) w))) ∧
    ∀ m, m < n → ∃ x y i,
      1 ≤ i ∧
      Closure c T (div T totalSteps) (accumulate (div T totalSteps) i) ∈
        w_timers (run_timers m (counterObserver_callback StringToNumber (Entry c true :: es) w)) ∧
      ¬ idle c (run_timers m (counterObserver_callback StringToNumber (Entry c true :: es) w)) ∧
      shows c x (run_timers m (counterObserver_callback StringToNumber (Entry c true :: es) w)) ∧
      shows c y (run_timers (S m) (counterObserver_callback StringToNumber (Entry c true :: es) w)) ∧
      x = ceil (accumulate (div T totalSteps) i) ∧
      is_integer x = true ∧
      (y = x ∨ y = ceil (accumulate (div T totalSteps) (S i)) ∨ y = T) ∧
      le x y = true ∧ le x T = true ∧ le y T = true.
Proof.
  intros Hel Hidle Hes HT Hint Hge. subst T.
  set (T := to_number StringToNumber (data_target el)) in *.
  pose proof (is_integer_finite T Hint) as Hfin.
  destruct (accumulate_stops T Hfin Hge) as (N & HN & Hstop & Hrun).
  destruct (animation_completes StringToNumber c el w es N Hel HN Hstop
              ltac:(intros i Hi; apply Hrun; done) Hidle Hes) as (n & Hi & Hs & _ & Htrace).
  fold T in Hs, Htrace.
  assert (Hbelow : ∀ i, 1 ≤ i < N →
            is_pos_finite (accumulate (div T totalSteps) i) = true ∧
            (nval (accumulate (div T totalSteps) i) < nval T)%Z).
  { intros i Hi'. destruct (Hrun i Hi') as (Hp & Hlt & _). split; [done|].
    rewrite lt_nval in Hlt by (first [done | apply is_pos_finite_finite; done]).
    by apply Z.ltb_lt in Hlt. }
  assert (Hceil_T : ∀ i, 1 ≤ i < N → le (ceil (accumulate (div T totalSteps) i)) T = true).
  { intros i Hi'. destruct (Hbelow i Hi'). by apply ceil_le_integer. }
  exists n. split.
  { intros m Hm. replace m with (n + (m - n)) by lia. rewrite run_timers_add.
    destruct (idle_run_timers c (m - n) _ Hi) as [Hi' Hd'].
    split; [|exact Hi']. unfold shows in *. congruence. }
  intros m Hm. destruct (Htrace m Hm) as (i1 & i2 & H1 & H1N & H12 & Hx & Hy & Hstep & Hin).
  rewrite (stage_value_running T _ N i1 H1N) in Hx.
  exists (ceil (accumulate (div T totalSteps) i1)), (stage_value T (div T totalSteps) N i2), i1.
  destruct (Hbelow i1 ltac:(lia)) as [Hp1 _].
  split; [exact H1|]. split; [exact Hin|]. split; [exact (pending_not_idle _ _ _ _ _ Hin)|].
  split; [exact Hx|]. split; [exact Hy|]. split; [reflexivity|].
  split; [by apply ceil_is_integer|].
  destruct (decide (i2 < N)) as [H2N | H2N].
  - rewrite (stage_value_running T _ N i2 H2N).
    split; [destruct Hstep as [-> | ->]; [by left | right; by left]|].
    split; [|split; apply Hceil_T; lia].
    destruct (Hbelow i2 ltac:(lia)) as [Hp2 _].
    apply ceil_mono; [done | done |].
    apply (accumulate_mono T (div T totalSteps) N); [|lia..].
    intros i Hi'. by destruct (Hrun i Hi') as (_ & _ & ?).
  - assert (i2 = N) as -> by lia. rewrite stage_value_final.
    split; [right; by right|].
    split; [apply Hceil_T; lia|]. split; [apply Hceil_T; lia|]. by apply le_refl_finite.
Qed.

End CounterClaims.

(** For the target 100 the accumulator counts 1, 2, ..., 100 exactly. *)
Lemma accumulate_to_100 i :
  1 ≤ i ≤ 100 →
  accumulate (of_Z 1) i = of_Z (Z.of_nat i) ∧
  ceil (of_Z (Z.of_nat i)) = of_Z (Z.of_nat i) ∧
  lt (of_Z (Z.of_nat i)) (of_Z 100) = bool_decide (i < 100).
Proof.
  intros Hi.
  assert (Hall : forallb (λ i,
            bool_decide (accumulate (of_Z 1) i = of_Z (Z.of_nat i)) &&
            bool_decide (ceil (of_Z (Z.of_nat i)) = of_Z (Z.of_nat i)) &&
            bool_decide (lt (of_Z (Z.of_nat i)) (of_Z 100) = bool_decide (i < 100)))
          (seq 1 100) = true) by (vm_compute; reflexivity).
  rewrite forallb_forall in Hall. specialize (Hall i ltac:(apply in_seq; lia)).
  apply andb_true_iff in Hall as [[H1 H2]%andb_true_iff H3].
  apply bool_decide_eq_true_1 in H1, H2, H3. done.
Qed.

Section ScenarioClaims.

Variable StringToNumber : string → number.

(** C5. [totalSteps] is 1500 / 15 = 100.  For a counter element with
    target 100 the increment is exactly 1; with no other timer pending,
    the element shows j + 1 after j timer callbacks while a callback is
    still pending, and after 99 timer callbacks (100 calls of
    [updateCounter]) it shows exactly 100, no timer is pending and the
    element is not observed. *)
Theorem counter_scenario_100 c el w :
  w_dom w !! c = Some el →
  to_number StringToNumber (data_target el) = of_Z 100 →
  w_timers w = [] →
  totalSteps = of_Z 100 ∧
  increment (new_closure StringToNumber c w) = of_Z 1 ∧
  (∀ j, j < 99 →
     shows c (of_Z (Z.of_nat (S j)))
       (run_timers j (counterObserver_callback StringToNumber [Entry c true] w)) ∧
     w_timers (run_timers j (counterObserver_callback StringToNumber [Entry c true] w)) =
       [Closure c (of_Z 100) (of_Z 1) (of_Z (Z.of_nat (S j)))]) ∧
  shows c (of_Z 100) (run_timers 99 (counterObserver_callback StringToNumber [Entry c true] w)) ∧
  w_timers (run_timers 99 (counterObserver_callback StringToNumber [Entry c true] w)) = [] ∧
  c ∉ w_counterObserver (run_timers 99 (counterObserver_callback StringToNumber [Entry c true] w)).
Proof.
  intros Hel HT Hw.
  assert (Hinc : div (of_Z 100) totalSteps = of_Z 1) by (vm_compute; reflexivity).
  assert (Hstop : lt (accumulate (div (to_number StringToNumber (data_target el)) totalSteps) 100)
                     (to_number StringToNumber (data_target el)) = false).
  { rewrite HT, Hinc. vm_compute. reflexivity. }
  assert (Hrun : ∀ i, 1 ≤ i < 100 →
            lt (accumulate (div (to_number StringToNumber (data_target el)) totalSteps) i)
               (to_number StringToNumber (data_target el)) = true).
  { intros i Hi. rewrite HT, Hinc.
    destruct (accumulate_to_100 i ltac:(lia)) as (-> & _ & ->). apply bool_decide_eq_true_2. lia. }
  pose proof (animation_isolated StringToNumber c el w 100 Hel ltac:(lia) Hstop Hrun Hw) as Hiso.
  cbn zeta in Hiso. rewrite HT, Hinc in Hiso.
  split; [vm_compute; reflexivity|].
  split; [rewrite (new_closure_eq StringToNumber c el w Hel); cbn [increment]; by rewrite HT|].
  split; [|split; [|split]].
  - intros j Hj. destruct (Hiso j ltac:(lia)) as [Hs Ht].
    rewrite bool_decide_eq_true_2 in Ht by lia.
    unfold stage_value in Hs. rewrite (proj2 (Nat.ltb_lt (S j) 100)) in Hs by lia.
    destruct (accumulate_to_100 (S j) ltac:(lia)) as (Ha & Hc & _).
    rewrite Ha in Hs, Ht. rewrite Hc in Hs. done.
  - destruct (Hiso 99 ltac:(lia)) as [Hs _]. exact Hs.
  - destruct (Hiso 99 ltac:(lia)) as [_ Ht]. exact Ht.
  - destruct (run_timers_frame 99 (counterObserver_callback StringToNumber [Entry c true] w))
      as [-> _].
    apply counterObserver_callback_unobserves. by left.
Qed.

(** C7. For a counter element with target 0 the increment is 0, the
    first comparison 0 < 0 fails, the element shows 0 at once and no
    timer is set. *)
Theorem counter_target_zero c el w s :
  w_dom w !! c = Some el →
  to_number StringToNumber (data_target el) = S754_zero s →
  increment (new_closure StringToNumber c w) = S754_zero s ∧
  add (of_Z 0) (S754_zero s) = of_Z 0 ∧
  lt (of_Z 0) (S754_zero s) = false ∧
  shows c (S754_zero s) (counterObserver_callback StringToNumber [Entry c true] w) ∧
  w_timers (counterObserver_callback StringToNumber [Entry c true] w) = w_timers w.
Proof.
  intros Hel HT.
  split; [rewrite (new_closure_eq StringToNumber c el w Hel); cbn [increment]; rewrite HT; by destruct s|].
  split; [by destruct s|]. split; [by destruct s|].
  apply (immediate_display StringToNumber c el w _ Hel HT).
  by destruct s.
Qed.

(** C9. For a counter element with a negative target T the accumulator
    after the first addition equals T / 100, which is greater than T, so
    the comparison fails at the first call: the element shows T at once
    and no timer is set. *)
Theorem counter_target_negative c el w T :
  w_dom w !! c = Some el →
  to_number StringToNumber (data_target el) = T →
  is_finite T = true →
  lt T (of_Z 0) = true →
  SFcompare (add (of_Z 0) (div T totalSteps)) (div T totalSteps) = Some Eq ∧
  SFcompare (add (of_Z 0) (div T totalSteps)) T = Some Gt ∧
  lt (add (of_Z 0) (div T totalSteps)) T = false ∧
  shows c T (counterObserver_callback StringToNumber [Entry c true] w) ∧
  w_timers (counterObserver_callback StringToNumber [Entry c true] w) = w_timers w.
Proof.
  intros Hel HT Hfin Hneg.
  destruct (accumulate_negative T Hfin Hneg) as (Hacc & Heq & Hgt & Hlt).
  rewrite Hacc in Heq, Hgt. split; [exact Heq|]. split; [exact Hgt|].
  split; [by rewrite <- Hacc|].
  by apply (immediate_display StringToNumber c el w T Hel HT).
Qed.

(** C10. For a counter element without the target attribute the
    attribute read gives null, which converts to 0: the closure is the
    one of the target 0, the element shows 0 at once and no timer is
    set. *)
Theorem counter_missing_attribute c el w :
  w_dom w !! c = Some el →
  data_target el = None →
  getAttribute_data_target c w = None ∧
  new_closure StringToNumber c w = Closure c (of_Z 0) (div (of_Z 0) totalSteps) (of_Z 0) ∧
  shows c (of_Z 0) (counterObserver_callback StringToNumber [Entry c true] w) ∧
  w_timers (counterObserver_callback StringToNumber [Entry c true] w) = w_timers w.
Proof.
  intros Hel Hnone.
  assert (HT : to_number StringToNumber (data_target el) = of_Z 0) by (by rewrite Hnone).
  split; [unfold getAttribute_data_target; by rewrite Hel|].
  split; [rewrite (new_closure_eq StringToNumber c el w Hel), HT; reflexivity|].
  by apply (immediate_display StringToNumber c el w _ Hel HT).
Qed.

End ScenarioClaims.

(** ** Initialisation *)

Lemma init_world d :
  ∃ w, (init d = Normal w ∨ init d = TypeError w) ∧
    w_dom w = d ∧ w_timers w = [] ∧ w_started w = [] ∧
    w_observer w = list_to_set (querySelectorAll "scroll-animate" d) ∧
    w_counterObserver w = list_to_set (querySelectorAll "js-counter" d) ∧
    w_click w = (querySelector "navbar-toggler" d ≫= (λ _, Some (querySelector "navbar-nav" d))) ∧
    (is_Some (querySelector "navbar-toggler" d) ↔ init d = Normal w).
Proof.
  unfold init. destruct (querySelector "navbar-toggler" d) as [t|].
  - eexists. split; [left; reflexivity|]. cbn. split_and!; try done.
    all: split; [done | by eexists].
  - eexists. split; [right; reflexivity|]. cbn. split_and!; try done.
    all: split; [intros [? ?]; discriminate | discriminate].
Qed.

Lemma alter_fixed {A} (f : A → A) (l : list A) i x :
  l !! i = Some x → f x = x → alter f i l = l.
Proof.
  intros Hl Hf. apply list_eq. intros j.
  destruct (decide (i = j)) as [<- | Hne].
  - rewrite list_lookup_alter_eq, Hl. cbn. by rewrite Hf.
  - by rewrite list_lookup_alter_ne.
Qed.

Section PageClaims.

Variable StringToNumber : string → number.

(** *** How often an animation is started *)

Lemma counterObserver_callback_starts c es : ∀ w,
  started c (counterObserver_callback StringToNumber es w) =
  started c w + length (filter (λ en, isIntersecting en = true ∧ entry_target en = c) es).
Proof.
  unfold counterObserver_callback. induction es as [|en es IH]; intros w; [cbn; lia|].
  cbn [foldl]. rewrite IH.
  destruct (counterObserver_entry_frame StringToNumber w en) as (_ & _ & _ & Hst).
  rewrite filter_cons. destruct en as [t b]. cbn [isIntersecting entry_target] in *.
  destruct b.
  - rewrite (started_snoc c t _ (w_started w) Hst). fold (started c w).
    case_bool_decide; case_decide; cbn [length]; first [lia | naive_solver].
  - unfold started at 1. rewrite Hst. fold (started c w).
    case_decide; [naive_solver | lia].
Qed.

Lemma starts_run c w evs w' :
  run StringToNumber w evs w' →
  started c w' = started c w + sum_list (starts_in c <$> evs).
Proof.
  induction 1 as [w | w ev w1 evs w2 Hdel Hh Hrun IH]; [cbn; lia|].
  rewrite IH, fmap_cons. cbn [sum_list sum_list_with]. unfold id.
  assert (started c w1 = started c w + starts_in c ev) as ->; [|lia].
  destruct ev as [es | es | |]; cbn [handle starts_in] in *.
  - simplify_eq. destruct (observer_callback_frame es w) as (_ & _ & _ & _ & Hst).
    unfold started. rewrite Hst. lia.
  - simplify_eq. apply counterObserver_callback_starts.
  - simplify_eq. destruct (run_timer_frame w) as (_ & _ & _ & Hst).
    unfold started. rewrite Hst. lia.
  - unfold click in Hh. destruct (w_click w) as [[menu|]|]; try discriminate; simplify_eq;
      unfold started; cbn; lia.
Qed.

Lemma starts_in_pos c ev :
  0 < starts_in c ev → ∃ es, ev = CounterObserverNotify es ∧ Entry c true ∈ es.
Proof.
  destruct ev as [es | es | |]; cbn [starts_in]; try lia.
  intros Hpos. exists es. split; [done|].
  destruct (filter _ es) as [|en l] eqn:Hf; [cbn in Hpos; lia|].
  assert (Hin : en ∈ filter (λ en, isIntersecting en = true ∧ entry_target en = c) es)
    by (rewrite Hf; by left).
  apply list_elem_of_filter in Hin as [[Hi Ht] Hin].
  destruct en as [t b]. cbn in *. by subst.
Qed.

(** An element the counter watcher does not observe appears in none of
    its later notifications. *)
Lemma unobserved_no_starts c w evs w' :
  run StringToNumber w evs w' →
  c ∉ w_counterObserver w →
  Forall (λ ev, starts_in c ev = 0) evs.
Proof.
  induction 1 as [w ev | w ev w1 evs w2 Hdel Hh Hrun IH]; intros Hc; [constructor|].
  constructor.
  - destruct (decide (starts_in c ev = 0)) as [|Hne]; [done|]. exfalso.
    destruct (starts_in_pos c ev ltac:(lia)) as (es & -> & Hin).
    apply Hc. apply (Hdel _ Hin).
  - apply IH.
    by destruct (unobserved_run StringToNumber c w [ev] w1
                   ltac:(eapply run_cons; [done | done | constructor]) Hc).
Qed.

Lemma run_app_inv l1 : ∀ w l2 w',
  run StringToNumber w (l1 ++ l2) w' →
  ∃ wm, run StringToNumber w l1 wm ∧ run StringToNumber wm l2 w'.
Proof.
  induction l1 as [|ev l1 IH]; intros w l2 w' Hrun.
  - exists w. split; [constructor | done].
  - cbn [app] in Hrun. inversion Hrun as [|? ? w1 ? ? Hdel Hh Hrest]; subst.
    destruct (IH _ _ _ Hrest) as (wm & H1 & H2).
    exists wm. split; [by eapply run_cons | done].
Qed.

(** An element whose animation was started is no longer observed. *)
Lemma started_unobserved_run c w evs w' :
  run StringToNumber w evs w' →
  (0 < started c w → c ∉ w_counterObserver w) →
  0 < started c w' → c ∉ w_counterObserver w'.
Proof.
  induction 1 as [w | w ev w1 evs w2 Hdel Hh Hrun IH]; intros Hinv; [done|].
  apply IH. intros Hpos.
  pose proof (starts_run c w [ev] w1 ltac:(eapply run_cons; [done | done | constructor])) as Hst.
  cbn in Hst.
  destruct (decide (starts_in c ev = 0)) as [Hz | Hnz].
  - by destruct (unobserved_run StringToNumber c w [ev] w1
                   ltac:(eapply run_cons; [done | done | constructor]) ltac:(apply Hinv; lia)).
  - destruct (starts_in_pos c ev ltac:(lia)) as (es & -> & Hin).
    cbn [handle] in Hh. simplify_eq. by apply counterObserver_callback_unobserves.
Qed.

(** C2. The animation of a counter element is started once for each
    intersecting entry that the counter watcher delivers for it, and
    all these entries come in one notification.  From initialisation
    on, over every sequence of events: the number of starts is the
    number of intersecting entries delivered for the element; after a
    notification that holds such an entry no later notification holds
    one; an element whose animation was started is no longer observed,
    and no later event starts its animation or registers it again; and
    when every notification carries at most one entry per target, the
    animation is started at most once. *)
Theorem at_most_once d w0 evs w' c :
  init d = Normal w0 ∨ init d = TypeError w0 →
  run StringToNumber w0 evs w' →
  started c w' = sum_list (starts_in c <$> evs) ∧
  (∀ evs1 ev evs2, evs = evs1 ++ ev :: evs2 → 0 < starts_in c ev →
     Forall (λ ev', starts_in c ev' = 0) evs2) ∧
  (0 < started c w' → c ∉ w_counterObserver w') ∧
  (∀ evs' w'', c ∉ w_counterObserver w' → run StringToNumber w' evs' w'' →
     c ∉ w_counterObserver w'' ∧ started c w'' = started c w') ∧
  (Forall distinct_targets evs → started c w' ≤ 1).
Proof.
  intros Hinit Hrun.
  assert (Hst0 : w_started w0 = []).
  { destruct (init_world d) as (w & Hw & _ & _ & Hst & _).
    by assert (w = w0) as -> by (destruct Hinit as [H|H], Hw as [H'|H']; congruence). }
  assert (H0 : started c w0 = 0) by (unfold started; by rewrite Hst0).
  split_and!.
  - rewrite (starts_run c w0 evs w' Hrun), H0. lia.
  - intros evs1 ev evs2 -> Hpos.
    destruct (run_app_inv _ _ _ _ Hrun) as (wm & _ & Hrest).
    inversion Hrest as [|? ? w1 ? ? Hdel Hh Hrun2]; subst.
    destruct (starts_in_pos c ev Hpos) as (es & -> & Hin).
    cbn [handle] in Hh. simplify_eq.
    apply (unobserved_no_starts c _ evs2 w' Hrun2).
    by apply counterObserver_callback_unobserves.
  - apply (started_unobserved_run c w0 evs w' Hrun). lia.
  - intros evs' w'' Hc Hrun'. by apply (unobserved_run StringToNumber c w' evs' w'').
  - intros Hd.
    assert (Hinv : started_once w0).
    { intros c'. unfold started. rewrite Hst0. cbn. split; [lia | done]. }
    apply (started_once_run StringToNumber w0 evs w' Hrun Hd Hinv c).
Qed.

Lemma clicks_run menu N : ∀ w,
  w_click w = Some (Some menu) → ∃ w', run StringToNumber w (replicate N Click) w'.
Proof.
  induction N as [|N IH]; intros w Hc; [exists w; constructor|].
  destruct (IH (on_element menu (set_classList (classList_toggle "active")) w) Hc) as [w' Hrun].
  exists w'. cbn [replicate]. eapply run_cons; [done | | exact Hrun].
  cbn [handle]. unfold click. by rewrite Hc.
Qed.

Lemma clicks_replicate N : clicks (replicate N Click) = N.
Proof. induction N as [|N IH]; [done|]. cbn. by rewrite IH. Qed.

(** C3. After initialisation with the menu closed, the menu is open
    exactly when the number of clicks so far is odd, whatever other
    events happen in between; and any number of clicks runs without a
    fault. *)
Theorem menu_toggle d w0 menu :
  init d = Normal w0 →
  querySelector "navbar-nav" d = Some menu →
  has_class "active" menu w0 = false →
  (∀ evs w', run StringToNumber w0 evs w' →
     has_class "active" menu w' = Nat.odd (clicks evs)) ∧
  (∀ N, ∃ w', run StringToNumber w0 (replicate N Click) w' ∧
     has_class "active" menu w' = Nat.odd N).
Proof.
  intros Hinit Hmenu Hclosed.
  destruct (init_world d) as (w & Hw & Hdom & _ & _ & _ & _ & Hclick & Hok).
  assert (w = w0) as -> by (destruct Hw as [H | H]; congruence).
  assert (Hc : w_click w0 = Some (Some menu)).
  { rewrite Hclick. destruct (proj2 Hok Hinit) as [t ->]. cbn. by rewrite Hmenu. }
  assert (Hsome : is_Some (w_dom w0 !! menu)).
  { rewrite Hdom. apply querySelector_Some in Hmenu as (el & -> & _). by eexists. }
  assert (Hgen : ∀ evs w', run StringToNumber w0 evs w' →
            has_class "active" menu w' = Nat.odd (clicks evs)).
  { intros evs w' Hrun.
    destruct (menu_state_run StringToNumber menu w0 evs w' Hrun Hc Hsome) as (_ & _ & ->).
    by rewrite Hclosed. }
  split; [exact Hgen|].
  intros N. destruct (clicks_run menu N w0 Hc) as [w' Hrun].
  exists w'. split; [exact Hrun|]. rewrite (Hgen _ _ Hrun). by rewrite clicks_replicate.
Qed.

(** C4. Once an intersection callback has marked an element of the
    reveal group, the element carries the visible marker exactly once
    and keeps it through every later event; marking an element that is
    already marked changes nothing. *)
Theorem reveal_one_way e el w :
  w_dom w !! e = Some el →
  NoDup (classList el) →
  (∀ evs w', run StringToNumber w evs w' →
     "visible" ∈ classList el ∨ (∃ es, ObserverNotify es ∈ evs ∧ Entry e true ∈ es) →
     ∃ el', w_dom w' !! e = Some el' ∧ "visible" ∈ classList el' ∧ NoDup (classList el')) ∧
  ("visible" ∈ classList el → observer_callback [Entry e true] w = w).
Proof.
  intros Hel Hnd. split.
  - intros evs w' Hrun Hpre.
    destruct (visible_run StringToNumber e w evs w' Hrun (classList el) ltac:(by rewrite Hel))
      as (cl' & Hcl' & Hnd' & Hvis).
    destruct (w_dom w' !! e) as [el'|]; [|discriminate]. cbn in Hcl'. simplify_eq.
    exists el'. auto.
  - intros Hvis. unfold observer_callback. cbn [foldl]. unfold observer_entry.
    cbn [isIntersecting entry_target]. unfold on_element, with_dom.
    rewrite (alter_fixed _ _ _ _ Hel).
    + by destruct w.
    + destruct el as [cl a t]. unfold set_classList. cbn in *.
      by rewrite classList_add_present.
Qed.

(** C8 (as the code behaves).  When the toggle control is absent the
    fault is raised during initialisation, at the binding of the click
    handler: both watchers are already set up and no click handler is
    bound, so a click does nothing.  When the toggle control is present
    and the menu container is absent, initialisation completes and the
    click handler faults at the first click. *)
Theorem missing_element_fault d :
  (querySelector "navbar-toggler" d = None →
     ∃ w, init d = TypeError w ∧ click w = Normal w ∧
       w_observer w = list_to_set (querySelectorAll "scroll-animate" d) ∧
       w_counterObserver w = list_to_set (querySelectorAll "js-counter" d)) ∧
  (is_Some (querySelector "navbar-toggler" d) →
     querySelector "navbar-nav" d = None →
     ∃ w, init d = Normal w ∧ click w = TypeError w).
Proof.
  split.
  - intros Hnone. unfold init. rewrite Hnone. eexists. split; [reflexivity|]. done.
  - intros [t Ht] Hnone. unfold init. rewrite Ht, Hnone. eexists. split; [reflexivity|]. done.
Qed.

End PageClaims.

(** The claim C2 fails without the condition on notifications: on the
    sample page a notification with two intersecting entries for the
    counter at index 3 starts its animation twice. *)
Lemma at_most_once_needs_distinct : ¬ always_at_most_once decimal_literal sample_page.
Proof.
  intros H.
  assert (Hrun : run decimal_literal sample_world
            [CounterObserverNotify [Entry 3 true; Entry 3 true]]
            (counterObserver_callback decimal_literal [Entry 3 true; Entry 3 true] sample_world)).
  { eapply run_cons; [|reflexivity|constructor].
    intros en Hin. apply elem_of_cons in Hin as [-> | Hin].
    - cbn. set_solver.
    - apply list_elem_of_singleton in Hin. subst en. cbn. set_solver. }
  specialize (H sample_world _ _ 3 (or_introl eq_refl) Hrun).
  rewrite counterObserver_callback_starts in H. vm_compute in H. lia.
Qed.

(** The claim C8 fails when the toggle control is the absent element:
    initialisation itself faults. *)
Lemma missing_toggle_not_deferred :
  querySelector "navbar-toggler" [Element ["navbar-nav"] None (Markup "menu")] = None ∧
  ¬ deferred_fault [Element ["navbar-nav"] None (Markup "menu")].
Proof.
  split; [reflexivity|]. intros (w & Hinit & _). discriminate Hinit.
Qed.

(** * Further properties of the script *)

(** ** What the handlers do to an element *)

Lemma on_element_lookup c f w e :
  w_dom (on_element c f w) !! e =
  (if bool_decide (c = e) then f <$> w_dom w !! e else w_dom w !! e).
Proof.
  unfold on_element, with_dom. cbn [w_dom]. case_bool_decide as Hc.
  - subst. apply list_lookup_alter_eq.
  - by apply list_lookup_alter_ne.
Qed.

Lemma updateCounter_element k w e el :
  w_dom w !! e = Some el →
  ∃ el', w_dom (updateCounter k w) !! e = Some el' ∧
    classList el' = classList el ∧ data_target el' = data_target el ∧
    (counter k ≠ e → el' = el).
Proof.
  intros Hel. unfold updateCounter.
  destruct (lt (add (current k) (increment k)) (target k)); unfold setTimeout; cbn [w_dom];
    rewrite on_element_lookup, Hel; case_bool_decide; cbn; eexists; split_and!; done.
Qed.

Lemma run_timer_element w e el :
  w_dom w !! e = Some el →
  ∃ el', w_dom (run_timer w) !! e = Some el' ∧
    classList el' = classList el ∧ data_target el' = data_target el.
Proof.
  intros Hel. unfold run_timer. destruct (w_timers w) as [|k rest]; [by exists el|].
  destruct (updateCounter_element k
    (World (w_dom w) (w_observer w) (w_counterObserver w) rest (w_click w) (w_started w)) e el Hel)
    as (el' & ? & ? & ? & _). by exists el'.
Qed.

Lemma observer_entry_element w en e el :
  w_dom w !! e = Some el →
  w_dom (observer_entry w en) !! e =
  Some (if bool_decide (isIntersecting en = true ∧ entry_target en = e)
        then set_classList (classList_add "visible") el else el).
Proof.
  intros Hel. unfold observer_entry. destruct (isIntersecting en).
  - rewrite on_element_lookup, Hel. case_bool_decide as Hc.
    + by rewrite bool_decide_eq_true_2.
    + by rewrite bool_decide_eq_false_2 by (intros [_ ?]; done).
  - by rewrite bool_decide_eq_false_2 by (intros [? _]; done).
Qed.

Section Elements.

Variable StringToNumber : string → number.

Lemma counterObserver_callback_element es : ∀ w e el,
  w_dom w !! e = Some el →
  ∃ el', w_dom (counterObserver_callback StringToNumber es w) !! e = Some el' ∧
    classList el' = classList el ∧ data_target el' = data_target el.
Proof.
  unfold counterObserver_callback. induction es as [|en es IH]; intros w e el Hel; [by exists el|].
  cbn [foldl]. unfold counterObserver_entry at 2. destruct (isIntersecting en).
  - destruct (updateCounter_element (new_closure StringToNumber (entry_target en) w)
                (note_started (entry_target en) w) e el Hel) as (el1 & Hel1 & Hc1 & Hd1 & _).
    destruct (IH (unobserve (entry_target en)
                    (updateCounter (new_closure StringToNumber (entry_target en) w)
                       (note_started (entry_target en) w))) e el1 Hel1) as (el' & ? & ? & ?).
    exists el'. split_and!; [done | congruence | congruence].
  - by apply IH.
Qed.

End Elements.

(** The element found at an index after the reveal callback. *)
Lemma observer_callback_element es : ∀ w e el,
  w_dom w !! e = Some el →
  ∃ el', w_dom (observer_callback es w) !! e = Some el' ∧
    innerText el' = innerText el ∧ data_target el' = data_target el ∧
    ∀ tok, tok ∈ classList el' ↔ tok ∈ classList el ∨ (tok = "visible" ∧ Entry e true ∈ es).
Proof.
  unfold observer_callback. induction es as [|en es IH]; intros w e el Hel; cbn [foldl].
  - exists el. split_and!; try done. intros tok. split; [by left|].
    intros [? | [_ Hin]]; [done | by apply elem_of_nil in Hin].
  - pose proof (observer_entry_element w en e el Hel) as Hen.
    destruct (IH _ _ _ Hen) as (el' & Hel' & Ht & Hd & Hiff).
    exists el'. split; [done|].
    case_bool_decide as Hcase; cbn in Ht, Hd, Hiff; split_and!; try done.
    + intros tok. rewrite Hiff, classList_add_elem, elem_of_cons.
      destruct Hcase as [Hi <-]. destruct en as [tgt b]. cbn in *. subst b. tauto.
    + intros tok. rewrite Hiff, elem_of_cons. split; [tauto|].
      intros [? | [-> [Heq | ?]]]; [tauto | | tauto].
      exfalso. apply Hcase. by rewrite <- Heq.
Qed.

(** X1. The reveal callback marks exactly the targets of its
    intersecting entries: an element gains the visible marker when the
    notification holds an intersecting entry for it, keeps every class
    it had, gains no other class, and keeps its text and attribute.
    Entries that do not intersect mark nothing. *)
Theorem reveal_marks_intersecting es w e el :
  w_dom w !! e = Some el →
  ∃ el', w_dom (observer_callback es w) !! e = Some el' ∧
    innerText el' = innerText el ∧ data_target el' = data_target el ∧
    ∀ tok, tok ∈ classList el' ↔ tok ∈ classList el ∨ (tok = "visible" ∧ Entry e true ∈ es).
Proof. apply observer_callback_element. Qed.

Section MoreProperties.

Variable StringToNumber : string → number.

Lemma handle_observer_frame ev w w1 :
  handle StringToNumber ev w = Normal w1 → w_observer w1 = w_observer w.
Proof.
  destruct ev as [es | es | |]; cbn [handle]; intros Hh.
  - simplify_eq. by destruct (observer_callback_frame es w) as (? & _).
  - simplify_eq. by destruct (counterObserver_callback_frame StringToNumber es w) as (? & _).
  - simplify_eq. by destruct (run_timer_frame w) as (? & _).
  - unfold click in Hh. destruct (w_click w) as [[menu|]|] eqn:Hc; try discriminate;
      by simplify_eq.
Qed.

(** X2. The reveal watcher never unregisters a target and the click
    listener is never rebound: through every sequence of events the set
    observed by the reveal watcher and the bound listener stay as
    initialisation left them, while the set of the counter watcher can
    only shrink. *)
Theorem watchers_over_time w evs w' :
  run StringToNumber w evs w' →
  w_observer w' = w_observer w ∧ w_click w' = w_click w ∧
  w_counterObserver w' ⊆ w_counterObserver w.
Proof.
  induction 1 as [w | w ev w1 evs w2 Hdel Hh Hrun IH]; [done|].
  destruct IH as (-> & -> & Hsub).
  rewrite (handle_observer_frame ev w w1 Hh), (handle_click_frame StringToNumber ev w w1 Hh).
  split; [done|]. split; [done|].
  assert (w_counterObserver w1 ⊆ w_counterObserver w); [|set_solver].
  destruct ev as [es | es | |]; cbn [handle] in Hh.
  - simplify_eq. by destruct (observer_callback_frame es w) as (_ & -> & _).
  - simplify_eq. by destruct (counterObserver_callback_frame StringToNumber es w) as (_ & _ & ?).
  - simplify_eq. by destruct (run_timer_frame w) as (_ & -> & _).
  - unfold click in Hh. destruct (w_click w) as [[menu|]|] eqn:Hc; try discriminate;
      by simplify_eq.
Qed.

(** X3. A target that is not a finite number is written at once: when
    the attribute reads as NaN or as an infinity, the first comparison
    fails, the element shows the target itself and no timer is set. *)
Theorem counter_target_not_finite c el w T :
  w_dom w !! c = Some el →
  to_number StringToNumber (data_target el) = T →
  T = S754_nan ∨ (∃ s, T = S754_infinity s) →
  shows c T (counterObserver_callback StringToNumber [Entry c true] w) ∧
  w_timers (counterObserver_callback StringToNumber [Entry c true] w) = w_timers w.
Proof.
  intros Hel HT Hcase.
  apply (immediate_display StringToNumber c el w T Hel HT).
  destruct Hcase as [-> | [[] ->]]; vm_compute; reflexivity.
Qed.

(** X4. The callback starts one animation for each intersecting entry
    it is handed: two intersecting entries for one target in a single
    notification start its animation twice. *)
Theorem duplicate_entries_start_twice c w :
  started c (counterObserver_callback StringToNumber [Entry c true; Entry c true] w) =
  S (S (started c w)).
Proof.
  unfold counterObserver_callback. cbn [foldl].
  set (w1 := counterObserver_entry StringToNumber w (Entry c true)).
  destruct (counterObserver_entry_frame StringToNumber w1 (Entry c true)) as (_ & _ & _ & Hst2).
  destruct (counterObserver_entry_frame StringToNumber w (Entry c true)) as (_ & _ & _ & Hst1).
  cbn [isIntersecting entry_target] in Hst1, Hst2. fold w1 in Hst1.
  rewrite (started_snoc c c _ _ Hst2). fold (started c w1).
  rewrite (started_snoc c c _ _ Hst1). fold (started c w).
  rewrite bool_decide_eq_true_2 by done. lia.
Qed.

End MoreProperties.

(** ** Class lists under two toggles *)

Lemma classList_toggle_twice tok cl :
  NoDup cl → classList_toggle tok (classList_toggle tok cl) ≡ₚ cl.
Proof.
  intros Hnd. apply NoDup_Permutation; [by do 2 apply classList_toggle_NoDup | done |].
  intros x. rewrite !classList_toggle_elem.
  destruct (decide (x = tok)) as [-> | Hne]; [|tauto].
  destruct (decide (tok ∈ cl)); tauto.
Qed.

(** X5. Two clicks restore the menu: the click handler runs twice
    without a fault, the menu container then carries the classes it had
    (the toggled token may have moved to the end of the list), its text
    and attribute are as before, and no other element, timer or watcher
    has changed. *)
Theorem two_clicks_restore menu el w :
  w_click w = Some (Some menu) →
  w_dom w !! menu = Some el →
  NoDup (classList el) →
  ∃ w1 w2, click w = Normal w1 ∧ click w1 = Normal w2 ∧
    (∃ el2, w_dom w2 !! menu = Some el2 ∧ classList el2 ≡ₚ classList el ∧
            innerText el2 = innerText el ∧ data_target el2 = data_target el) ∧
    (∀ e, e ≠ menu → w_dom w2 !! e = w_dom w !! e) ∧
    w_timers w2 = w_timers w ∧ w_observer w2 = w_observer w ∧
    w_counterObserver w2 = w_counterObserver w ∧ w_click w2 = w_click w.
Proof.
  intros Hc Hel Hnd. unfold click. rewrite Hc.
  eexists _, _. split; [reflexivity|]. cbn [w_click on_element with_dom]. rewrite Hc.
  split; [reflexivity|]. split; [|split].
  - rewrite !on_element_lookup, !bool_decide_eq_true_2 by done. rewrite Hel. cbn.
    eexists. split; [reflexivity|]. cbn. split; [|done]. by apply classList_toggle_twice.
  - intros e He. by rewrite !on_element_lookup, !bool_decide_eq_false_2 by done.
  - done.
Qed.

(** ** Initialisation registers the marked elements *)

(** X6. Initialisation leaves the page as it is, sets no timer and
    registers with the reveal watcher exactly the elements of class
    [scroll-animate] and with the counter watcher exactly the elements of
    class [js-counter], whether or not the menu binding then faults; it
    binds the click listener exactly when a toggle control exists.  With
    an empty reveal group the reveal watcher is never notified of an
    entry. *)
Theorem init_registers d w :
  init d = Normal w ∨ init d = TypeError w →
  w_dom w = d ∧ w_timers w = [] ∧
  (∀ e, e ∈ w_observer w ↔ ∃ el, d !! e = Some el ∧ "scroll-animate" ∈ classList el) ∧
  (∀ e, e ∈ w_counterObserver w ↔ ∃ el, d !! e = Some el ∧ "js-counter" ∈ classList el) ∧
  (is_Some (w_click w) ↔ ∃ e el, d !! e = Some el ∧ "navbar-toggler" ∈ classList el) ∧
  (querySelectorAll "scroll-animate" d = [] →
     ∀ es, delivered w (ObserverNotify es) → es = []).
Proof.
  intros Hinit.
  destruct (init_world d) as (w' & Hw & Hdom & Ht & _ & Ho & Hco & Hclick & _).
  assert (w' = w) as -> by (destruct Hinit as [H | H], Hw as [H' | H']; congruence).
  split; [done|]. split; [done|]. split_and!.
  - intros e. rewrite Ho, elem_of_list_to_set. apply querySelectorAll_spec.
  - intros e. rewrite Hco, elem_of_list_to_set. apply querySelectorAll_spec.
  - rewrite Hclick. split.
    + intros [x Hx]. destruct (querySelector "navbar-toggler" d) as [t|] eqn:Hq; [|discriminate].
      apply querySelector_Some in Hq. eauto.
    + intros (e & el & Hel & Hin).
      destruct (querySelector "navbar-toggler" d) as [t|] eqn:Hq; [by eexists|].
      exfalso. by apply (proj1 (querySelector_None _ _) Hq e el Hel).
  - intros Hempty es Hdel. cbn [delivered] in Hdel. rewrite Ho, Hempty in Hdel.
    destruct es as [|en es]; [done|]. exfalso.
    specialize (Hdel en ltac:(by left)). set_solver.
Qed.

Section Pending.

Variable StringToNumber : string → number.

Lemma updateCounter_timers k w :
  ∃ extra, w_timers (updateCounter k w) = w_timers w ++ extra ∧
    length extra ≤ 1 ∧ Forall (λ k', counter k' = counter k) extra.
Proof.
  unfold updateCounter. destruct (lt (add (current k) (increment k)) (target k)).
  - eexists [_]. split_and!; [reflexivity | cbn; lia | by repeat constructor].
  - exists []. split_and!; [cbn; by rewrite app_nil_r | cbn; lia | constructor].
Qed.

Lemma pending_app c w l extra :
  w_timers w = l ++ extra →
  pending c w = length (filter (λ k, counter k = c) l) + length (filter (λ k, counter k = c) extra).
Proof. intros Ht. unfold pending. by rewrite Ht, filter_app, length_app. Qed.

Lemma filter_counter_extra c t (extra : list closure) :
  length extra ≤ 1 → Forall (λ k', counter k' = t) extra →
  length (filter (λ k, counter k = c) extra) ≤ (if bool_decide (t = c) then 1 else 0).
Proof.
  intros Hlen Hall. destruct extra as [|k [|k' extra]]; cbn in Hlen; try lia.
  - cbn. case_bool_decide; lia.
  - inversion Hall as [|? ? Hk _]; subst. rewrite filter_cons, filter_nil.
    case_decide; case_bool_decide; cbn; first [lia | congruence].
Qed.

Lemma counterObserver_callback_pending es : ∀ w,
  pending_bounded w → pending_bounded (counterObserver_callback StringToNumber es w).
Proof.
  unfold counterObserver_callback. induction es as [|en es IH]; intros w Hinv; [done|].
  cbn [foldl]. apply IH. intros c.
  destruct (counterObserver_entry_frame StringToNumber w en) as (_ & _ & _ & Hst).
  unfold counterObserver_entry in *. destruct (isIntersecting en).
  - destruct (updateCounter_timers (new_closure StringToNumber (entry_target en) w)
                (note_started (entry_target en) w)) as (extra & Ht & Hlen & Hall).
    set (W := updateCounter (new_closure StringToNumber (entry_target en) w)
                (note_started (entry_target en) w)) in *.
    change (pending c (unobserve (entry_target en) W)) with (pending c W).
    rewrite (pending_app c W (w_timers w) extra Ht).
    rewrite (started_snoc c (entry_target en) _ (w_started w) Hst).
    pose proof (filter_counter_extra c _ extra Hlen Hall) as Hex.
    unfold new_closure in Hex. cbn [counter] in Hex.
    specialize (Hinv c). unfold pending, started in Hinv. lia.
  - apply Hinv.
Qed.

Lemma run_timer_pending w : pending_bounded w → pending_bounded (run_timer w).
Proof.
  intros Hinv c. specialize (Hinv c).
  destruct (run_timer_frame w) as (_ & _ & _ & Hst).
  unfold started in *. rewrite Hst. unfold run_timer.
  destruct (w_timers w) as [|k rest] eqn:Hw; [exact Hinv|].
  destruct (updateCounter_timers k
    (World (w_dom w) (w_observer w) (w_counterObserver w) rest (w_click w) (w_started w)))
    as (extra & Ht & Hlen & Hall).
  cbn [w_timers] in Ht. rewrite (pending_app c _ rest extra Ht).
  pose proof (filter_counter_extra c _ extra Hlen Hall) as Hex.
  unfold pending in Hinv. rewrite Hw, filter_cons in Hinv.
  case_bool_decide; case_decide; cbn in Hinv; try congruence; lia.
Qed.

(** X7. The steps of one animation never overlap: from initialisation
    on, when every notification carries at most one entry per target, a
    counter has at most one timer callback pending at any time. *)
Theorem one_pending_callback d w0 evs w' c :
  init d = Normal w0 ∨ init d = TypeError w0 →
  run StringToNumber w0 evs w' →
  Forall distinct_targets evs →
  pending c w' ≤ 1.
Proof.
  intros Hinit Hrun Hd.
  assert (Honce : started c w' ≤ 1).
  { apply (started_once_run StringToNumber w0 evs w' Hrun Hd).
    destruct (init_world d) as (w & Hw & _ & _ & Hst & _).
    assert (w = w0) as -> by (destruct Hinit as [H | H], Hw as [H' | H']; congruence).
    intros c'. unfold started. rewrite Hst. cbn. split; [lia | done]. }
  assert (Hinv0 : pending_bounded w0).
  { destruct (init_world d) as (w & Hw & _ & Ht & _).
    assert (w = w0) as -> by (destruct Hinit as [H | H], Hw as [H' | H']; congruence).
    intros c'. unfold pending. rewrite Ht. cbn. lia. }
  assert (Hinv : pending_bounded w'); [|specialize (Hinv c); lia].
  clear Honce Hd Hinit. induction Hrun as [w | w ev w1 evs w2 Hdel Hh Hrun IH]; [done|].
  apply IH. destruct ev as [es | es | |]; cbn [handle] in Hh.
  - simplify_eq. destruct (observer_callback_frame es w) as (_ & _ & Ht & _ & Hst).
    intros c'. unfold pending, started. rewrite Ht, Hst. apply Hinv0.
  - simplify_eq. by apply counterObserver_callback_pending.
  - simplify_eq. by apply run_timer_pending.
  - unfold click in Hh. destruct (w_click w) as [[menu|]|]; try discriminate; simplify_eq;
      [|done]. intros c'. apply Hinv0.
Qed.

End Pending.

(** The hundredth of a positive number of at most 50 units of 2^-1074
    rounds to zero. *)
Lemma tiny_increment (m : positive) :
  (m <= 50)%positive → div (S754_finite false m (-1074)) totalSteps = of_Z 0.
Proof.
  intros Hm.
  assert (Hall : forallb (λ i, bool_decide
            (div (S754_finite false (Pos.of_nat i) (-1074)) totalSteps = of_Z 0)) (seq 1 50) = true)
    by (vm_compute; reflexivity).
  rewrite forallb_forall in Hall.
  specialize (Hall (Pos.to_nat m) ltac:(apply in_seq; lia)).
  apply bool_decide_eq_true_1 in Hall. by rewrite Pos2Nat.id in Hall.
Qed.

Section MoreCounters.

Variable StringToNumber : string → number.

(** X8. A positive target of at most 50 units of 2^-1074 (about
    2.5e-322) is never reached: its increment rounds to 0, the
    accumulator stays 0, the comparison 0 < target holds at every call,
    so the element shows 0 and one timer callback is pending after any
    number of timer callbacks. *)
Theorem counter_target_tiny c el w m :
  w_dom w !! c = Some el →
  to_number StringToNumber (data_target el) = S754_finite false m (-1074) →
  (m <= 50)%positive →
  w_timers w = [] →
  ∀ j,
    shows c (of_Z 0) (run_timers j (counterObserver_callback StringToNumber [Entry c true] w)) ∧
    w_timers (run_timers j (counterObserver_callback StringToNumber [Entry c true] w)) =
      [Closure c (S754_finite false m (-1074)) (of_Z 0) (of_Z 0)].
Proof.
  intros Hel HT Hm Hw.
  pose proof (tiny_increment m Hm) as Hinc.
  set (T := S754_finite false m (-1074)) in *.
  assert (Hcall : ∀ ws, is_Some (displayed c ws) →
            shows c (of_Z 0) (updateCounter (Closure c T (of_Z 0) (of_Z 0)) ws) ∧
            w_timers (updateCounter (Closure c T (of_Z 0) (of_Z 0)) ws) =
              w_timers ws ++ [Closure c T (of_Z 0) (of_Z 0)]).
  { intros ws Hsome. unfold updateCounter. cbn [current increment target counter].
    change (lt (add (of_Z 0) (of_Z 0)) T) with true. cbn iota.
    split; [|reflexivity]. unfold shows, setTimeout, displayed. cbn [w_dom].
    by apply displayed_set_innerText. }
  assert (Hgen : ∀ j ws, shows c (of_Z 0) ws → w_timers ws = [Closure c T (of_Z 0) (of_Z 0)] →
            shows c (of_Z 0) (run_timers j ws) ∧
            w_timers (run_timers j ws) = [Closure c T (of_Z 0) (of_Z 0)]).
  { induction j as [|j IH]; intros ws Hs Ht; [done|].
    rewrite run_timers_S. unfold run_timer. rewrite Ht.
    destruct (Hcall (World (w_dom ws) (w_observer ws) (w_counterObserver ws) []
                       (w_click ws) (w_started ws))) as [Hs' Ht'].
    { unfold shows in Hs. unfold displayed in *. cbn [w_dom]. by rewrite Hs. }
    by apply IH. }
  intros j. apply Hgen.
  - unfold counterObserver_callback. cbn [foldl]. unfold counterObserver_entry.
    cbn [isIntersecting entry_target].
    rewrite (new_closure_eq StringToNumber c el w Hel), HT, Hinc.
    destruct (Hcall (note_started c w)) as [Hs _]; [|exact Hs].
    unfold displayed, note_started. cbn [w_dom]. rewrite Hel. by eexists.
  - unfold counterObserver_callback. cbn [foldl]. unfold counterObserver_entry.
    cbn [isIntersecting entry_target].
    rewrite (new_closure_eq StringToNumber c el w Hel), HT, Hinc.
    destruct (Hcall (note_started c w)) as [_ Ht].
    { unfold displayed, note_started. cbn [w_dom]. rewrite Hel. by eexists. }
    unfold unobserve. cbn [w_timers]. change (accumulate (of_Z 0) 0) with (of_Z 0).
    rewrite Ht. unfold note_started. cbn [w_timers]. by rewrite Hw.
Qed.

(** An animation towards a finite target of at least 1 settles: from
    some number of timer callbacks on the element shows the target and
    none of its callbacks is pending. *)
Lemma animation_settles c el w es T :
  w_dom w !! c = Some el →
  idle c w →
  Forall (λ en, entry_target en ≠ c) es →
  to_number StringToNumber (data_target el) = T →
  is_finite T = true →
  le (of_Z 1) T = true →
  ∃ n, ∀ m, n ≤ m →
    shows c T (run_timers m (counterObserver_callback StringToNumber (Entry c true :: es) w)) ∧
    idle c (run_timers m (counterObserver_callback StringToNumber (Entry c true :: es) w)).
Proof.
  intros Hel Hidle Hes HT Hfin Hge. subst T.
  destruct (accumulate_stops _ Hfin Hge) as (N & HN & Hstop & Hrun).
  destruct (animation_completes StringToNumber c el w es N Hel HN Hstop
              ltac:(intros i Hi; apply Hrun; done) Hidle Hes) as (n & Hi & Hs & _).
  exists n. intros m Hm. replace m with (n + (m - n)) by lia.
  rewrite run_timers_add.
  destruct (idle_run_timers c (m - n) _ Hi) as [Hi' Hd'].
  split; [|exact Hi']. unfold shows in *. congruence.
Qed.

(** X9. Counters that intersect together all converge: when one
    notification starts the animations of two different counters with
    targets of at least 1, then from some number of timer callbacks on
    both elements show their targets and neither has a callback
    pending. *)
Theorem two_counters_converge c1 c2 el1 el2 w T1 T2 :
  c1 ≠ c2 →
  w_dom w !! c1 = Some el1 → w_dom w !! c2 = Some el2 →
  idle c1 w → idle c2 w →
  to_number StringToNumber (data_target el1) = T1 →
  to_number StringToNumber (data_target el2) = T2 →
  is_finite T1 = true → le (of_Z 1) T1 = true →
  is_finite T2 = true → le (of_Z 1) T2 = true →
  ∃ n, ∀ m, n ≤ m →
    shows c1 T1 (run_timers m (counterObserver_callback StringToNumber [Entry c1 true; Entry c2 true] w)) ∧
    shows c2 T2 (run_timers m (counterObserver_callback StringToNumber [Entry c1 true; Entry c2 true] w)) ∧
    idle c1 (run_timers m (counterObserver_callback StringToNumber [Entry c1 true; Entry c2 true] w)) ∧
    idle c2 (run_timers m (counterObserver_callback StringToNumber [Entry c1 true; Entry c2 true] w)).
Proof.
  intros Hne Hel1 Hel2 Hi1 Hi2 HT1 HT2 Hf1 Hg1 Hf2 Hg2.
  destruct (animation_settles c1 el1 w [Entry c2 true] T1 Hel1 Hi1
              ltac:(by repeat constructor) HT1 Hf1 Hg1) as (n1 & H1).
  set (w' := counterObserver_entry StringToNumber w (Entry c1 true)).
  assert (Hel2' : w_dom w' !! c2 = Some el2).
  { unfold w', counterObserver_entry. cbn [isIntersecting entry_target]. unfold unobserve. cbn [w_dom].
    destruct (updateCounter_element (new_closure StringToNumber c1 w) (note_started c1 w) c2 el2 Hel2)
      as (el' & Hl & _ & _ & Hsame).
    rewrite Hl. f_equal. apply Hsame. unfold new_closure. cbn [counter]. done. }
  assert (Hi2' : idle c2 w').
  { unfold idle, w', counterObserver_entry. cbn [isIntersecting entry_target]. unfold unobserve.
    cbn [w_timers].
    destruct (updateCounter_timers (new_closure StringToNumber c1 w) (note_started c1 w))
      as (extra & -> & _ & Hall).
    apply Forall_app. split; [exact Hi2|].
    eapply Forall_impl; [exact Hall|]. intros k Hk. unfold new_closure in Hk. cbn [counter] in Hk.
    congruence. }
  destruct (animation_settles c2 el2 w' [] T2 Hel2' Hi2'
              ltac:(constructor) HT2 Hf2 Hg2) as (n2 & H2).
  change (counterObserver_callback StringToNumber [Entry c2 true] w')
    with (counterObserver_callback StringToNumber [Entry c1 true; Entry c2 true] w) in H2.
  exists (n1 `max` n2). intros m Hm.
  destruct (H1 m ltac:(lia)) as [? ?]. destruct (H2 m ltac:(lia)) as [? ?]. done.
Qed.

(** *** The three behaviours do not interfere *)

Lemma handle_element ev w w1 e el :
  handle StringToNumber ev w = Normal w1 →
  w_dom w !! e = Some el →
  ∃ el1, w_dom w1 !! e = Some el1 ∧ data_target el1 = data_target el ∧
    (leaves_text ev = true → innerText el1 = innerText el) ∧
    (leaves_classes ev = true → classList el1 = classList el).
Proof.
  destruct ev as [es | es | |]; cbn [handle leaves_text leaves_classes]; intros Hh Hel.
  - simplify_eq. destruct (observer_callback_element es w e el Hel) as (el1 & ? & ? & ? & _).
    exists el1. done.
  - simplify_eq.
    destruct (counterObserver_callback_element StringToNumber es w e el Hel) as (el1 & ? & ? & ?).
    exists el1. done.
  - simplify_eq. destruct (run_timer_element w e el Hel) as (el1 & ? & ? & ?).
    exists el1. done.
  - unfold click in Hh. destruct (w_click w) as [[menu|]|]; try discriminate; simplify_eq.
    + rewrite on_element_lookup, Hel. case_bool_decide; cbn; eexists; done.
    + by exists el.
Qed.

(** The element at an index through a sequence of events. *)
Lemma run_element w evs w' e el :
  run StringToNumber w evs w' →
  w_dom w !! e = Some el →
  ∃ el', w_dom w' !! e = Some el' ∧ data_target el' = data_target el ∧
    (forallb leaves_text evs = true → innerText el' = innerText el) ∧
    (forallb leaves_classes evs = true → classList el' = classList el).
Proof.
  intros Hrun. revert el.
  induction Hrun as [w | w ev w1 evs w2 Hdel Hh Hrun IH]; intros el Hel.
  - exists el. done.
  - destruct (handle_element ev w w1 e el Hh Hel) as (el1 & Hel1 & Hd1 & Ht1 & Hc1).
    destruct (IH el1 Hel1) as (el' & Hel' & Hd' & Ht' & Hc').
    exists el'. split; [done|]. split; [congruence|]. cbn [forallb]. split.
    + intros [? ?]%andb_true_iff. rewrite Ht' by done. auto.
    + intros [? ?]%andb_true_iff. rewrite Hc' by done. auto.
Qed.

(** X10. Reveal notifications and clicks write no text: over every
    sequence of events made only of notifications of the reveal watcher
    and clicks, an element has after the sequence the text and the
    target attribute it had before. *)
Theorem reveal_and_clicks_keep_text w evs w' e el el' :
  run StringToNumber w evs w' →
  forallb leaves_text evs = true →
  w_dom w !! e = Some el →
  w_dom w' !! e = Some el' →
  innerText el' = innerText el ∧ data_target el' = data_target el.
Proof.
  intros Hrun Hevs Hel Hel'.
  destruct (run_element w evs w' e el Hrun Hel) as (el1 & Hel1 & Hd & Ht & _).
  simplify_eq. split; [by apply Ht | done].
Qed.

(** X14. Counter notifications and timer callbacks change no class
    list: over every sequence of events made only of notifications of
    the counter watcher and timer callbacks, an element has after the
    sequence the class list and the target attribute it had before; the
    animations only write text. *)
Theorem counters_keep_classes w evs w' e el el' :
  run StringToNumber w evs w' →
  forallb leaves_classes evs = true →
  w_dom w !! e = Some el →
  w_dom w' !! e = Some el' →
  classList el' = classList el ∧ data_target el' = data_target el.
Proof.
  intros Hrun Hevs Hel Hel'.
  destruct (run_element w evs w' e el Hrun Hel) as (el1 & Hel1 & Hd & _ & Hc).
  simplify_eq. split; [by apply Hc | done].
Qed.

End MoreCounters.

Section Length.

Variable StringToNumber : string → number.

(** With no timer pending, timer callbacks change nothing. *)
Lemma run_timers_empty k w : w_timers w = [] → run_timers k w = w.
Proof.
  induction k as [|k IH]; intros Hw; [reflexivity|].
  rewrite run_timers_S. unfold run_timer. rewrite Hw. exact (IH Hw).
Qed.

(** X11. An animation towards a target of at least 1 makes 100 or 101
    calls of [updateCounter]: with no other timer pending, its callback
    is still pending after each of the first 98 timer callbacks, and
    after 100 timer callbacks the element shows the target and no timer
    is pending.  Both lengths occur: the target 100 is reached at call
    100, the target 10 only at call 101, because the sums of the rounded
    hundredth of 10 are rounded again. *)
Theorem animation_length c el w T :
  w_dom w !! c = Some el →
  to_number StringToNumber (data_target el) = T →
  is_finite T = true →
  le (of_Z 1) T = true →
  w_timers w = [] →
  (∀ j, j ≤ 98 →
     w_timers (run_timers j (counterObserver_callback StringToNumber [Entry c true] w)) =
       [Closure c T (div T totalSteps) (accumulate (div T totalSteps) (S j))]) ∧
  shows c T (run_timers 100 (counterObserver_callback StringToNumber [Entry c true] w)) ∧
  w_timers (run_timers 100 (counterObserver_callback StringToNumber [Entry c true] w)) = [] ∧
  lt (accumulate (div (of_Z 100) totalSteps) 100) (of_Z 100) = false ∧
  lt (accumulate (div (of_Z 10) totalSteps) 100) (of_Z 10) = true.
Proof.
  intros Hel HT Hfin Hge Hw. subst T.
  set (T := to_number StringToNumber (data_target el)) in *.
  destruct (steps_100_or_101 T Hfin Hge) as [Hrun Hstop].
  assert (HN : ∃ N, (N = 100 ∨ N = 101) ∧
            lt (accumulate (div T totalSteps) N) T = false ∧
            ∀ i, 1 ≤ i < N → lt (accumulate (div T totalSteps) i) T = true).
  { destruct (lt (accumulate (div T totalSteps) 100) T) eqn:H100.
    - exists 101. split; [right; reflexivity|]. split; [destruct Hstop; congruence|].
      intros i Hi. destruct (decide (i = 100)) as [-> | ?]; [exact H100 | apply Hrun; lia].
    - exists 100. split; [left; reflexivity|]. split; [exact H100|].
      intros i Hi. apply Hrun. lia. }
  clear Hrun Hstop.
  destruct HN as (N & HN & HstopN & HrunN).
  pose proof (animation_isolated StringToNumber c el w N Hel ltac:(lia) HstopN HrunN Hw) as Hiso.
  cbn zeta in Hiso. fold T in Hiso.
  set (w1 := counterObserver_callback StringToNumber [Entry c true] w) in *.
  assert (Hend : shows c T (run_timers 100 w1) ∧ w_timers (run_timers 100 w1) = []).
  { destruct (Hiso (N - 1) ltac:(lia)) as [Hs Ht].
    replace (S (N - 1)) with N in Hs, Ht by lia.
    rewrite stage_value_final in Hs.
    rewrite bool_decide_eq_false_2 in Ht by lia.
    replace 100 with ((N - 1) + (100 - (N - 1))) by lia.
    rewrite run_timers_add, (run_timers_empty _ _ Ht). split; assumption. }
  destruct Hend as [Hs Ht].
  split; [|split; [exact Hs|split; [exact Ht|split]]].
  - intros j Hj. destruct (Hiso j ltac:(lia)) as [_ Htj].
    rewrite bool_decide_eq_true_2 in Htj by lia. exact Htj.
  - vm_compute. reflexivity.
  - vm_compute. reflexivity.
Qed.

End Length.

Section Fractional.

Variable StringToNumber : string → number.

(** X12. For every finite target T >= 1, integer or not, the animation
    ends after some number n of timer callbacks: from then on the
    element shows T and none of its callbacks is pending; before that
    its callback is pending and the value shown is an integer that is
    at least 1 and less than T + 1. *)
Theorem counter_shows_integers c el w es T :
  w_dom w !! c = Some el →
  idle c w →
  Forall (λ en, entry_target en ≠ c) es →
  to_number StringToNumber (data_target el) = T →
  is_finite T = true →
  le (of_Z 1) T = true →
  ∃ n,
    (∀ m, n ≤ m →
       shows c T (run_timers m (counterObserver_callback StringToNumber (Entry c true :: es) w)) ∧
       idle c (run_timers m (counterObserver_callback StringToNumber (Entry c true :: es) w))) ∧
    ∀ m, m < n →
      ¬ idle c (run_timers m (counterObserver_callback StringToNumber (Entry c true :: es) w)) ∧
      ∃ x,
        shows c x (run_timers m (counterObserver_callback StringToNumber (Entry c true :: es) w)) ∧
        is_integer x = true ∧ le (of_Z 1) x = true ∧
        (nval x < nval T + nval (of_Z 1))%Z.
Proof.
  intros Hel Hidle Hes HT Hfin Hge. subst T.
  set (T := to_number StringToNumber (data_target el)) in *.
  destruct (accumulate_stops T Hfin Hge) as (N & HN & Hstop & Hrun).
  destruct (animation_completes StringToNumber c el w es N Hel HN Hstop
              ltac:(intros i Hi; apply Hrun; done) Hidle Hes) as (n & Hi & Hs & _ & Htrace).
  fold T in Hs, Htrace.
  exists n. split.
  { intros m Hm. replace m with (n + (m - n)) by lia. rewrite run_timers_add.
    destruct (idle_run_timers c (m - n) _ Hi) as [Hi' Hd'].
    split; [|exact Hi']. unfold shows in *. congruence. }
  intros m Hm. destruct (Htrace m Hm) as (i1 & _ & H1 & H1N & _ & Hx & _ & _ & Hin).
  split; [exact (pending_not_idle _ _ _ _ _ Hin)|].
  rewrite (stage_value_running T _ N i1 H1N) in Hx.
  exists (ceil (accumulate (div T totalSteps) i1)). split; [exact Hx|].
  destruct (Hrun i1 ltac:(lia)) as (Hp & Hlt & _).
  rewrite lt_nval in Hlt by (first [done | apply is_pos_finite_finite; done]).
  apply Z.ltb_lt in Hlt.
  destruct (ceil_spec _ Hp) as (Hcp & z & Hz & Hzl & Hzu).
  pose proof (is_pos_finite_nval _ Hp) as Hpos.
  pose proof (pow2_pos 1074 ltac:(lia)) as Hp2.
  rewrite nval_one. split; [by apply ceil_is_integer|]. split; [|lia].
  rewrite le_nval by (first [done | apply is_pos_finite_finite; done]).
  apply Z.leb_le. rewrite nval_one. lia.
Qed.

(** X15. A value shown on the way can exceed a fractional target: an
    element with the target 1.5, started with no other timer pending,
    shows 2 after 98 timer callbacks, while its callback is still
    pending, and 2 is greater than 1.5. *)
Theorem fractional_target_overshoot c el w :
  w_dom w !! c = Some el →
  to_number StringToNumber (data_target el) = div (of_Z 3) (of_Z 2) →
  w_timers w = [] →
  shows c (of_Z 2) (run_timers 98 (counterObserver_callback StringToNumber [Entry c true] w)) ∧
  ¬ idle c (run_timers 98 (counterObserver_callback StringToNumber [Entry c true] w)) ∧
  lt (div (of_Z 3) (of_Z 2)) (of_Z 2) = true.
Proof.
  intros Hel HT Hw.
  assert (Hfin : is_finite (div (of_Z 3) (of_Z 2)) = true) by (vm_compute; reflexivity).
  assert (Hge : le (of_Z 1) (div (of_Z 3) (of_Z 2)) = true) by (vm_compute; reflexivity).
  assert (Hc : ceil (accumulate (div (div (of_Z 3) (of_Z 2)) totalSteps) 99) = of_Z 2)
    by (vm_compute; reflexivity).
  assert (Hlt2 : lt (div (of_Z 3) (of_Z 2)) (of_Z 2) = true) by (vm_compute; reflexivity).
  split; [|split; [|exact Hlt2]]; clear Hlt2.
  all: rewrite <- HT in Hfin, Hge, Hc; clear HT.
  all: set (T := to_number StringToNumber (data_target el)) in *.
  all: destruct (steps_100_or_101 T Hfin Hge) as [Hrun Hstop].
  all: assert (HN : ∃ N, (N = 100 ∨ N = 101) ∧
            lt (accumulate (div T totalSteps) N) T = false ∧
            ∀ i, 1 ≤ i < N → lt (accumulate (div T totalSteps) i) T = true).
  1, 3: destruct (lt (accumulate (div T totalSteps) 100) T) eqn:H100;
    [ exists 101; split; [right; reflexivity|]; split; [destruct Hstop; congruence|];
      intros i Hi; destruct (decide (i = 100)) as [-> | ?]; [exact H100 | apply Hrun; lia]
    | exists 100; split; [left; reflexivity|]; split; [exact H100|];
      intros i Hi; apply Hrun; lia ].
  all: clear Hrun Hstop; destruct HN as (N & HN & HstopN & HrunN).
  all: pose proof (animation_isolated StringToNumber c el w N Hel ltac:(lia) HstopN HrunN Hw) as Hiso.
  all: cbn zeta in Hiso; fold T in Hiso.
  all: destruct (Hiso 98 ltac:(lia)) as [Hs Ht].
  - rewrite (stage_value_running T _ N 99 ltac:(lia)), Hc in Hs. exact Hs.
  - rewrite bool_decide_eq_true_2 in Ht by lia.
    apply (pending_not_idle c T (div T totalSteps) (accumulate (div T totalSteps) 99)).
    rewrite Ht. by left.
Qed.

End Fractional.

(** ** The reveal callback is idempotent *)

Lemma world_eq w w' :
  w_dom w = w_dom w' → w_observer w = w_observer w' →
  w_counterObserver w = w_counterObserver w' → w_timers w = w_timers w' →
  w_click w = w_click w' → w_started w = w_started w' → w = w'.
Proof. destruct w, w'. cbn. by intros -> -> -> -> -> ->. Qed.

Lemma observer_callback_absent es : ∀ w e,
  w_dom w !! e = None → w_dom (observer_callback es w) !! e = None.
Proof.
  unfold observer_callback. induction es as [|en es IH]; intros w e Hnone; [done|].
  cbn [foldl]. apply IH. unfold observer_entry. destruct (isIntersecting en); [|done].
  rewrite on_element_lookup. case_bool_decide; by rewrite Hnone.
Qed.

Lemma observer_callback_fixed es : ∀ w e el,
  w_dom w !! e = Some el →
  "visible" ∈ classList el ∨ Entry e true ∉ es →
  w_dom (observer_callback es w) !! e = Some el.
Proof.
  unfold observer_callback. induction es as [|en es IH]; intros w e el Hel Hcase; [done|].
  cbn [foldl]. pose proof (observer_entry_element w en e el Hel) as Hen.
  case_bool_decide as Hmatch.
  - destruct Hmatch as [Hi Ht]. destruct Hcase as [Hvis | Hnin].
    + apply IH; [|by left]. rewrite Hen. f_equal.
      destruct el as [cl a t]. unfold set_classList. cbn in *.
      by rewrite classList_add_present.
    + exfalso. apply Hnin. destruct en as [tgt b]. cbn in *. subst. by left.
  - apply IH; [done|]. destruct Hcase as [? | Hnin]; [by left | right].
    intros Hin. apply Hnin. by right.
Qed.

(** X13. The reveal callback is idempotent on the whole state: handling
    a notification a second time changes nothing, whatever entries it
    holds. *)
Theorem reveal_callback_idempotent es w :
  observer_callback es (observer_callback es w) = observer_callback es w.
Proof.
  destruct (observer_callback_frame es (observer_callback es w)) as (? & ? & ? & ? & ?).
  apply world_eq; try done.
  apply list_eq. intros e.
  destruct (w_dom w !! e) as [el|] eqn:Hel.
  - destruct (observer_callback_element es w e el Hel) as (el1 & Hel1 & _ & _ & Hiff).
    rewrite Hel1. apply observer_callback_fixed; [done|].
    destruct (decide (Entry e true ∈ es)) as [Hin | Hnin]; [left | by right].
    apply Hiff. by right.
  - rewrite (observer_callback_absent es w e Hel).
    by apply observer_callback_absent, observer_callback_absent.
Qed.

(** ** The theorems at the sample page *)

Lemma sample_init : init sample_page = Normal sample_world.
Proof. reflexivity. Qed.

Lemma sample_run :
  run decimal_literal sample_world
    [ObserverNotify [Entry 2 true]; CounterObserverNotify [Entry 3 true]; TimerFires; Click]
    (on_element 1 (set_classList (classList_toggle "active"))
       (run_timer (counterObserver_callback decimal_literal [Entry 3 true]
          (observer_callback [Entry 2 true] sample_world)))).
Proof.
  eapply run_cons; [|reflexivity|].
  { intros en Hin. apply list_elem_of_singleton in Hin. subst en. cbn. set_solver. }
  eapply run_cons; [|reflexivity|].
  { intros en Hin. apply list_elem_of_singleton in Hin. subst en. cbn. set_solver. }
  eapply run_cons; [|reflexivity|].
  { vm_compute. discriminate. }
  eapply run_cons; [exact I | reflexivity | apply run_nil].
Qed.

Lemma sample_run_reveal :
  run decimal_literal sample_world [ObserverNotify [Entry 2 true]; Click]
    (on_element 1 (set_classList (classList_toggle "active"))
       (observer_callback [Entry 2 true] sample_world)).
Proof.
  eapply run_cons; [|reflexivity|].
  { intros en Hin. apply list_elem_of_singleton in Hin. subst en. cbn. set_solver. }
  eapply run_cons; [exact I | reflexivity | apply run_nil].
Qed.

Lemma sample_run_counter :
  run decimal_literal sample_world [CounterObserverNotify [Entry 3 true]; TimerFires]
    (run_timer (counterObserver_callback decimal_literal [Entry 3 true] sample_world)).
Proof.
  eapply run_cons; [|reflexivity|].
  { intros en Hin. apply list_elem_of_singleton in Hin. subst en. cbn. set_solver. }
  eapply run_cons; [|reflexivity|apply run_nil].
  vm_compute. discriminate.
Qed.

Lemma counter_convergence_witness :
  ∃ n, ∀ m, n ≤ m →
    shows 4 (of_Z 3)
      (run_timers m (counterObserver_callback decimal_literal [Entry 4 true; Entry 3 true] sample_world)) ∧
    idle 4
      (run_timers m (counterObserver_callback decimal_literal [Entry 4 true; Entry 3 true] sample_world)).
Proof.
  apply (counter_convergence decimal_literal 4
           (Element ["js-counter"] (Some "3") (Markup "0")) sample_world [Entry 3 true] (of_Z 3)).
  - reflexivity.
  - apply Forall_nil_2.
  - apply Forall_cons_2; [cbn; lia | apply Forall_nil_2].
  - vm_compute; reflexivity.
  - vm_compute; reflexivity.
  - vm_compute; reflexivity.
Defined.

Lemma counter_monotone_witness :
  ∃ n,
    (∀ m, n ≤ m →
       shows 4 (of_Z 3) (run_timers m (counterObserver_callback decimal_literal [Entry 4 true; Entry 3 true] sample_world)) ∧
       idle 4 (run_timers m (counterObserver_callback decimal_literal [Entry 4 true; Entry 3 true] sample_world))) ∧
    ∀ m, m < n → ∃ x y i,
      1 ≤ i ∧
      Closure 4 (of_Z 3) (div (of_Z 3) totalSteps) (accumulate (div (of_Z 3) totalSteps) i) ∈
        w_timers (run_timers m (counterObserver_callback decimal_literal [Entry 4 true; Entry 3 true] sample_world)) ∧
      ¬ idle 4 (run_timers m (counterObserver_callback decimal_literal [Entry 4 true; Entry 3 true] sample_world)) ∧
      shows 4 x (run_timers m (counterObserver_callback decimal_literal [Entry 4 true; Entry 3 true] sample_world)) ∧
      shows 4 y (run_timers (S m) (counterObserver_callback decimal_literal [Entry 4 true; Entry 3 true] sample_world)) ∧
      x = ceil (accumulate (div (of_Z 3) totalSteps) i) ∧
      is_integer x = true ∧
      (y = x ∨ y = ceil (accumulate (div (of_Z 3) totalSteps) (S i)) ∨ y = of_Z 3) ∧
      le x y = true ∧ le x (of_Z 3) = true ∧ le y (of_Z 3) = true.
Proof.
  apply (counter_monotone decimal_literal 4
           (Element ["js-counter"] (Some "3") (Markup "0")) sample_world [Entry 3 true] (of_Z 3)).
  - reflexivity.
  - apply Forall_nil_2.
  - apply Forall_cons_2; [cbn; lia | apply Forall_nil_2].
  - vm_compute; reflexivity.
  - vm_compute; reflexivity.
  - vm_compute; reflexivity.
Defined.

Lemma counter_scenario_100_witness :
  totalSteps = of_Z 100 ∧
  increment (new_closure decimal_literal 3 sample_world) = of_Z 1 ∧
  (∀ j, j < 99 →
     shows 3 (of_Z (Z.of_nat (S j)))
       (run_timers j (counterObserver_callback decimal_literal [Entry 3 true] sample_world)) ∧
     w_timers (run_timers j (counterObserver_callback decimal_literal [Entry 3 true] sample_world)) =
       [Closure 3 (of_Z 100) (of_Z 1) (of_Z (Z.of_nat (S j)))]) ∧
  shows 3 (of_Z 100) (run_timers 99 (counterObserver_callback decimal_literal [Entry 3 true] sample_world)) ∧
  w_timers (run_timers 99 (counterObserver_callback decimal_literal [Entry 3 true] sample_world)) = [] ∧
  3 ∉ w_counterObserver (run_timers 99 (counterObserver_callback decimal_literal [Entry 3 true] sample_world)).
Proof.
  apply (counter_scenario_100 decimal_literal 3
           (Element ["js-counter"] (Some "100") (Markup "0")) sample_world).
  - reflexivity.
  - vm_compute; reflexivity.
  - reflexivity.
Defined.

Lemma counter_target_zero_witness :
  increment (new_closure decimal_literal 5 sample_world) = S754_zero false ∧
  add (of_Z 0) (S754_zero false) = of_Z 0 ∧
  lt (of_Z 0) (S754_zero false) = false ∧
  shows 5 (S754_zero false) (counterObserver_callback decimal_literal [Entry 5 true] sample_world) ∧
  w_timers (counterObserver_callback decimal_literal [Entry 5 true] sample_world) = w_timers sample_world.
Proof.
  apply (counter_target_zero decimal_literal 5
           (Element ["js-counter"] (Some "0") (Markup "0")) sample_world false).
  - reflexivity.
  - vm_compute; reflexivity.
Defined.

Lemma counter_target_negative_witness :
  SFcompare (add (of_Z 0) (div (of_Z (-5)) totalSteps)) (div (of_Z (-5)) totalSteps) = Some Eq ∧
  SFcompare (add (of_Z 0) (div (of_Z (-5)) totalSteps)) (of_Z (-5)) = Some Gt ∧
  lt (add (of_Z 0) (div (of_Z (-5)) totalSteps)) (of_Z (-5)) = false ∧
  shows 6 (of_Z (-5)) (counterObserver_callback decimal_literal [Entry 6 true] sample_world) ∧
  w_timers (counterObserver_callback decimal_literal [Entry 6 true] sample_world) = w_timers sample_world.
Proof.
  apply (counter_target_negative decimal_literal 6
           (Element ["js-counter"] (Some "-5") (Markup "0")) sample_world (of_Z (-5))).
  - reflexivity.
  - vm_compute; reflexivity.
  - vm_compute; reflexivity.
  - vm_compute; reflexivity.
Defined.

Lemma counter_missing_attribute_witness :
  getAttribute_data_target 7 sample_world = None ∧
  new_closure decimal_literal 7 sample_world = Closure 7 (of_Z 0) (div (of_Z 0) totalSteps) (of_Z 0) ∧
  shows 7 (of_Z 0) (counterObserver_callback decimal_literal [Entry 7 true] sample_world) ∧
  w_timers (counterObserver_callback decimal_literal [Entry 7 true] sample_world) = w_timers sample_world.
Proof.
  apply (counter_missing_attribute decimal_literal 7
           (Element ["js-counter"] None (Markup "0")) sample_world).
  - reflexivity.
  - reflexivity.
Defined.

Lemma at_most_once_witness :
  started 3 (on_element 1 (set_classList (classList_toggle "active"))
       (run_timer (counterObserver_callback decimal_literal [Entry 3 true]
          (observer_callback [Entry 2 true] sample_world)))) =
    sum_list (starts_in 3 <$> [ObserverNotify [Entry 2 true]; CounterObserverNotify [Entry 3 true]; TimerFires; Click]) ∧
  (∀ evs1 ev evs2,
     [ObserverNotify [Entry 2 true]; CounterObserverNotify [Entry 3 true]; TimerFires; Click] = evs1 ++ ev :: evs2 →
     0 < starts_in 3 ev → Forall (λ ev', starts_in 3 ev' = 0) evs2) ∧
  (0 < started 3 (on_element 1 (set_classList (classList_toggle "active"))
       (run_timer (counterObserver_callback decimal_literal [Entry 3 true]
          (observer_callback [Entry 2 true] sample_world)))) →
   3 ∉ w_counterObserver (on_element 1 (set_classList (classList_toggle "active"))
       (run_timer (counterObserver_callback decimal_literal [Entry 3 true]
          (observer_callback [Entry 2 true] sample_world))))) ∧
  (∀ evs' w'',
     3 ∉ w_counterObserver (on_element 1 (set_classList (classList_toggle "active"))
       (run_timer (counterObserver_callback decimal_literal [Entry 3 true]
          (observer_callback [Entry 2 true] sample_world)))) →
     run decimal_literal (on_element 1 (set_classList (classList_toggle "active"))
       (run_timer (counterObserver_callback decimal_literal [Entry 3 true]
          (observer_callback [Entry 2 true] sample_world)))) evs' w'' →
     3 ∉ w_counterObserver w'' ∧
     started 3 w'' = started 3 (on_element 1 (set_classList (classList_toggle "active"))
       (run_timer (counterObserver_callback decimal_literal [Entry 3 true]
          (observer_callback [Entry 2 true] sample_world))))) ∧
  (Forall distinct_targets [ObserverNotify [Entry 2 true]; CounterObserverNotify [Entry 3 true]; TimerFires; Click] →
   started 3 (on_element 1 (set_classList (classList_toggle "active"))
       (run_timer (counterObserver_callback decimal_literal [Entry 3 true]
          (observer_callback [Entry 2 true] sample_world)))) ≤ 1).
Proof.
  apply (at_most_once decimal_literal sample_page sample_world
           [ObserverNotify [Entry 2 true]; CounterObserverNotify [Entry 3 true]; TimerFires; Click]
           (on_element 1 (set_classList (classList_toggle "active"))
       (run_timer (counterObserver_callback decimal_literal [Entry 3 true]
          (observer_callback [Entry 2 true] sample_world)))) 3).
  - left; reflexivity.
  - exact sample_run.
Defined.

Lemma menu_toggle_witness :
  (∀ evs w', run decimal_literal sample_world evs w' →
     has_class "active" 1 w' = Nat.odd (clicks evs)) ∧
  (∀ N, ∃ w', run decimal_literal sample_world (replicate N Click) w' ∧
     has_class "active" 1 w' = Nat.odd N).
Proof.
  apply (menu_toggle decimal_literal sample_page sample_world 1).
  - reflexivity.
  - reflexivity.
  - reflexivity.
Defined.

Lemma reveal_one_way_witness :
  (∀ evs w', run decimal_literal sample_world evs w' →
     "visible" ∈ ["scroll-animate"] ∨ (∃ es, ObserverNotify es ∈ evs ∧ Entry 2 true ∈ es) →
     ∃ el', w_dom w' !! 2 = Some el' ∧ "visible" ∈ classList el' ∧ NoDup (classList el')) ∧
  ("visible" ∈ ["scroll-animate"] → observer_callback [Entry 2 true] sample_world = sample_world).
Proof.
  apply (reveal_one_way decimal_literal 2
           (Element ["scroll-animate"] None (Markup "hello")) sample_world).
  - reflexivity.
  - apply NoDup_singleton.
Defined.

Lemma missing_element_fault_witness :
  (querySelector "navbar-toggler" [Element ["navbar-toggler"] None (Markup "menu")] = None →
     ∃ w, init [Element ["navbar-toggler"] None (Markup "menu")] = TypeError w ∧ click w = Normal w ∧
       w_observer w = list_to_set (querySelectorAll "scroll-animate" [Element ["navbar-toggler"] None (Markup "menu")]) ∧
       w_counterObserver w = list_to_set (querySelectorAll "js-counter" [Element ["navbar-toggler"] None (Markup "menu")])) ∧
  (is_Some (querySelector "navbar-toggler" [Element ["navbar-toggler"] None (Markup "menu")]) →
     querySelector "navbar-nav" [Element ["navbar-toggler"] None (Markup "menu")] = None →
     ∃ w, init [Element ["navbar-toggler"] None (Markup "menu")] = Normal w ∧ click w = TypeError w).
Proof. apply (missing_element_fault [Element ["navbar-toggler"] None (Markup "menu")]). Defined.

(** ** The further properties at the sample page *)

Lemma reveal_marks_intersecting_witness :
  ∃ el', w_dom (observer_callback [Entry 2 true; Entry 3 false] sample_world) !! 2 = Some el' ∧
    innerText el' = Markup "hello" ∧ data_target el' = None ∧
    ∀ tok, tok ∈ classList el' ↔
      tok ∈ ["scroll-animate"] ∨ (tok = "visible" ∧ Entry 2 true ∈ [Entry 2 true; Entry 3 false]).
Proof.
  apply (reveal_marks_intersecting [Entry 2 true; Entry 3 false] sample_world 2
           (Element ["scroll-animate"] None (Markup "hello"))).
  reflexivity.
Defined.

Lemma watchers_over_time_witness :
  w_observer (on_element 1 (set_classList (classList_toggle "active"))
       (run_timer (counterObserver_callback decimal_literal [Entry 3 true]
          (observer_callback [Entry 2 true] sample_world)))) = w_observer sample_world ∧
  w_click (on_element 1 (set_classList (classList_toggle "active"))
       (run_timer (counterObserver_callback decimal_literal [Entry 3 true]
          (observer_callback [Entry 2 true] sample_world)))) = w_click sample_world ∧
  w_counterObserver (on_element 1 (set_classList (classList_toggle "active"))
       (run_timer (counterObserver_callback decimal_literal [Entry 3 true]
          (observer_callback [Entry 2 true] sample_world)))) ⊆ w_counterObserver sample_world.
Proof.
  apply (watchers_over_time decimal_literal sample_world
           [ObserverNotify [Entry 2 true]; CounterObserverNotify [Entry 3 true]; TimerFires; Click]).
  exact sample_run.
Defined.

Lemma counter_target_not_finite_witness :
  shows 0 S754_nan
    (counterObserver_callback decimal_literal [Entry 0 true]
       (World [Element ["js-counter"] (Some "many") (Markup "0")] ∅ {[0]} [] None [])) ∧
  w_timers
    (counterObserver_callback decimal_literal [Entry 0 true]
       (World [Element ["js-counter"] (Some "many") (Markup "0")] ∅ {[0]} [] None [])) = [].
Proof.
  apply (counter_target_not_finite decimal_literal 0
           (Element ["js-counter"] (Some "many") (Markup "0"))
           (World [Element ["js-counter"] (Some "many") (Markup "0")] ∅ {[0]} [] None [])
           S754_nan).
  - reflexivity.
  - vm_compute; reflexivity.
  - left; reflexivity.
Defined.

Lemma two_clicks_restore_witness :
  ∃ w1 w2, click sample_world = Normal w1 ∧ click w1 = Normal w2 ∧
    (∃ el2, w_dom w2 !! 1 = Some el2 ∧ classList el2 ≡ₚ ["navbar-nav"] ∧
            innerText el2 = Markup "nav" ∧ data_target el2 = None) ∧
    (∀ e, e ≠ 1 → w_dom w2 !! e = w_dom sample_world !! e) ∧
    w_timers w2 = w_timers sample_world ∧ w_observer w2 = w_observer sample_world ∧
    w_counterObserver w2 = w_counterObserver sample_world ∧ w_click w2 = w_click sample_world.
Proof.
  apply (two_clicks_restore 1 (Element ["navbar-nav"] None (Markup "nav")) sample_world).
  - reflexivity.
  - reflexivity.
  - apply NoDup_singleton.
Defined.

Lemma init_registers_witness :
  w_dom sample_world = sample_page ∧ w_timers sample_world = [] ∧
  (∀ e, e ∈ w_observer sample_world ↔
     ∃ el, sample_page !! e = Some el ∧ "scroll-animate" ∈ classList el) ∧
  (∀ e, e ∈ w_counterObserver sample_world ↔
     ∃ el, sample_page !! e = Some el ∧ "js-counter" ∈ classList el) ∧
  (is_Some (w_click sample_world) ↔
     ∃ e el, sample_page !! e = Some el ∧ "navbar-toggler" ∈ classList el) ∧
  (querySelectorAll "scroll-animate" sample_page = [] →
     ∀ es, delivered sample_world (ObserverNotify es) → es = []).
Proof.
  apply (init_registers sample_page sample_world).
  left; reflexivity.
Defined.

Lemma one_pending_callback_witness :
  pending 3 (on_element 1 (set_classList (classList_toggle "active"))
       (run_timer (counterObserver_callback decimal_literal [Entry 3 true]
          (observer_callback [Entry 2 true] sample_world)))) ≤ 1.
Proof.
  apply (one_pending_callback decimal_literal sample_page sample_world
           [ObserverNotify [Entry 2 true]; CounterObserverNotify [Entry 3 true]; TimerFires; Click]).
  - left; reflexivity.
  - exact sample_run.
  - repeat apply Forall_cons_2; [exact I | apply NoDup_singleton | exact I | exact I | apply Forall_nil_2].
Defined.

Lemma counter_target_tiny_witness :
  shows 0 (of_Z 0)
    (run_timers 1000
       (counterObserver_callback (λ _, S754_finite false 1 (-1074)) [Entry 0 true]
          (World [Element ["js-counter"] (Some "5e-324") (Markup "0")] ∅ {[0]} [] None []))) ∧
  w_timers
    (run_timers 1000
       (counterObserver_callback (λ _, S754_finite false 1 (-1074)) [Entry 0 true]
          (World [Element ["js-counter"] (Some "5e-324") (Markup "0")] ∅ {[0]} [] None []))) =
    [Closure 0 (S754_finite false 1 (-1074)) (of_Z 0) (of_Z 0)].
Proof.
  apply (counter_target_tiny (λ _, S754_finite false 1 (-1074)) 0
           (Element ["js-counter"] (Some "5e-324") (Markup "0"))
           (World [Element ["js-counter"] (Some "5e-324") (Markup "0")] ∅ {[0]} [] None []) 1).
  - reflexivity.
  - reflexivity.
  - lia.
  - reflexivity.
Defined.

Lemma two_counters_converge_witness :
  ∃ n, ∀ m, n ≤ m →
    shows 3 (of_Z 100)
      (run_timers m (counterObserver_callback decimal_literal [Entry 3 true; Entry 4 true] sample_world)) ∧
    shows 4 (of_Z 3)
      (run_timers m (counterObserver_callback decimal_literal [Entry 3 true; Entry 4 true] sample_world)) ∧
    idle 3
      (run_timers m (counterObserver_callback decimal_literal [Entry 3 true; Entry 4 true] sample_world)) ∧
    idle 4
      (run_timers m (counterObserver_callback decimal_literal [Entry 3 true; Entry 4 true] sample_world)).
Proof.
  apply (two_counters_converge decimal_literal 3 4
           (Element ["js-counter"] (Some "100") (Markup "0"))
           (Element ["js-counter"] (Some "3") (Markup "0")) sample_world (of_Z 100) (of_Z 3)).
  - lia.
  - reflexivity.
  - reflexivity.
  - apply Forall_nil_2.
  - apply Forall_nil_2.
  - vm_compute; reflexivity.
  - vm_compute; reflexivity.
  - vm_compute; reflexivity.
  - vm_compute; reflexivity.
  - vm_compute; reflexivity.
  - vm_compute; reflexivity.
Defined.

Lemma reveal_and_clicks_keep_text_witness :
  innerText (Element ["scroll-animate"; "visible"] None (Markup "hello")) = Markup "hello" ∧
  data_target (Element ["scroll-animate"; "visible"] None (Markup "hello")) = None.
Proof.
  apply (reveal_and_clicks_keep_text decimal_literal sample_world
           [ObserverNotify [Entry 2 true]; Click]
           (on_element 1 (set_classList (classList_toggle "active"))
              (observer_callback [Entry 2 true] sample_world))
           2 (Element ["scroll-animate"] None (Markup "hello"))
           (Element ["scroll-animate"; "visible"] None (Markup "hello"))).
  - exact sample_run_reveal.
  - reflexivity.
  - reflexivity.
  - reflexivity.
Defined.

Lemma counters_keep_classes_witness :
  classList (Element ["js-counter"] (Some "100") (Shown (of_Z 2))) = ["js-counter"] ∧
  data_target (Element ["js-counter"] (Some "100") (Shown (of_Z 2))) = Some "100".
Proof.
  apply (counters_keep_classes decimal_literal sample_world
           [CounterObserverNotify [Entry 3 true]; TimerFires]
           (run_timer (counterObserver_callback decimal_literal [Entry 3 true] sample_world))
           3 (Element ["js-counter"] (Some "100") (Markup "0"))
           (Element ["js-counter"] (Some "100") (Shown (of_Z 2)))).
  - exact sample_run_counter.
  - reflexivity.
  - reflexivity.
  - vm_compute; reflexivity.
Defined.

Lemma animation_length_witness :
  (∀ j, j ≤ 98 →
     w_timers (run_timers j (counterObserver_callback decimal_literal [Entry 4 true] sample_world)) =
       [Closure 4 (of_Z 3) (div (of_Z 3) totalSteps) (accumulate (div (of_Z 3) totalSteps) (S j))]) ∧
  shows 4 (of_Z 3) (run_timers 100 (counterObserver_callback decimal_literal [Entry 4 true] sample_world)) ∧
  w_timers (run_timers 100 (counterObserver_callback decimal_literal [Entry 4 true] sample_world)) = [] ∧
  lt (accumulate (div (of_Z 100) totalSteps) 100) (of_Z 100) = false ∧
  lt (accumulate (div (of_Z 10) totalSteps) 100) (of_Z 10) = true.
Proof.
  apply (animation_length decimal_literal 4
           (Element ["js-counter"] (Some "3") (Markup "0")) sample_world (of_Z 3)).
  - reflexivity.
  - vm_compute; reflexivity.
  - vm_compute; reflexivity.
  - vm_compute; reflexivity.
  - reflexivity.
Defined.

Lemma counter_shows_integers_witness :
  ∃ n,
    (∀ m, n ≤ m →
       shows 4 (of_Z 3) (run_timers m (counterObserver_callback decimal_literal [Entry 4 true] sample_world)) ∧
       idle 4 (run_timers m (counterObserver_callback decimal_literal [Entry 4 true] sample_world))) ∧
    ∀ m, m < n →
      ¬ idle 4 (run_timers m (counterObserver_callback decimal_literal [Entry 4 true] sample_world)) ∧
      ∃ x,
        shows 4 x (run_timers m (counterObserver_callback decimal_literal [Entry 4 true] sample_world)) ∧
        is_integer x = true ∧ le (of_Z 1) x = true ∧
        (nval x < nval (of_Z 3) + nval (of_Z 1))%Z.
Proof.
  apply (counter_shows_integers decimal_literal 4
           (Element ["js-counter"] (Some "3") (Markup "0")) sample_world [] (of_Z 3)).
  - reflexivity.
  - apply Forall_nil_2.
  - apply Forall_nil_2.
  - vm_compute; reflexivity.
  - vm_compute; reflexivity.
  - vm_compute; reflexivity.
Defined.

Lemma fractional_target_overshoot_witness :
  shows 0 (of_Z 2)
    (run_timers 98
       (counterObserver_callback (λ _, div (of_Z 3) (of_Z 2)) [Entry 0 true]
          (World [Element ["js-counter"] (Some "1.5") (Markup "0")] ∅ {[0]} [] None []))) ∧
  ¬ idle 0
    (run_timers 98
       (counterObserver_callback (λ _, div (of_Z 3) (of_Z 2)) [Entry 0 true]
          (World [Element ["js-counter"] (Some "1.5") (Markup "0")] ∅ {[0]} [] None []))) ∧
  lt (div (of_Z 3) (of_Z 2)) (of_Z 2) = true.
Proof.
  apply (fractional_target_overshoot (λ _, div (of_Z 3) (of_Z 2)) 0
           (Element ["js-counter"] (Some "1.5") (Markup "0"))
           (World [Element ["js-counter"] (Some "1.5") (Markup "0")] ∅ {[0]} [] None [])).
  - reflexivity.
  - reflexivity.
  - reflexivity.
Defined.
